(** * The NeonHost connectivity probe: a shallow embedding of its two routes

    The repository serves one HTTP route, [/api/test-connectivity], in two
    versions: the route that opens real TCP connections
    ([performRealPortTest], module [RealProbe] below) and the route that
    draws its measurements from [Math.random] ([simulatePortTest], module
    [SimulatedProbe]).  Both contain the same rate limiter [checkRateLimit].

    Modelling choices.
    - A JavaScript [number] is a binary64 floating-point number.  The
      measurements (a latency, a jitter, a random draw) are modelled twice.
      In [RealProbe] and [SimulatedProbe] they are exact rationals [Q],
      with equalities stated by [==]: that reading serves for what the
      rounding of binary64 cannot change, the counts, the order of the
      entries, the rate limiter, and ranges whose ends are binary64
      numbers.  In [Binary64] the same code computes on the primitive
      binary64 numbers, every operation rounding as IEEE 754 prescribes:
      what the routes return as latency, jitter and average jitter is
      settled there.  Counters and time stamps, which stay integral in the
      source, are [Z].
    - A promise is its settled outcome ([Resolved] or [Rejected]); [await]
      is the bind of that error monad and [try_catch] its handler.
    - The socket and [Math.random] are the environment: an oracle gives the
      first event each socket emits, another the successive random draws.
    - The in-memory [Map] of the rate limiter is a [gmap]; the record a
      [get] returns aliases the stored one, so [record.count++] is an
      [insert] under the same key. *)

From Stdlib Require Import ZArith QArith Qround Qabs Qminmax Lqa Lia List String.
From Stdlib Require Import DecimalString.
From Stdlib Require Floats Uint63.
From stdpp Require Import base option list gmap strings.
Import ListNotations.
Local Open Scope Z_scope.

(** A decimal constant stands for the binary64 number nearest to it, as in
    the source. *)
#[local] Set Warnings "-inexact-float".

(** ** JavaScript numbers and the [Math] functions the routes call *)

(** [Math.round]: the nearest integer, a tie going toward plus infinity. *)
Definition Math_round (x : Q) : Q := inject_Z (Qfloor (x + (1 # 2))).

(** [Math.floor]; its value is integral and is kept as a [Z]. *)
Definition Math_floor (x : Q) : Z := Qfloor x.

Definition Math_abs (x : Q) : Q := Qabs x.

Definition Math_max (x y : Q) : Q := Qmax x y.

(** [xs.length] as a number. *)
Definition length_num {A} (xs : list A) : Q := inject_Z (Z.of_nat (length xs)).

(** [xs.reduce((a, b) => a + b, 0)]. *)
Definition reduce_sum (xs : list Q) : Q := fold_left Qplus xs 0%Q.

(** [xs[i]] for an index the loops keep in range. *)
Definition at_index (xs : list Q) (i : nat) : Q := nth i xs 0%Q.

(** ** Promises and [async] functions *)

Inductive Error : Type :=
  | SocketError (code : string)
  | TimeoutError.

Inductive Promise (A : Type) : Type :=
  | Resolved (value : A)
  | Rejected (reason : Error).
Arguments Resolved {A} value.
Arguments Rejected {A} reason.

Definition await {A B} (p : Promise A) (k : A -> Promise B) : Promise B :=
  match p with
  | Resolved a => k a
  | Rejected e => Rejected e
  end.

Definition try_catch {A} (body : Promise A) (handler : Error -> Promise A)
  : Promise A :=
  match body with
  | Resolved a => Resolved a
  | Rejected e => handler e
  end.

Notation "'awaiting' x ':=' p 'in' k" := (await p (fun x => k))
  (at level 10, x name, p at level 100, k at level 200).

(** [for (const i of indices) { st = await body(st, i) }]. *)
Fixpoint for_each {S} (body : S -> nat -> Promise S) (indices : list nat) (st : S)
  : Promise S :=
  match indices with
  | [] => Resolved st
  | i :: rest => awaiting st' := body st i in for_each body rest st'
  end.

(** [await Promise.all(ps)], the promises read in array order.  When several
    promises reject the runtime reports the one that rejected first in time;
    [POST] answers every rejection alike, so the order of reading is kept. *)
Fixpoint Promise_all {A} (ps : list (Promise A)) : Promise (list A) :=
  match ps with
  | [] => Resolved []
  | p :: rest =>
      awaiting a := p in
      awaiting others := Promise_all rest in
      Resolved (a :: others)
  end.

(** ** The shapes both routes share *)

Record TargetPort : Type := {
  port : Z;
  name : string;
  description : string
}.

(** What [performRealPortTest] and [simulatePortTest] return. *)
Record PortTestResult : Type := {
  success : bool;
  latency : Q;
  jitter : Q;
  packetsSent : Z;
  packetsReceived : Z;
  packetsLost : Z
}.

(** The object [{ ...portInfo, ...result }]: the two key sets are disjoint,
    so the spread keeps every field of both. *)
Record TestResult : Type := {
  portInfo : TargetPort;
  result : PortTestResult
}.

(** The body of the 200 answer; [serverIp] and [completedAt] are
    presentation strings and are left out. *)
Record ProbeReport : Type := {
  clientIp : string;
  avgJitter : Q;
  results : list TestResult
}.

Inductive Response : Type :=
  | Ok (report : ProbeReport)     (* status 200, success: true *)
  | TooManyRequests               (* status 429 *)
  | InternalError.                (* status 500, the outer catch *)

(** ** The rate limiter (the same function in both routes) *)

Module RateLimit.

(** What the map stores for a client. *)
Record Entry : Type := {
  count : Z;
  resetTime : Z
}.

Definition RATE_LIMIT : Z := 10.
Definition RATE_WINDOW : Z := 60 * 1000.

(** [now] is the value [Date.now()] returns in this call. *)
Definition checkRateLimit (ip : string) (now : Z)
    (rateLimitMap : gmap string Entry) : bool * gmap string Entry :=
  let fresh :=
    (true, <[ip := {| count := 1; resetTime := now + RATE_WINDOW |}]> rateLimitMap) in
  match rateLimitMap !! ip with
  | None => fresh
  | Some record =>
      if now >? resetTime record then fresh
      else if count record >=? RATE_LIMIT then (false, rateLimitMap)
      else (true,
            <[ip := {| count := count record + 1;
                       resetTime := resetTime record |}]> rateLimitMap)
  end.

(** A sequence of requests [(ip, now)] served one after the other; the
    answers are returned in request order. *)
Fixpoint serve (requests : list (string * Z)) (m : gmap string Entry)
  : list bool * gmap string Entry :=
  match requests with
  | [] => ([], m)
  | (ip, now) :: rest =>
      let '(ok, m1) := checkRateLimit ip now m in
      let '(oks, m2) := serve rest m1 in
      (ok :: oks, m2)
  end.

(** The answers given to [ip] among [requests]. *)
Fixpoint answers_for (ip : string) (requests : list (string * Z))
    (oks : list bool) : list bool :=
  match requests, oks with
  | (ip', _) :: rest, ok :: oks' =>
      if String.eqb ip' ip then ok :: answers_for ip rest oks'
      else answers_for ip rest oks'
  | _, _ => []
  end.

Definition accepted (oks : list bool) : nat := count_occ bool_dec oks true.

(** The maps the server can hold: the empty one and what calls make of it. *)
Inductive reachable : gmap string Entry -> Prop :=
  | reachable_empty : reachable ∅
  | reachable_call ip now m :
      reachable m -> reachable (snd (checkRateLimit ip now m)).

(** A call at [now] starts a window for [ip]: nothing is stored for it,
    or what is stored has expired. *)
Definition opens_window (ip : string) (now : Z) (m : gmap string Entry)
  : Prop :=
  m !! ip = None
  \/ exists record, m !! ip = Some record /\ resetTime record < now.

(** Every stored count lies between 1 and the limit. *)
Definition bounded (m : gmap string Entry) : Prop :=
  forall ip record, m !! ip = Some record -> 1 <= count record <= RATE_LIMIT.

End RateLimit.

(** ** The route that opens real connections (src/unnamed/part_000) *)

Module RealProbe.
Import RateLimit.

Definition SERVER_IP : string := "45.146.81.208".

Definition TEST_PORTS : list TargetPort := [
  {| port := 80; name := "HTTP"; description := "Web Server" |};
  {| port := 443; name := "HTTPS"; description := "Web Server Seguro" |};
  {| port := 3306; name := "MySQL"; description := "Banco de Dados MySQL" |};
  {| port := 30120; name := "FiveM"; description := "Servidor FiveM" |}
].

(** The first event a socket emits after [socket.connect]; the promise of
    [measureTcpLatency] settles on it and later events change nothing.
    [connect] carries [performance.now() - start]. *)
Inductive SocketEvent : Type :=
  | connect (duration : Q)
  | error (err : string)
  | timeout.

(** The network as one probe sees it: the event of the [n]-th socket it
    opens to [host]:[port] (the 2000 ms default timeout is part of it). *)
Definition Network : Type := string -> Z -> nat -> SocketEvent.

Definition measureTcpLatency (net : Network) (host : string) (port : Z)
    (n : nat) : Promise Q :=
  match net host port n with
  | connect duration => Resolved duration
  | error err => Rejected (SocketError err)
  | timeout => Rejected TimeoutError
  end.

(** The accumulators of the sampling loop. *)
Record Samples : Type := {
  latencies : list Q;
  successCount : Z
}.

Definition no_samples : Samples := {| latencies := []; successCount := 0 |}.

(** One turn of the loop: the [try] pushes the latency and counts the
    success, the [catch] swallows the rejection.  The 50 ms pause that
    follows touches no variable. *)
Definition attempt (net : Network) (host : string) (port : Z)
    (st : Samples) (i : nat) : Promise Samples :=
  try_catch
    (awaiting latency := measureTcpLatency net host port i in
     Resolved {| latencies := latencies st ++ [latency];
                 successCount := successCount st + 1 |})
    (fun _ => Resolved st).

(** The local [avgLatency]. *)
Definition avgLatency (latencies : list Q) : Q :=
  if (0 <? length latencies)%nat
  then (reduce_sum latencies / length_num latencies)%Q
  else 0%Q.

(** The body of the jitter loop, on the locals [jitterSum] and
    [jitterCount]. *)
Definition jitterStep (latencies : list Q) (acc : Q * Z) (i : nat) : Q * Z :=
  let '(jitterSum, jitterCount) := acc in
  ((jitterSum
    + Math_abs (at_index latencies i - at_index latencies (i - 1)))%Q,
   jitterCount + 1).

(** [jitterSum] and [jitterCount] after the loop. *)
Definition jitterLoop (latencies : list Q) : Q * Z :=
  if (1 <? length latencies)%nat
  then fold_left (jitterStep latencies) (seq 1 (length latencies - 1)) (0%Q, 0)
  else (0%Q, 0).

(** The local [jitter]. *)
Definition jitterValue (latencies : list Q) : Q :=
  let '(jitterSum, jitterCount) := jitterLoop latencies in
  if jitterCount >? 0 then (jitterSum / inject_Z jitterCount)%Q else 0%Q.

(** What follows the sampling loop. *)
Definition summarise (packetsSent : Z) (st : Samples) : PortTestResult :=
  let packetsReceived := successCount st in
  let packetsLost := packetsSent - packetsReceived in
  let success := packetsReceived >? 0 in
  {| success := success;
     latency := (Math_round (avgLatency (latencies st) * 10) / 10)%Q;
     jitter := (Math_round (jitterValue (latencies st) * 10) / 10)%Q;
     packetsSent := packetsSent;
     packetsReceived := packetsReceived;
     packetsLost := packetsLost |}.

Definition performRealPortTest (net : Network) (host : string) (port : Z)
  : Promise PortTestResult :=
  let packetsSent := 5 in
  awaiting st :=
    for_each (attempt net host port) (seq 0 (Z.to_nat packetsSent)) no_samples in
  Resolved (summarise packetsSent st).

(** The callback [POST] maps over the ports. *)
Definition testPort (net : Network) (portInfo : TargetPort)
  : Promise TestResult :=
  awaiting result := performRealPortTest net SERVER_IP (port portInfo) in
  Resolved {| portInfo := portInfo; result := result |}.

(** [await Promise.all(targets.map(testPort))]. *)
Definition testAll (net : Network) (targets : list TargetPort)
  : Promise (list TestResult) :=
  Promise_all (map (testPort net) targets).

(** [ip] is what [getClientIp(request)] returned, [now] what [Date.now()]
    returns inside [checkRateLimit]. *)
Definition POST (net : Network) (ip : string) (now : Z)
    (rateLimitMap : gmap string Entry) : Response * gmap string Entry :=
  let '(allowed, rateLimitMap) := checkRateLimit ip now rateLimitMap in
  if negb allowed then (TooManyRequests, rateLimitMap)
  else
    match testAll net TEST_PORTS with
    | Rejected _ => (InternalError, rateLimitMap)
    | Resolved testResults =>
        let validJitters :=
          map (fun r => jitter (result r))
              (List.filter (fun r => success (result r)) testResults) in
        let avgJitter :=
          if (0 <? length validJitters)%nat
          then (reduce_sum validJitters / length_num validJitters)%Q
          else 0%Q in
        (Ok {| clientIp := ip;
               avgJitter := (Math_round (avgJitter * 10) / 10)%Q;
               results := testResults |},
         rateLimitMap)
    end.

(** *** The port tests as concurrent tasks

    [TEST_PORTS.map] starts one task per port; each is suspended at its
    pending socket, and a task is resumed when that socket emits its
    event.  A schedule lists, in the order the events arrive, the index of
    the task resumed; [Promise.all] stores what a task returns at the
    task's own index and resolves when every slot is filled. *)

Record Task : Type := {
  target : TargetPort;
  turn : nat;           (* the loop variable [i] *)
  samples : Samples
}.

Record Pool : Type := {
  tasks : list Task;
  values : list (option TestResult)
}.

Definition launch (targets : list TargetPort) : Pool :=
  {| tasks := map (fun t => {| target := t; turn := 0; samples := no_samples |})
                  targets;
     values := map (fun _ => None) targets |}.

(** The event of task [k]'s pending socket arrives: the task runs one turn
    of its loop and, after the last turn, returns into its slot.  A task
    that has returned has no socket left, and nothing is resumed. *)
Definition resume (net : Network) (pool : Pool) (k : nat) : Promise Pool :=
  let packetsSent := 5%nat in
  match tasks pool !! k with
  | Some t =>
      if (turn t <? packetsSent)%nat then
        awaiting st :=
          attempt net SERVER_IP (port (target t)) (samples t) (turn t) in
        let t' := {| target := target t; turn := S (turn t); samples := st |} in
        Resolved
          {| tasks := <[k := t']> (tasks pool);
             values :=
               if (S (turn t) =? packetsSent)%nat
               then <[k := Some {| portInfo := target t;
                                   result := summarise 5 st |}]> (values pool)
               else values pool |}
      else Resolved pool
  | None => Resolved pool
  end.

(** [Promise.all] under a schedule: [None] while some slot is still
    empty, the array of slots once all are filled. *)
Definition testAll_scheduled (net : Network) (targets : list TargetPort)
    (schedule : list nat) : option (Promise (list TestResult)) :=
  match for_each (resume net) schedule (launch targets) with
  | Rejected e => Some (Rejected e)
  | Resolved pool => Resolved <$> mapM id (values pool)
  end.

(** A schedule that runs every one of [n] tasks to its end: each index
    below [n] occurs once per turn of the loop, and no other index. *)
Definition complete_schedule (n : nat) (schedule : list nat) : Prop :=
  Forall (fun k => (k < n)%nat) schedule
  /\ forall k, (k < n)%nat -> count_occ Nat.eq_dec schedule k = 5%nat.

End RealProbe.

(** ** The route that simulates its measurements
    (src/app/api/test-connectivity/route.ts) *)

Module SimulatedProbe.
Import RateLimit.

Definition TEST_PORTS : list TargetPort := [
  {| port := 80; name := "HTTP"; description := "Web Server" |};
  {| port := 443; name := "HTTPS"; description := "Web Server Seguro" |};
  {| port := 3306; name := "MySQL"; description := "Banco de Dados MySQL" |};
  {| port := 1433; name := "MSSQL"; description := "SQL Server" |};
  {| port := 7172; name := "Game"; description := "Servidor de Jogos" |};
  {| port := 8282; name := "API"; description := "Servidor de API" |};
  {| port := 30120; name := "FiveM"; description := "Servidor FiveM" |};
  {| port := 25565; name := "Minecraft"; description := "Servidor Minecraft" |};
  {| port := 55901; name := "Custom"; description := "Porta Personalizada" |}
].

(** The values successive calls of [Math.random()] return; the state
    threaded through the route is the number of calls made so far. *)
Definition Random : Type := nat -> Q.

Definition Math_random (rand : Random) (calls : nat) : Q * nat :=
  (rand calls, S calls).


(** The local [isCommonPort]: [[80, 443].includes(port)]. *)
Definition isCommonPort (port : Z) : bool := existsb (Z.eqb port) [80; 443].

(** The local [successRate]: the conditional draws only for a port that
    is not a common one. *)
Definition drawSuccessRate (rand : Random) (common : bool) (calls : nat)
  : Q * nat :=
  if common then (0.95%Q, calls)
  else let '(r, calls) := Math_random rand calls in
       ((0.7 + r * 0.25)%Q, calls).

(** The first loop: two draws per simulated packet. *)
Definition drawLatencies (rand : Random) (packetsSent : nat) (calls : nat)
  : list Q * nat :=
  fold_left
    (fun '(latencies, calls) (_ : nat) =>
       let '(r, calls) := Math_random rand calls in
       let baseLatency := (10 + r * 40)%Q in
       let '(r, calls) := Math_random rand calls in
       let variation := (r * 15 - 7.5)%Q in
       (latencies ++ [Math_max 1 (baseLatency + variation)], calls))
    (seq 0 packetsSent)
    ([], calls).

(** The local [avgLatency]. *)
Definition avgLatency (latencies : list Q) : Q :=
  (reduce_sum latencies / length_num latencies)%Q.

(** The local [jitter]. *)
Definition jitterValue (latencies : list Q) : Q :=
  let jitterSum :=
    fold_left
      (fun jitterSum i =>
         (jitterSum
          + Math_abs (at_index latencies i - at_index latencies (i - 1)))%Q)
      (seq 1 (length latencies - 1))
      0%Q in
  if (1 <? length latencies)%nat
  then (jitterSum / (length_num latencies - 1))%Q
  else 0%Q.

(** The function awaits only timers and never rejects, so its promise is
    its value; the last draw is the delay of the closing timer. *)
Definition simulatePortTest (rand : Random) (port : Z) (calls : nat)
  : PortTestResult * nat :=
  let packetsSent := 5 in
  let '(successRate, calls) :=
    drawSuccessRate rand (isCommonPort port) calls in
  let '(latencies, calls) :=
    drawLatencies rand (Z.to_nat packetsSent) calls in
  let packetsReceived := Math_floor (inject_Z packetsSent * successRate) in
  let packetsLost := packetsSent - packetsReceived in
  let '(_, calls) := Math_random rand calls in
  ({| success := packetsReceived >? 0;
      latency := (Math_round (avgLatency latencies * 10) / 10)%Q;
      jitter := (Math_round (jitterValue latencies * 10) / 10)%Q;
      packetsSent := packetsSent;
      packetsReceived := packetsReceived;
      packetsLost := packetsLost |},
   calls).

(** [await Promise.all(targets.map(...))]: [map] calls the callback port
    by port, and each call makes all its draws before its first [await],
    so the draws are consumed in port order. *)
Fixpoint testAll (rand : Random) (targets : list TargetPort) (calls : nat)
  : list TestResult * nat :=
  match targets with
  | [] => ([], calls)
  | portInfo :: rest =>
      let '(result, calls) := simulatePortTest rand (port portInfo) calls in
      let '(others, calls) := testAll rand rest calls in
      ({| portInfo := portInfo; result := result |} :: others, calls)
  end.

Definition POST (rand : Random) (calls : nat) (ip : string) (now : Z)
    (rateLimitMap : gmap string Entry)
  : Response * gmap string Entry * nat :=
  let '(allowed, rateLimitMap) := checkRateLimit ip now rateLimitMap in
  if negb allowed then (TooManyRequests, rateLimitMap, calls)
  else
    let '(testResults, calls) := testAll rand TEST_PORTS calls in
    let avgJitter :=
      (fold_left (fun sum r => sum + jitter (result r)) testResults 0
       / length_num testResults)%Q in
    (Ok {| clientIp := ip;
           avgJitter := (Math_round (avgJitter * 10) / 10)%Q;
           results := testResults |},
     rateLimitMap, calls).

End SimulatedProbe.

(** ** The specification's vocabulary *)

Module Spec.
Import RealProbe.

Fixpoint sum (xs : list Q) : Q :=
  match xs with
  | [] => 0%Q
  | x :: rest => (x + sum rest)%Q
  end.

(** The arithmetic mean, 0 for no value. *)
Definition mean (xs : list Q) : Q :=
  match xs with
  | [] => 0%Q
  | _ => (sum xs / inject_Z (Z.of_nat (length xs)))%Q
  end.

(** [|x(i) - x(i-1)|] for the consecutive pairs of [xs], in order. *)
Fixpoint consecutive_differences (xs : list Q) : list Q :=
  match xs with
  | previous :: (current :: _) as rest =>
      Qabs (current - previous) :: consecutive_differences rest
  | _ => []
  end.

(** Jitter: the mean absolute difference of consecutive samples, 0 for
    fewer than two samples. *)
Definition mean_consecutive_difference (xs : list Q) : Q :=
  mean (consecutive_differences xs).

(** The latency sample an attempt contributes: one when it connected. *)
Definition sample (e : SocketEvent) : option Q :=
  match e with
  | connect duration => Some duration
  | _ => None
  end.

(** The latencies of the attempts that connected, in attempt order. *)
Definition successful_latencies (net : Network) (host : string) (port : Z)
  : list Q :=
  omap (fun i => sample (net host port i)) (seq 0 5).

(** Rounding to the nearest integer, a tie going away from zero: the
    magnitude is rounded half up and the sign put back. *)
Definition round_half_away_from_zero (x : Q) : Q :=
  inject_Z (Z.sgn (Qnum x) * Qfloor (Qabs x + (1 # 2))).

(** One decimal place: the rounding applied to the value scaled by 10. *)
Definition round_to_one_decimal (x : Q) : Q :=
  (round_half_away_from_zero (x * 10) / 10)%Q.

(** The [jitter] of the entries with [success = true]. *)
Definition successful_jitters (rs : list TestResult) : list Q :=
  map (fun r => jitter (result r))
      (List.filter (fun r => success (result r)) rs).

(** The latencies [simulatePortTest] draws for [port] when [calls] draws
    were made before it is called. *)
Definition simulated_latencies (rand : SimulatedProbe.Random) (port : Z)
    (calls : nat) : list Q :=
  fst (SimulatedProbe.drawLatencies rand 5
         (snd (SimulatedProbe.drawSuccessRate
                 rand (SimulatedProbe.isCommonPort port) calls))).

(** A host no port of which can be reached. *)
Definition unreachable (net : Network) : Prop :=
  forall host port n duration, net host port n <> connect duration.

(** What the sampling loop has collected when it ends: the successful
    latencies and their number. *)
Definition collected (net : Network) (host : string) (port : Z) : Samples :=
  {| latencies := successful_latencies net host port;
     successCount := Z.of_nat (length (successful_latencies net host port)) |}.

(** The entry of [target] in the answer. *)
Definition expected_result (net : Network) (target : TargetPort) : TestResult :=
  {| portInfo := target;
     result := summarise 5 (collected net SERVER_IP (port target)) |}.

(** The accumulators of the sampling loop after [j] turns. *)
Definition sampled (net : Network) (host : string) (port : Z) (j : nat)
  : Samples :=
  let xs := omap (fun i => sample (net host port i)) (seq 0 j) in
  {| latencies := xs; successCount := Z.of_nat (length xs) |}.

(** The pool in which the task of index [k] has run [turns k] turns of
    its loop. *)
Definition pool_after (net : Network) (targets : list TargetPort)
    (turns : nat -> nat) : Pool :=
  {| tasks :=
       imap (fun k t => {| target := t;
                           turn := turns k;
                           samples := sampled net SERVER_IP (port t) (turns k) |})
            targets;
     values :=
       imap (fun k t => if (turns k =? 5)%nat
                        then Some (expected_result net t)
                        else None)
            targets |}.

End Spec.

(** ** Concrete environments *)

Module Scenarios.
Import RealProbe.

(** The samples of the specification's scenario, on every port. *)
Definition steady : Network :=
  fun _ _ n =>
    nth n [connect 10; connect 12; connect 11; connect 13; connect 10] timeout.

(** Every connection times out. *)
Definition silent : Network := fun _ _ _ => timeout.

(** Two connections succeed on each port, half a millisecond apart on
    port 80 and one millisecond apart elsewhere; the rest time out. *)
Definition two_replies : Network :=
  fun _ port n =>
    match n with
    | 0%nat => connect 10
    | 1%nat => if port =? 80 then connect 10.5 else connect 11
    | _ => timeout
    end.

(** Three connections and two timeouts on each port. *)
Definition lossy : Network :=
  fun _ _ n =>
    nth n [connect 20; timeout; connect 23; timeout; connect 21] timeout.

(** A random source that always draws one half. *)
Definition halves : SimulatedProbe.Random := fun _ => 0.5%Q.

(** The tasks of four ports resumed in turn, the last port first. *)
Definition last_port_first : list nat :=
  concat (repeat [3; 2; 1; 0]%nat 5).

(** Twelve requests of one client, a second apart, after a first one at
    time 0. *)
Definition burst : list (string * Z) :=
  map (fun k => ("203.0.113.7"%string, 1000 * Z.of_nat k)) (seq 1 12).

End Scenarios.

(** ** The measurements in binary64

    A JavaScript number is a binary64 floating-point number, and every
    operation on numbers rounds to the nearest one, ties to even.  This
    module is the code of both routes and of the panel with the
    measurements as the primitive binary64 numbers.  The counters of the
    route that opens connections stay integral in the source and are [Z]
    as above; what the simulated route floors is a number and stays one.
    A decimal constant of the source stands for the binary64 number
    nearest to it, here as there. *)

Module Binary64.
Import PrimFloat SpecFloat FloatOps.
Local Open Scope float_scope.

(** An integral counter read as a number; exact below 2^53. *)
Definition number_of (n : Z) : float := of_uint63 (Uint63Axioms.of_Z n).

(** The number of value [n], an integer of magnitude 2^53 at most; the
    zero takes the sign of what was rounded. *)
Definition of_integer (negative : bool) (n : Z) : float :=
  match n with
  | Z0 => if negative then neg_zero else zero
  | Zpos _ => number_of n
  | Zneg _ => - number_of (- n)
  end.

(** [Math.round]: NaN, the zeros, the infinities and the numbers that are
    integers already are returned as they are; of [x = m * 2^e] with
    [e < 0] the result is the floor of [x + 1/2], taken on the exact value
    of [x] (a tie goes toward plus infinity). *)
Definition Math_round (x : float) : float :=
  match Prim2SF x with
  | S754_finite s m e =>
      if (0 <=? e)%Z then x
      else of_integer s
             ((cond_Zopp s (Zpos m) * 2 + 2 ^ (- e)) / 2 ^ (1 - e))%Z
  | _ => x
  end.

(** [Math.floor], likewise on the exact value. *)
Definition Math_floor (x : float) : float :=
  match Prim2SF x with
  | S754_finite s m e =>
      if (0 <=? e)%Z then x
      else of_integer s (cond_Zopp s (Zpos m) / 2 ^ (- e))%Z
  | _ => x
  end.

Definition Math_abs (x : float) : float := abs x.

(** [Math.max] of two numbers: NaN when one is NaN, and the positive zero
    is the greater of the two zeros. *)
Definition Math_max (x y : float) : float :=
  if is_nan x || is_nan y then nan
  else if x <? y then y
  else if y <? x then x
  else if get_sign x then y else x.

(** [xs.length] as a number. *)
Definition length_num {A} (xs : list A) : float :=
  number_of (Z.of_nat (length xs)).

(** [xs.reduce((a, b) => a + b, 0)]. *)
Definition reduce_sum (xs : list float) : float := fold_left add xs 0.

(** [xs[i]] for an index the loops keep in range. *)
Definition at_index (xs : list float) (i : nat) : float := nth i xs 0.

Record PortTestResult : Type := {
  success : bool;
  latency : float;
  jitter : float;
  packetsSent : float;
  packetsReceived : float;
  packetsLost : float
}.

Record TestResult : Type := {
  portInfo : TargetPort;
  result : PortTestResult
}.

Record ProbeReport : Type := {
  clientIp : string;
  avgJitter : float;
  results : list TestResult
}.

Inductive Response : Type :=
  | Ok (report : ProbeReport)
  | TooManyRequests
  | InternalError.

(** *** The route that opens real connections *)

Inductive SocketEvent : Type :=
  | connect (duration : float)
  | error (err : string)
  | timeout.

Definition Network : Type := string -> Z -> nat -> SocketEvent.

Definition measureTcpLatency (net : Network) (host : string) (port : Z)
    (n : nat) : Promise float :=
  match net host port n with
  | connect duration => Resolved duration
  | error err => Rejected (SocketError err)
  | timeout => Rejected TimeoutError
  end.

Record Samples : Type := {
  latencies : list float;
  successCount : Z
}.

Definition no_samples : Samples := {| latencies := []; successCount := 0 |}.

Definition attempt (net : Network) (host : string) (port : Z)
    (st : Samples) (i : nat) : Promise Samples :=
  try_catch
    (awaiting latency := measureTcpLatency net host port i in
     Resolved {| latencies := latencies st ++ [latency];
                 successCount := successCount st + 1 |})
    (fun _ => Resolved st).

Definition avgLatency (latencies : list float) : float :=
  if (0 <? length latencies)%nat
  then reduce_sum latencies / length_num latencies
  else 0.

Definition jitterStep (latencies : list float) (acc : float * Z) (i : nat)
  : float * Z :=
  let '(jitterSum, jitterCount) := acc in
  (jitterSum + Math_abs (at_index latencies i - at_index latencies (i - 1)),
   (jitterCount + 1)%Z).

Definition jitterLoop (latencies : list float) : float * Z :=
  if (1 <? length latencies)%nat
  then fold_left (jitterStep latencies) (seq 1 (length latencies - 1)) (0, 0%Z)
  else (0, 0%Z).

Definition jitterValue (latencies : list float) : float :=
  let '(jitterSum, jitterCount) := jitterLoop latencies in
  if (jitterCount >? 0)%Z then jitterSum / number_of jitterCount else 0.

Definition summarise (packetsSent : Z) (st : Samples) : PortTestResult :=
  let packetsReceived := successCount st in
  let packetsLost := (packetsSent - packetsReceived)%Z in
  let success := (packetsReceived >? 0)%Z in
  {| success := success;
     latency := Math_round (avgLatency (latencies st) * 10) / 10;
     jitter := Math_round (jitterValue (latencies st) * 10) / 10;
     packetsSent := number_of packetsSent;
     packetsReceived := number_of packetsReceived;
     packetsLost := number_of packetsLost |}.

Definition performRealPortTest (net : Network) (host : string) (port : Z)
  : Promise PortTestResult :=
  let packetsSent := 5%Z in
  awaiting st :=
    for_each (attempt net host port) (seq 0 (Z.to_nat packetsSent)) no_samples in
  Resolved (summarise packetsSent st).

Definition testPort (net : Network) (portInfo : TargetPort)
  : Promise TestResult :=
  awaiting result := performRealPortTest net RealProbe.SERVER_IP (port portInfo) in
  Resolved {| portInfo := portInfo; result := result |}.

Definition testAll (net : Network) (targets : list TargetPort)
  : Promise (list TestResult) :=
  Promise_all (map (testPort net) targets).

Definition POST (net : Network) (ip : string) (now : Z)
    (rateLimitMap : gmap string RateLimit.Entry)
  : Response * gmap string RateLimit.Entry :=
  let '(allowed, rateLimitMap) := RateLimit.checkRateLimit ip now rateLimitMap in
  if negb allowed then (TooManyRequests, rateLimitMap)
  else
    match testAll net RealProbe.TEST_PORTS with
    | Rejected _ => (InternalError, rateLimitMap)
    | Resolved testResults =>
        let validJitters :=
          map (fun r => jitter (result r))
              (List.filter (fun r => success (result r)) testResults) in
        let avgJitter :=
          if (0 <? length validJitters)%nat
          then reduce_sum validJitters / length_num validJitters
          else 0 in
        (Ok {| clientIp := ip;
               avgJitter := Math_round (avgJitter * 10) / 10;
               results := testResults |},
         rateLimitMap)
    end.

(** *** The route that simulates its measurements *)

Definition Random : Type := nat -> float.

Definition Math_random (rand : Random) (calls : nat) : float * nat :=
  (rand calls, S calls).

Definition drawSuccessRate (rand : Random) (common : bool) (calls : nat)
  : float * nat :=
  if common then (0.95, calls)
  else let '(r, calls) := Math_random rand calls in
       (0.7 + r * 0.25, calls).

Definition drawLatencies (rand : Random) (packetsSent : nat) (calls : nat)
  : list float * nat :=
  fold_left
    (fun '(latencies, calls) (_ : nat) =>
       let '(r, calls) := Math_random rand calls in
       let baseLatency := 10 + r * 40 in
       let '(r, calls) := Math_random rand calls in
       let variation := r * 15 - 7.5 in
       (latencies ++ [Math_max 1 (baseLatency + variation)], calls))
    (seq 0 packetsSent)
    ([], calls).

Definition simulated_avgLatency (latencies : list float) : float :=
  reduce_sum latencies / length_num latencies.

Definition simulated_jitterValue (latencies : list float) : float :=
  let jitterSum :=
    fold_left
      (fun jitterSum i =>
         jitterSum
         + Math_abs (at_index latencies i - at_index latencies (i - 1)))
      (seq 1 (length latencies - 1))
      0 in
  if (1 <? length latencies)%nat
  then jitterSum / (length_num latencies - 1)
  else 0.

Definition simulatePortTest (rand : Random) (port : Z) (calls : nat)
  : PortTestResult * nat :=
  let packetsSent := 5 in
  let '(successRate, calls) :=
    drawSuccessRate rand (SimulatedProbe.isCommonPort port) calls in
  let '(latencies, calls) := drawLatencies rand 5 calls in
  let packetsReceived := Math_floor (packetsSent * successRate) in
  let packetsLost := packetsSent - packetsReceived in
  let '(_, calls) := Math_random rand calls in
  ({| success := 0 <? packetsReceived;
      latency := Math_round (simulated_avgLatency latencies * 10) / 10;
      jitter := Math_round (simulated_jitterValue latencies * 10) / 10;
      packetsSent := packetsSent;
      packetsReceived := packetsReceived;
      packetsLost := packetsLost |},
   calls).



End Binary64.

(** The local [avgLatency] of the panel (src/unnamed/part_001), on the
    entries of an answer in binary64. *)
Module Page64.
Import PrimFloat Binary64.
Local Open Scope float_scope.

Definition totalTests (results : list TestResult) : float := length_num results.

Definition avgLatency (hasRun : bool) (results : list TestResult) : float :=
  if hasRun
  then Math_round
         (fold_left (fun sum r => sum + latency (result r)) results 0
          / totalTests results * 10) / 10
  else 0.

End Page64.

(** ** The specification's vocabulary, in binary64 *)

Module Spec64.
Import PrimFloat SpecFloat FloatOps Binary64.
Local Open Scope float_scope.

(** The sum of [xs], added up from the left. *)
Definition sum (xs : list float) : float := fold_left add xs 0.

(** The arithmetic mean, 0 for no value. *)
Definition mean (xs : list float) : float :=
  match xs with
  | [] => 0
  | _ => sum xs / number_of (Z.of_nat (length xs))
  end.

(** [|x(i) - x(i-1)|] for the consecutive pairs of [xs], in order. *)
Fixpoint consecutive_differences (xs : list float) : list float :=
  match xs with
  | previous :: (current :: _) as rest =>
      abs (current - previous) :: consecutive_differences rest
  | _ => []
  end.

Definition mean_consecutive_difference (xs : list float) : float :=
  mean (consecutive_differences xs).

(** The latency sample an attempt contributes: one when it connected. *)
Definition sample (e : SocketEvent) : option float :=
  match e with
  | connect duration => Some duration
  | _ => None
  end.

(** The latencies of the attempts that connected, in attempt order. *)
Definition successful_latencies (net : Network) (host : string) (port : Z)
  : list float :=
  omap (fun i => sample (net host port i)) (seq 0 5).

(** What the sampling loop has collected when it ends. *)
Definition collected (net : Network) (host : string) (port : Z) : Samples :=
  {| latencies := successful_latencies net host port;
     successCount := Z.of_nat (length (successful_latencies net host port)) |}.

(** The entry of [target] in the answer. *)
Definition expected_result (net : Network) (target : TargetPort) : TestResult :=
  {| portInfo := target;
     result := summarise 5 (collected net RealProbe.SERVER_IP (port target)) |}.

(** The jitters of the entries that succeeded, in order. *)
Definition successful_jitters (rs : list TestResult) : list float :=
  map (fun r => jitter (result r))
      (List.filter (fun r => success (result r)) rs).

(** The latencies the simulated test draws, in order. *)
Definition simulated_latencies (rand : Random) (port : Z) (calls : nat)
  : list float :=
  fst (drawLatencies rand 5
         (snd (drawSuccessRate rand (SimulatedProbe.isCommonPort port) calls))).

(** Rounding to the nearest integer, a tie going away from zero, on the
    exact value of [x]. *)
Definition round_half_away_from_zero (x : float) : float :=
  match Prim2SF x with
  | S754_finite s m e =>
      if (0 <=? e)%Z then x
      else of_integer s
             (cond_Zopp s ((Zpos m * 2 + 2 ^ (- e)) / 2 ^ (1 - e)))%Z
  | _ => x
  end.

(** Rounding to one decimal place as the routes do it: the value is scaled
    by 10, rounded half away from zero, and divided by 10, the product and
    the quotient being those of binary64. *)
Definition round_to_one_decimal (x : float) : float :=
  round_half_away_from_zero (x * 10) / 10.

(** A number that is not negative (NaN is not one). *)
Definition not_negative (x : float) : Prop := (0 <=? x) = true.

(** A number that is neither NaN nor an infinity. *)
Definition finite (x : float) : Prop := is_finite x = true.

(** The exact value of a finite number. *)
Definition exact (x : float) : Q :=
  match Prim2SF x with
  | S754_finite s m e => (inject_Z (cond_Zopp s (Zpos m)) * 2 ^ e)%Q
  | _ => 0%Q
  end.

(** Classes of numbers by sign, on their specification. *)
Definition SF_signed (s : bool) (x : spec_float) : Prop :=
  match x with
  | S754_zero s' | S754_finite s' _ _ | S754_infinity s' => s' = s
  | S754_nan => False
  end.

Definition SF_not_negative (x : spec_float) : Prop :=
  match x with
  | S754_zero _ | S754_finite false _ _ | S754_infinity false => True
  | _ => False
  end.

(** A number with a clear sign bit. *)
Definition SF_plus (x : spec_float) : Prop :=
  match x with
  | S754_zero false | S754_finite false _ _ | S754_infinity false => True
  | _ => False
  end.

Definition SF_finite (x : spec_float) : Prop :=
  match x with
  | S754_zero _ | S754_finite _ _ _ => True
  | _ => False
  end.

Definition plus (x : float) : Prop := SF_plus (Prim2SF x).

End Spec64.

Module Scenarios64.
Import PrimFloat Binary64.
Local Open Scope float_scope.

(** The samples of the specification's scenario, on every port. *)
Definition steady : Network :=
  fun _ _ n =>
    nth n [connect 10; connect 12; connect 11; connect 13; connect 10] timeout.

(** Connections that take 10 ms and 10.25 ms in turn. *)
Definition alternating : Network :=
  fun _ _ n => if Nat.even n then connect 10 else connect 10.25.

(** One connection of 0.15 ms (the binary64 number nearest to it, which is
    below it) and four timeouts. *)
Definition near_tie : Network :=
  fun _ _ n => match n with 0%nat => connect 0.15 | _ => timeout end.

(** Two connections succeed on each port, half a millisecond apart on
    port 80 and one millisecond apart elsewhere; the rest time out. *)
Definition two_replies : Network :=
  fun _ port n =>
    match n with
    | 0%nat => connect 10
    | 1%nat => if (port =? 80)%Z then connect 10.5 else connect 11
    | _ => timeout
    end.


(** A random source that always draws one half. *)
Definition halves : Random := fun _ => 0.5.

End Scenarios64.

(** ** Strings and regular expressions

    The strings the routes handle come from HTTP headers, whose values are
    byte strings: every code unit is below 256 and is one [ascii] here. *)

Module Text.
Import Strings.Ascii.

Definition code (c : ascii) : nat := nat_of_ascii c.

Definition in_range (lo hi c : ascii) : bool :=
  (code lo <=? code c)%nat && (code c <=? code hi)%nat.

(** [\d] *)
Definition is_digit (c : ascii) : bool := in_range "0" "9" c.

(** [[0-9a-fA-F]] *)
Definition is_hex (c : ascii) : bool :=
  is_digit c || in_range "a" "f" c || in_range "A" "F" c.

(** [[a-zA-Z]] *)
Definition is_letter (c : ascii) : bool :=
  in_range "a" "z" c || in_range "A" "Z" c.

(** White space as [trim] and [\s] see it, among the code units below 256:
    tab to carriage return, space and no-break space. *)
Definition is_space (c : ascii) : bool :=
  ((9 <=? code c)%nat && (code c <=? 13)%nat)
  || (code c =? 32)%nat || (code c =? 160)%nat.

(** Every character of [s] satisfies [p]. *)
Fixpoint all_chars (p : ascii -> bool) (s : string) : bool :=
  match s with
  | EmptyString => true
  | String c rest => p c && all_chars p rest
  end.

(** A string of one character with a code above 127. *)
Definition latin1 (n : nat) : string := String (ascii_of_nat n) EmptyString.

(** [s.split(sep)] for a separator of one character. *)
Fixpoint split (sep : ascii) (s : string) : list string :=
  match s with
  | EmptyString => [EmptyString]
  | String c rest =>
      if Strings.Ascii.eqb c sep then EmptyString :: split sep rest
      else match split sep rest with
           | part :: parts => String c part :: parts
           | [] => [String c EmptyString]
           end
  end.

(** [parts.join(sep)] *)
Fixpoint join (sep : ascii) (parts : list string) : string :=
  match parts with
  | [] => EmptyString
  | [part] => part
  | part :: rest => (part ++ String sep (join sep rest))%string
  end.

Fixpoint trimStart (s : string) : string :=
  match s with
  | String c rest => if is_space c then trimStart rest else s
  | EmptyString => EmptyString
  end.

Fixpoint trimEnd (s : string) : string :=
  match s with
  | EmptyString => EmptyString
  | String c rest =>
      match trimEnd rest with
      | EmptyString => if is_space c then EmptyString else String c EmptyString
      | kept => String c kept
      end
  end.

(** [s.trim()] *)
Definition trim (s : string) : string := trimEnd (trimStart s).

(** The longest prefix of [s] whose characters satisfy [p]. *)
Fixpoint take_while (p : ascii -> bool) (s : string) : string :=
  match s with
  | String c rest => if p c then String c (take_while p rest) else EmptyString
  | EmptyString => EmptyString
  end.

(** What follows [prefix] in [s], when [s] starts with it. *)
Fixpoint strip_prefix (prefix s : string) : option string :=
  match prefix, s with
  | EmptyString, _ => Some s
  | String a prefix', String b s' =>
      if Strings.Ascii.eqb a b then strip_prefix prefix' s' else None
  | String _ _, EmptyString => None
  end.

(** The value of the leading decimal digits of [s], after [acc]. *)
Fixpoint leading_digits (acc : Z) (s : string) : Z :=
  match s with
  | String c rest =>
      if is_digit c
      then leading_digits (10 * acc + Z.of_nat (code c - code "0")) rest
      else acc
  | EmptyString => acc
  end.

(** [parseInt(s, 10)]; [None] is [NaN]. *)
Definition parseInt (s : string) : option Z :=
  let s := trimStart s in
  let '(sign, s) :=
    match s with
    | String "-" rest => (-1, rest)
    | String "+" rest => (1, rest)
    | _ => (1, s)
    end in
  match s with
  | String c _ => if is_digit c then Some (sign * leading_digits 0 s) else None
  | EmptyString => None
  end.

End Text.

Module Regex.
Import Strings.Ascii.

(** Regular expressions without captures, as the routes write them. *)
Inductive t : Type :=
  | Fail
  | Eps
  | Chars (p : ascii -> bool)
  | Seq (r s : t)
  | Alt (r s : t)
  | Star (r : t).

(** The strings an expression matches from their first to their last
    character. *)
Inductive Matches : t -> string -> Prop :=
  | MEps : Matches Eps EmptyString
  | MChars p c : p c = true -> Matches (Chars p) (String c EmptyString)
  | MSeq r s x y : Matches r x -> Matches s y -> Matches (Seq r s) (x ++ y)
  | MAltL r s x : Matches r x -> Matches (Alt r s) x
  | MAltR r s x : Matches s x -> Matches (Alt r s) x
  | MStarNil r : Matches (Star r) EmptyString
  | MStarApp r x y :
      Matches r x -> Matches (Star r) y -> Matches (Star r) (x ++ y).

(** [c] *)
Definition Chr (c : ascii) : t := Chars (Strings.Ascii.eqb c).

(** [r{0,n}] *)
Fixpoint upto (n : nat) (r : t) : t :=
  match n with
  | O => Eps
  | S k => Alt Eps (Seq r (upto k r))
  end.

(** [r{m,n}], for [m <= n] *)
Fixpoint between (m n : nat) (r : t) : t :=
  match m with
  | O => upto n r
  | S k => Seq r (between k (Nat.pred n) r)
  end.

Fixpoint nullable (r : t) : bool :=
  match r with
  | Fail => false
  | Eps => true
  | Chars _ => false
  | Seq r s => nullable r && nullable s
  | Alt r s => nullable r || nullable s
  | Star _ => true
  end.

Definition seq (r s : t) : t :=
  match r, s with
  | Fail, _ => Fail
  | _, Fail => Fail
  | _, _ => Seq r s
  end.

Definition alt (r s : t) : t :=
  match r, s with
  | Fail, _ => s
  | _, Fail => r
  | _, _ => Alt r s
  end.

(** What is left of [r] to match after the character [c]. *)
Fixpoint deriv (c : ascii) (r : t) : t :=
  match r with
  | Fail => Fail
  | Eps => Fail
  | Chars p => if p c then Eps else Fail
  | Seq r s =>
      if nullable r
      then alt (seq (deriv c r) s) (deriv c s)
      else seq (deriv c r) s
  | Alt r s => alt (deriv c r) (deriv c s)
  | Star r => seq (deriv c r) (Star r)
  end.

(** [/^r$/.test(s)] *)
Fixpoint test (r : t) (s : string) : bool :=
  match s with
  | EmptyString => nullable r
  | String c rest => test (deriv c r) rest
  end.

(** [/r/.test(s)]: a match anywhere in [s]. *)
Definition search (r : t) (s : string) : bool :=
  test (Seq (Star (Chars (fun _ => true)))
            (Seq r (Star (Chars (fun _ => true))))) s.

End Regex.

(** ** The client address and the server mask (both routes) *)

Module Address.
Import Strings.Ascii Text.

(** [/^(\d{1,3}\.){3}\d{1,3}$/] *)
Definition ipv4Regex : Regex.t :=
  Regex.Seq
    (Regex.between 3 3
       (Regex.Seq (Regex.between 1 3 (Regex.Chars is_digit)) (Regex.Chr ".")))
    (Regex.between 1 3 (Regex.Chars is_digit)).

(** [/^([0-9a-fA-F]{0,4}:){2,7}[0-9a-fA-F]{0,4}$/] *)
Definition ipv6Regex : Regex.t :=
  Regex.Seq
    (Regex.between 2 7
       (Regex.Seq (Regex.between 0 4 (Regex.Chars is_hex)) (Regex.Chr ":")))
    (Regex.between 0 4 (Regex.Chars is_hex)).

Definition isValidIp (ip : string) : bool :=
  if String.eqb ip "" || String.eqb ip "unknown" || String.eqb ip "undefined"
  then false
  else if String.eqb ip "127.0.0.1" || String.eqb ip "::1"
          || String.eqb ip "localhost"
  then true
  else if Regex.test ipv4Regex ip
  then
    let octets := split "." ip in
    forallb
      (fun octet =>
         match parseInt octet with
         | Some num => (num >=? 0) && (num <=? 255)
         | None => false
         end)
      octets
  else Regex.test ipv6Regex ip.

(** [request.headers.get]: the value of a header, by its lower-case name. *)
Definition Headers : Type := string -> option string.

Definition ipHeaders : list string := [
  "cf-connecting-ip";
  "x-forwarded-for";
  "x-vercel-forwarded-for";
  "true-client-ip";
  "x-real-ip";
  "x-client-ip";
  "fastly-client-ip";
  "fly-client-ip";
  "x-cluster-client-ip";
  "x-forwarded";
  "forwarded";
  "proxy-client-ip";
  "wl-proxy-client-ip";
  "http-x-forwarded-for";
  "http-client-ip"
]%string.

(** The string returned when no address is found (its third character is
    a tilde-a, code 227). *)
Definition NOT_DETECTED : string := ("N" ++ latin1 227 ++ "o detectado")%string.

(** The first entry of a comma-separated value, trimmed. *)
Definition first_entry (value : string) : string :=
  trim (hd EmptyString (split "," value)).

(** The loop over the headers: the first one that holds a value whose
    first entry is a valid address returns it. *)
Fixpoint scan (headers : Headers) (names : list string) : option string :=
  match names with
  | [] => None
  | header :: rest =>
      match headers header with
      | Some value =>
          if String.eqb value "" then scan headers rest
          else
            let ip := first_entry value in
            if isValidIp ip then Some ip else scan headers rest
      | None => scan headers rest
      end
  end.

(** The class of the two quote characters, the double one (code 34) and the
    single one. *)
Definition is_quote (c : ascii) : bool :=
  Strings.Ascii.eqb c (ascii_of_nat 34) || Strings.Ascii.eqb c "'".

(** The class of the capture: any character but a quote, a comma, a
    semicolon and white space. *)
Definition is_token (c : ascii) : bool :=
  negb (is_quote c || Strings.Ascii.eqb c "," || Strings.Ascii.eqb c ";" || is_space c).

(** The expression matched against the [Forwarded] header is [for=], an
    optional quote, and a capture of one or more token characters.  This is
    its capture when the match starts at the first character of [s]: the
    quote is taken when there is one, and given back when no token
    character follows it. *)
Definition for_here (s : string) : option string :=
  match strip_prefix "for=" s with
  | None => None
  | Some rest =>
      let unquoted := take_while is_token rest in
      let quoted :=
        match rest with
        | String c after => if is_quote c then take_while is_token after
                            else EmptyString
        | EmptyString => EmptyString
        end in
      if negb (String.eqb quoted "") then Some quoted
      else if negb (String.eqb unquoted "") then Some unquoted
      else None
  end.

(** [forwarded.match(...)[1]]: the capture of the leftmost match. *)
Fixpoint match_for (s : string) : option string :=
  match for_here s with
  | Some capture => Some capture
  | None =>
      match s with
      | String _ rest => match_for rest
      | EmptyString => None
      end
  end.

(** The first [replace]: an opening bracket at the start is removed. *)
Definition drop_open_bracket (s : string) : string :=
  match s with
  | String "[" rest => rest
  | _ => s
  end.

(** The second [replace]: a closing bracket at the end is removed. *)
Fixpoint drop_close_bracket (s : string) : string :=
  match s with
  | EmptyString => EmptyString
  | String c EmptyString => if Strings.Ascii.eqb c "]" then EmptyString else s
  | String c rest => String c (drop_close_bracket rest)
  end.

Definition getClientIp (headers : Headers) : string :=
  match scan headers ipHeaders with
  | Some ip => ip
  | None =>
      match headers "forwarded"%string with
      | Some forwarded =>
          match match_for forwarded with
          | Some capture =>
              let ip := drop_close_bracket (drop_open_bracket capture) in
              if isValidIp ip then ip else NOT_DETECTED
          | None => NOT_DETECTED
          end
      | None => NOT_DETECTED
      end
  end.

(** [maskServerIp] of the route that opens real connections. *)
Definition maskServerIp (ip : string) : string :=
  if Regex.search (Regex.Chars is_letter) ip then ip
  else
    let parts := split "." ip in
    if (length parts =? 4)%nat
    then ("*.*." ++ nth 2 parts EmptyString ++ ".*")%string
    else "Servidor NeonHost"%string.

(** [maskServerIp] of the simulated route. *)
Definition maskServerIp_simulated : string := "*.*.81.*".

End Address.

(** ** What a valid address looks like *)

Module AddressSpec.
Import Strings.Ascii Text.

(** [x] does not hold the character [sep]. *)
Definition free_of (sep : ascii) (x : string) : Prop :=
  all_chars (fun c => negb (Strings.Ascii.eqb c sep)) x = true.

(** The expression [(p{lo,hi} sep){m,n} p{lo,hi}], of which the two
    expressions of [isValidIp] are instances. *)
Definition grouped (p : ascii -> bool) (sep : ascii) (lo hi m n : nat)
  : Regex.t :=
  Regex.Seq
    (Regex.between m n
       (Regex.Seq (Regex.between lo hi (Regex.Chars p)) (Regex.Chr sep)))
    (Regex.between lo hi (Regex.Chars p)).

(** A group of [lo] to [hi] characters of the class [p]. *)
Definition group_ok (p : ascii -> bool) (lo hi : nat) (g : string) : bool :=
  (lo <=? String.length g)%nat && (String.length g <=? hi)%nat && all_chars p g.

(** [s] is [m] to [n] such groups separated by [sep]. *)
Definition groups_ok (p : ascii -> bool) (lo hi m n : nat) (sep : ascii)
    (s : string) : bool :=
  let groups := split sep s in
  (m <=? length groups)%nat && (length groups <=? n)%nat
  && forallb (group_ok p lo hi) groups.

(** Four groups of one to three decimal digits separated by dots, each of
    value 255 at most. *)
Definition dotted_quad (ip : string) : bool :=
  groups_ok is_digit 1 3 4 4 "." ip
  && forallb (fun octet => leading_digits 0 octet <=? 255) (split "." ip).

(** Three to eight groups of at most four hexadecimal digits separated by
    colons. *)
Definition colon_groups (ip : string) : bool :=
  groups_ok is_hex 0 4 3 8 ":" ip.

(** The three names accepted as they are. *)
Definition loopback (ip : string) : bool :=
  String.eqb ip "127.0.0.1" || String.eqb ip "::1" || String.eqb ip "localhost".

(** A number in decimal digits. *)
Definition decimal (n : nat) : string := NilEmpty.string_of_uint (Nat.to_uint n).

(** The characters a valid address is made of. *)
Definition address_char (c : ascii) : bool :=
  is_hex c || is_letter c || Strings.Ascii.eqb c "." || Strings.Ascii.eqb c ":".

(** No header of the list is present. *)
Definition no_address_header (headers : Address.Headers) : Prop :=
  forall header, In header Address.ipHeaders -> headers header = None.

(** What the loop over the headers makes of one header: the address it
    returns, if any. *)
Definition candidate (headers : Address.Headers) (header : string)
  : option string :=
  match headers header with
  | Some value =>
      if String.eqb value "" then None
      else if Address.isValidIp (Address.first_entry value)
           then Some (Address.first_entry value)
           else None
  | None => None
  end.

End AddressSpec.

(** ** Concrete requests *)

Module HeaderScenarios.

(** A request that came through a proxy: the client first, then the
    proxy, with the spaces proxies put around the entries. *)
Definition proxied : Address.Headers :=
  fun header =>
    if String.eqb header "x-forwarded-for"
    then Some " 203.0.113.9 , 10.0.0.1"%string
    else if String.eqb header "x-real-ip" then Some "10.0.0.1"%string
    else None.

(** A request with both a Cloudflare header and a forwarding list. *)
Definition behind_cloudflare : Address.Headers :=
  fun header =>
    if String.eqb header "cf-connecting-ip" then Some "198.51.100.7"%string
    else if String.eqb header "x-forwarded-for"
    then Some "203.0.113.9, 10.0.0.1"%string
    else None.

(** A request with no header at all. *)
Definition bare : Address.Headers := fun _ => None.

(** A request with the standard header only, its address quoted and in
    brackets. *)
Definition forwarded_only : Address.Headers :=
  fun header =>
    if String.eqb header "forwarded"
    then Some "for='[2001:db8::1]';proto=https"%string
    else None.

End HeaderScenarios.

(** ** The page: the test panel (src/unnamed/part_001) and the card of a
    port (src/components/port-result-card.tsx)

    The entries the page receives are the [TestResult]s of the answer.  The
    quotients below divide by the number of entries or of packets sent; the
    model follows the source where that number is positive. *)

Module Page.
Import Text.

(** [x < y] on numbers. *)
Definition less (x y : Q) : bool := negb (Qle_bool y x).

(** [x >= y] on numbers. *)
Definition at_least (x y : Q) : bool := Qle_bool y x.

Record Badge : Type := {
  label : string;
  color : string
}.

(** [getJitterStatus] of the panel; the label of the last class is
    [Instavel] with an acute a, code 225. *)
Definition getJitterStatus (jitter : Q) : Badge :=
  if less jitter 5 then {| label := "Excelente"; color := "text-success" |}
  else if less jitter 15 then {| label := "Bom"; color := "text-primary" |}
  else if less jitter 30 then {| label := "Regular"; color := "text-yellow-500" |}
  else {| label := ("Inst" ++ latin1 225 ++ "vel")%string;
          color := "text-destructive" |}.

(** [getJitterQuality] of the card. *)
Definition getJitterQuality (jitter : Q) : Badge :=
  if less jitter 5 then {| label := "Excelente"; color := "text-success" |}
  else if less jitter 15 then {| label := "Bom"; color := "text-primary" |}
  else if less jitter 30 then {| label := "Regular"; color := "text-yellow-500" |}
  else {| label := "Ruim"; color := "text-destructive" |}.

(** The local [successRate] of the card. *)
Definition successRate (r : PortTestResult) : Q :=
  if packetsSent r >? 0
  then Math_round
         (inject_Z (packetsReceived r) / inject_Z (packetsSent r) * 100)%Q
  else 0%Q.

(** The classes of the rate shown on the card. *)
Definition rateClass (r : PortTestResult) : string :=
  if at_least (successRate r) 80 then "bg-success/20 text-success"
  else if at_least (successRate r) 50 then "bg-yellow-500/20 text-yellow-500"
  else "bg-destructive/20 text-destructive".

(** The locals of the panel, computed from the state [results] and
    [hasRun]. *)
Definition successCount (results : list TestResult) : nat :=
  length (List.filter (fun r => success (result r)) results).

Definition totalTests (results : list TestResult) : nat := length results.

Definition overallSuccess (hasRun : bool) (results : list TestResult) : Q :=
  if hasRun
  then Math_round
         (inject_Z (Z.of_nat (successCount results))
          / inject_Z (Z.of_nat (totalTests results)) * 100)%Q
  else 0%Q.

(** The string the panel shows when no service gave an address (its
    accented letters are a tilde-a, code 227, and an acute i, code 237). *)
Definition NO_ADDRESS : string :=
  ("N" ++ latin1 227 ++ "o foi poss" ++ latin1 237 ++ "vel detectar")%string.

(** The test the panel makes of an address a service gave. *)
Definition usable (ip : string) : bool :=
  negb (String.eqb ip "")
  && negb (String.eqb ip Address.NOT_DETECTED)
  && (0 <? String.length ip)%nat.

(** [fetchClientIp]: the services are asked in order; [answers] holds, for
    each, the address extracted from its answer, or [None] when the request
    failed, was not answered 200, or the extraction threw or gave no
    string.  The result is the address the panel shows. *)
Fixpoint fetchClientIp (answers : list (option string)) : string :=
  match answers with
  | [] => NO_ADDRESS
  | Some ip :: rest => if usable ip then ip else fetchClientIp rest
  | None :: rest => fetchClientIp rest
  end.

End Page.

(** ** Requests served in sequence *)

Module Sessions.
Import RateLimit.

(** The [POST] requests [(ip, now)] of the real route, served one after the
    other on the network [net]; the answers are in request order. *)
Fixpoint serve_POST (net : RealProbe.Network) (requests : list (string * Z))
    (m : gmap string Entry) : list Response * gmap string Entry :=
  match requests with
  | [] => ([], m)
  | (ip, now) :: rest =>
      let '(response, m1) := RealProbe.POST net ip now m in
      let '(responses, m2) := serve_POST net rest m1 in
      (response :: responses, m2)
  end.

(** The answer has status 200. *)
Definition answered_200 (response : Response) : bool :=
  match response with
  | Ok _ => true
  | _ => false
  end.

(** The requests of [ip] among [requests]. *)
Definition requests_of (ip : string) (requests : list (string * Z))
  : list (string * Z) :=
  List.filter (fun request => String.eqb (fst request) ip) requests.

End Sessions.

(** * Properties *)

(** ** Arithmetic of the [Math] functions *)

Section MathFacts.
Local Open Scope Q_scope.

#[global] Instance Math_round_proper : Proper (Qeq ==> Qeq) Math_round.
Proof.
  intros x y Hxy. unfold Math_round.
  assert (H : x + (1 # 2) == y + (1 # 2)) by (rewrite Hxy; reflexivity).
  rewrite (Qfloor_comp _ _ H). reflexivity.
Qed.



(** The two roundings part on a tie below zero, and only there among
    these values. *)
Example roundings_compared :
  Spec.round_half_away_from_zero 2.5 == 3
  /\ Spec.round_half_away_from_zero 2.4 == 2
  /\ Spec.round_half_away_from_zero (-2.4) == -2
  /\ Spec.round_half_away_from_zero (-2.5) == -3
  /\ Math_round 2.5 == 3
  /\ Math_round (-2.4) == -2
  /\ Math_round (-2.5) == -2.
Proof. repeat split. Qed.

Lemma reduce_sum_from (xs : list Q) (a : Q) :
  fold_left Qplus xs a == a + Spec.sum xs.
Proof.
  revert a. induction xs as [|x xs IH]; intros a; simpl.
  - lra.
  - rewrite IH. lra.
Qed.

Lemma reduce_sum_spec (xs : list Q) : reduce_sum xs == Spec.sum xs.
Proof. unfold reduce_sum. rewrite reduce_sum_from. lra. Qed.

Lemma consecutive_differences_cons (x y : Q) (rest : list Q) :
  Spec.consecutive_differences (x :: y :: rest)
  = Qabs (y - x) :: Spec.consecutive_differences (y :: rest).
Proof. reflexivity. Qed.

Lemma length_consecutive_differences (xs : list Q) :
  length (Spec.consecutive_differences xs) = (length xs - 1)%nat.
Proof.
  induction xs as [|x [|y rest] IH]; try reflexivity.
  rewrite consecutive_differences_cons. cbn [length] in *. rewrite IH. lia.
Qed.

End MathFacts.

(** ** The sampling loop and the jitter loop *)

Section Sampler.
Import RealProbe.
Variable net : Network.
Variable host : string.
Variable port : Z.

Lemma attempt_resolves (st : Samples) (i : nat) :
  attempt net host port st i
  = Resolved
      match Spec.sample (net host port i) with
      | Some d => {| latencies := latencies st ++ [d];
                     successCount := successCount st + 1 |}
      | None => st
      end.
Proof.
  unfold attempt, measureTcpLatency.
  destruct (net host port i); reflexivity.
Qed.

(** The loop over the attempts [a, a+1, ..., a+n-1] appends the samples of
    those that connected and counts them. *)
Lemma sampling_loop (n a : nat) (st : Samples) :
  let new := omap (fun i => Spec.sample (net host port i)) (seq a n) in
  for_each (attempt net host port) (seq a n) st
  = Resolved {| latencies := latencies st ++ new;
                successCount := successCount st + Z.of_nat (length new) |}.
Proof.
  revert a st. induction n as [|n IH]; intros a st; cbn zeta.
  - destruct st as [l c]. cbn. rewrite app_nil_r, Z.add_0_r. reflexivity.
  - cbn [seq for_each omap list_omap]. rewrite attempt_resolves. cbn [await].
    rewrite IH. cbn zeta.
    destruct (Spec.sample (net host port a)) as [d|]; [|reflexivity].
    cbn [latencies successCount length]. f_equal. f_equal.
    + rewrite <- app_assoc. reflexivity.
    + lia.
Qed.

Lemma performRealPortTest_returns :
  performRealPortTest net host port
  = Resolved (summarise 5 (Spec.collected net host port)).
Proof.
  unfold performRealPortTest.
  change (Z.to_nat 5) with 5%nat.
  rewrite (sampling_loop 5 0 no_samples). reflexivity.
Qed.

End Sampler.

Section Jitter.
Import RealProbe.
Local Open Scope Q_scope.

(** The index loop from position [length prefix + 1] on adds up the
    consecutive differences of the rest of the array. *)
Lemma jitter_fold (rest prefix : list Q) (x : Q) (s : Q) (c : Z) :
  let r := fold_left (jitterStep (prefix ++ x :: rest))
                     (seq (S (length prefix)) (length rest)) (s, c) in
  fst r == s + Spec.sum (Spec.consecutive_differences (x :: rest))
  /\ snd r = (c + Z.of_nat (length rest))%Z.
Proof.
  revert prefix x s c.
  induction rest as [|y rest IH]; intros prefix x s c; cbn zeta.
  - cbn. split; [lra | lia].
  - cbn [length seq fold_left].
    assert (Hy : at_index (prefix ++ x :: y :: rest) (S (length prefix)) = y).
    { unfold at_index. rewrite app_nth2 by lia.
      replace (S (length prefix) - length prefix)%nat with 1%nat by lia.
      reflexivity. }
    assert (Hx : at_index (prefix ++ x :: y :: rest) (S (length prefix) - 1) = x).
    { unfold at_index. rewrite app_nth2 by lia.
      replace (S (length prefix) - 1 - length prefix)%nat with 0%nat by lia.
      reflexivity. }
    assert (Hstep : jitterStep (prefix ++ x :: y :: rest) (s, c) (S (length prefix))
                    = (s + Math_abs (y - x), (c + 1)%Z)).
    { unfold jitterStep. rewrite Hy, Hx. reflexivity. }
    rewrite Hstep.
    specialize (IH (prefix ++ [x]) y (s + Math_abs (y - x)) (c + 1)%Z).
    cbn zeta in IH. rewrite <- app_assoc in IH. cbn [app] in IH.
    rewrite length_app in IH. cbn [length] in IH.
    replace (S (length prefix + 1)) with (S (S (length prefix))) in IH by lia.
    destruct IH as [IH1 IH2]. split.
    + rewrite IH1, consecutive_differences_cons. cbn [Spec.sum].
      unfold Math_abs. lra.
    + rewrite IH2. lia.
Qed.

Lemma jitterLoop_spec (x y : Q) (rest : list Q) :
  fst (jitterLoop (x :: y :: rest))
  == Spec.sum (Spec.consecutive_differences (x :: y :: rest))
  /\ snd (jitterLoop (x :: y :: rest)) = Z.of_nat (S (length rest)).
Proof.
  unfold jitterLoop. cbn [length Nat.ltb Nat.leb Nat.sub].
  destruct (jitter_fold (y :: rest) [] x 0 0%Z) as [H1 H2].
  cbn [app length] in H1, H2. split.
  - rewrite H1. lra.
  - rewrite H2. lia.
Qed.

(** The jitter the code computes is the mean absolute difference of
    consecutive samples. *)
Lemma jitterValue_spec (xs : list Q) :
  jitterValue xs == Spec.mean_consecutive_difference xs.
Proof.
  destruct xs as [|x [|y rest]]; try reflexivity.
  unfold jitterValue, Spec.mean_consecutive_difference.
  destruct (jitterLoop_spec x y rest) as [H1 H2].
  destruct (jitterLoop (x :: y :: rest)) as [s c]. cbn [fst snd] in H1, H2.
  subst c.
  assert (Hc : (Z.of_nat (S (length rest)) >? 0)%Z = true)
    by (rewrite Z.gtb_ltb; apply Z.ltb_lt; lia).
  rewrite Hc.
  rewrite H1, consecutive_differences_cons. unfold Spec.mean.
  rewrite <- consecutive_differences_cons.
  rewrite length_consecutive_differences. cbn [length Nat.sub].
  reflexivity.
Qed.

End Jitter.

(** ** The simulated measurements *)

Section Simulated.
Import SimulatedProbe.
Local Open Scope Q_scope.
Variable rand : Random.

(** The result of [simulatePortTest] in terms of its success rate and of
    the latencies it draws. *)
Lemma simulatePortTest_result (port : Z) (calls : nat) :
  fst (simulatePortTest rand port calls)
  = let successRate := fst (drawSuccessRate rand (isCommonPort port) calls) in
    let latencies := Spec.simulated_latencies rand port calls in
    let packetsReceived := Math_floor (inject_Z 5 * successRate) in
    {| success := (packetsReceived >? 0)%Z;
       latency := Math_round (avgLatency latencies * 10) / 10;
       jitter := Math_round (jitterValue latencies * 10) / 10;
       packetsSent := 5;
       packetsReceived := packetsReceived;
       packetsLost := (5 - packetsReceived)%Z |}.
Proof.
  unfold simulatePortTest, Spec.simulated_latencies.
  destruct (drawSuccessRate _ _ _) as [successRate calls1]. cbn [fst snd].
  change (Z.to_nat 5) with 5%nat.
  destruct (drawLatencies _ _ _) as [latencies calls2]. reflexivity.
Qed.






End Simulated.

(** ** The port test *)

Section PortTest.
Import RealProbe.
Local Open Scope Q_scope.

Lemma avgLatency_spec (xs : list Q) : avgLatency xs == Spec.mean xs.
Proof.
  destruct xs as [|x xs]; [reflexivity|].
  unfold avgLatency, Spec.mean, length_num. cbn [length Nat.ltb Nat.leb].
  rewrite reduce_sum_spec. reflexivity.
Qed.

(** C3: every result of a port test, real or simulated, accounts for each
    packet sent as received or lost, and five packets are sent. *)
Theorem packets_sent_received_lost :
  (forall (net : Network) (host : string) (port : Z),
      exists r,
        performRealPortTest net host port = Resolved r
        /\ packetsSent r = (packetsReceived r + packetsLost r)%Z
        /\ packetsSent r = 5%Z)
  /\ (forall (rand : SimulatedProbe.Random) (port : Z) (calls : nat),
        let r := fst (SimulatedProbe.simulatePortTest rand port calls) in
        packetsSent r = (packetsReceived r + packetsLost r)%Z
        /\ packetsSent r = 5%Z).
Proof.
  split.
  - intros net host port. eexists.
    split; [apply performRealPortTest_returns|].
    cbn [packetsSent packetsReceived packetsLost summarise]. split; [lia | reflexivity].
  - intros rand port calls. rewrite simulatePortTest_result.
    cbn [packetsSent packetsReceived packetsLost]. split; [lia | reflexivity].
Qed.

(** C4: a port test succeeds exactly when it received a packet, and a
    test that received none reports latency 0 and jitter 0. *)
Theorem success_iff_received (net : Network) (host : string) (port : Z) :
  exists r,
    performRealPortTest net host port = Resolved r
    /\ (success r = true <-> (packetsReceived r > 0)%Z)
    /\ (packetsReceived r = 0%Z -> latency r == 0 /\ jitter r == 0).
Proof.
  eexists. split; [apply performRealPortTest_returns|].
  cbn [success packetsReceived latency jitter summarise Spec.collected
       latencies successCount].
  split.
  - rewrite Z.gtb_ltb, Z.ltb_lt. lia.
  - intros Hnone.
    destruct (Spec.successful_latencies net host port) as [|x xs];
      [split; reflexivity | cbn [length] in Hnone; lia].
Qed.

(** Three successes and two timeouts: the samples 20, 23, 21 give latency
    21.3 and jitter (3 + 2) / 2 = 2.5. *)
Example three_of_five :
  exists r,
    performRealPortTest Scenarios.lossy SERVER_IP 3306 = Resolved r
    /\ success r = true
    /\ packetsReceived r = 3%Z /\ packetsLost r = 2%Z
    /\ latency r == 21.3 /\ jitter r == 2.5.
Proof.
  eexists. split; [apply performRealPortTest_returns|]. repeat split.
Qed.

(** A port none of whose attempts connects: the case of C4 occurs. *)
Lemma success_iff_received_silent :
  exists r,
    performRealPortTest Scenarios.silent SERVER_IP 80 = Resolved r
    /\ packetsReceived r = 0%Z
    /\ (success r = true <-> (packetsReceived r > 0)%Z)
    /\ (packetsReceived r = 0%Z -> latency r == 0 /\ jitter r == 0).
Proof.
  destruct (success_iff_received Scenarios.silent SERVER_IP 80)
    as (r & Hr & Hiff & Hzero).
  exists r. split; [exact Hr|]. split; [|split; assumption].
  rewrite performRealPortTest_returns in Hr. injection Hr as <-. reflexivity.
Defined.

End PortTest.

(** ** The scenario of the specification and the rounding *)

Section Results.
Import RealProbe.
Local Open Scope Q_scope.

(** C7: when the five attempts on a port connect after 10, 12, 11, 13 and
    10 ms, the port test returns latency 11.2 and jitter 2.0, the mean of
    |12-10|, |11-12|, |13-11| and |10-13|. *)
Theorem scenario_latency_and_jitter
    (net : Network) (host : string) (port : Z) :
  map (net host port) (seq 0 5)
  = [connect 10; connect 12; connect 11; connect 13; connect 10] ->
  exists r,
    performRealPortTest net host port = Resolved r
    /\ packetsReceived r = 5%Z
    /\ latency r == 11.2
    /\ jitter r == 2.0
    /\ jitter r
       == Spec.mean [Qabs (12 - 10); Qabs (11 - 12); Qabs (13 - 11); Qabs (10 - 13)].
Proof.
  intros Hnet. cbn [seq map] in Hnet.
  injection Hnet as H0 H1 H2 H3 H4.
  eexists. split; [apply performRealPortTest_returns|].
  unfold Spec.collected, Spec.successful_latencies.
  cbn [seq omap list_omap]. rewrite H0, H1, H2, H3, H4.
  repeat split; reflexivity.
Qed.

Lemma scenario_latency_and_jitter_steady :
  exists r,
    performRealPortTest Scenarios.steady SERVER_IP 80 = Resolved r
    /\ packetsReceived r = 5%Z
    /\ latency r == 11.2
    /\ jitter r == 2.0
    /\ jitter r
       == Spec.mean [Qabs (12 - 10); Qabs (11 - 12); Qabs (13 - 11); Qabs (10 - 13)].
Proof.
  apply (scenario_latency_and_jitter Scenarios.steady SERVER_IP 80).
  reflexivity.
Defined.



End Results.

(** ** The port tests run concurrently *)

Section Concurrency.
Import RealProbe.
Variable net : Network.

Lemma sampled_step (host : string) (port : Z) (j : nat) :
  attempt net host port (Spec.sampled net host port j) j
  = Resolved (Spec.sampled net host port (S j)).
Proof.
  rewrite attempt_resolves. unfold Spec.sampled. cbn zeta.
  rewrite seq_S, omap_app. cbn [Nat.add omap list_omap latencies successCount].
  destruct (Spec.sample (net host port j)) as [d|].
  - f_equal. f_equal. rewrite length_app. cbn [length]. lia.
  - rewrite app_nil_r. reflexivity.
Qed.

Lemma testPort_returns (target : TargetPort) :
  testPort net target = Resolved (Spec.expected_result net target).
Proof.
  unfold testPort. rewrite performRealPortTest_returns. reflexivity.
Qed.

(** Read in array order, the tasks return the entries of their targets. *)
Lemma testAll_returns (targets : list TargetPort) :
  testAll net targets = Resolved (map (Spec.expected_result net) targets).
Proof.
  unfold testAll. induction targets as [|t targets IH]; [reflexivity|].
  cbn [map Promise_all]. rewrite testPort_returns. cbn [await].
  change (List.map (testPort net) targets) with (map (testPort net) targets).
  rewrite IH. reflexivity.
Qed.

Variable targets : list TargetPort.

Lemma launch_pool : launch targets = Spec.pool_after net targets (fun _ => 0%nat).
Proof.
  unfold launch, Spec.pool_after. f_equal; symmetry.
  - exact (imap_const
             (fun t => {| target := t; turn := 0; samples := no_samples |})
             targets).
  - exact (imap_const (fun _ : TargetPort => @None TestResult) targets).
Qed.

Lemma pool_after_ext (turns1 turns2 : nat -> nat) :
  (forall k, (k < length targets)%nat -> turns1 k = turns2 k) ->
  Spec.pool_after net targets turns1 = Spec.pool_after net targets turns2.
Proof.
  intros H. unfold Spec.pool_after.
  f_equal; apply imap_ext; intros k t Hk;
    apply lookup_lt_Some in Hk; rewrite (H k Hk); reflexivity.
Qed.

(** Resuming a task that has turns left advances that task alone and,
    on its last turn, fills its own slot. *)
Lemma resume_step (turns : nat -> nat) (k : nat) :
  (k < length targets)%nat -> (turns k < 5)%nat ->
  resume net (Spec.pool_after net targets turns) k
  = Resolved
      (Spec.pool_after net targets
         (fun j => if (j =? k)%nat then S (turns k) else turns j)).
Proof.
  intros Hk Hturn.
  destruct (lookup_lt_is_Some_2 targets k Hk) as [t Ht].
  unfold resume. cbn [tasks Spec.pool_after].
  rewrite list_lookup_imap, Ht. cbn [fmap option_fmap option_map turn target samples].
  apply Nat.ltb_lt in Hturn as Hturnb. rewrite Hturnb.
  rewrite sampled_step. cbn [await]. f_equal.
  unfold Spec.pool_after. cbn [values]. f_equal.
  - apply list_eq. intros j. rewrite list_lookup_imap.
    destruct (decide (k = j)) as [<-|Hne].
    + rewrite list_lookup_insert_eq by (rewrite length_imap; exact Hk).
      rewrite Ht, Nat.eqb_refl. reflexivity.
    + rewrite list_lookup_insert_ne by exact Hne.
      rewrite list_lookup_imap.
      destruct (Nat.eqb_spec j k) as [->|_]; [contradiction Hne; reflexivity|].
      reflexivity.
  - apply list_eq. intros j. rewrite list_lookup_imap.
    destruct (Nat.eqb_spec (S (turns k)) 5) as [Hlast|Hmore].
    + destruct (decide (k = j)) as [<-|Hne].
      * rewrite list_lookup_insert_eq by (rewrite length_imap; exact Hk).
        rewrite Ht, Nat.eqb_refl, Hlast. reflexivity.
      * rewrite list_lookup_insert_ne by exact Hne.
        rewrite list_lookup_imap.
        destruct (Nat.eqb_spec j k) as [->|_]; [contradiction Hne; reflexivity|].
        reflexivity.
    + rewrite list_lookup_imap.
      destruct (Nat.eqb_spec j k) as [->|_]; [|reflexivity].
      rewrite Ht. cbn [fmap option_fmap option_map].
      destruct (Nat.eqb_spec (turns k) 5) as [Heq|_]; [lia|].
      destruct (Nat.eqb_spec (S (turns k)) 5) as [Heq|_]; [lia|].
      reflexivity.
Qed.

(** A schedule that never resumes a task past its last turn leaves each
    task as many turns on as the schedule names it. *)
Lemma run_schedule (schedule : list nat) (turns : nat -> nat) :
  Forall (fun k => (k < length targets)%nat) schedule ->
  (forall k, (k < length targets)%nat ->
             (turns k + count_occ Nat.eq_dec schedule k <= 5)%nat) ->
  for_each (resume net) schedule (Spec.pool_after net targets turns)
  = Resolved
      (Spec.pool_after net targets
         (fun k => (turns k + count_occ Nat.eq_dec schedule k)%nat)).
Proof.
  revert turns. induction schedule as [|k schedule IH]; intros turns Hin Hle.
  - cbn [for_each]. f_equal. apply pool_after_ext. intros k _.
    cbn [count_occ]. lia.
  - apply Forall_cons_1 in Hin as [Hk Hin].
    assert (Hturn : (turns k < 5)%nat).
    { specialize (Hle k Hk). rewrite count_occ_cons_eq in Hle by reflexivity. lia. }
    cbn [for_each]. rewrite (resume_step turns k Hk Hturn). cbn [await].
    rewrite IH; [| exact Hin |].
    + f_equal. apply pool_after_ext. intros j _.
      destruct (Nat.eqb_spec j k) as [->|Hne].
      * rewrite count_occ_cons_eq by reflexivity. lia.
      * rewrite count_occ_cons_neq by (intros E; apply Hne; symmetry; exact E).
        reflexivity.
    + intros j Hj. specialize (Hle j Hj).
      destruct (Nat.eqb_spec j k) as [->|Hne].
      * rewrite count_occ_cons_eq in Hle by reflexivity. lia.
      * rewrite count_occ_cons_neq in Hle
          by (intros E; apply Hne; symmetry; exact E).
        exact Hle.
Qed.

Lemma testAll_scheduled_returns (schedule : list nat) :
  complete_schedule (length targets) schedule ->
  testAll_scheduled net targets schedule
  = Some (Resolved (map (Spec.expected_result net) targets)).
Proof.
  intros [Hin Hcount]. unfold testAll_scheduled.
  rewrite launch_pool, run_schedule; [| exact Hin |].
  - rewrite (pool_after_ext _ (fun _ => 5%nat))
      by (intros k Hk; rewrite (Hcount k Hk); reflexivity).
    assert (Hv : values (Spec.pool_after net targets (fun _ => 5%nat))
                 = Some <$> map (Spec.expected_result net) targets).
    { cbn [values Spec.pool_after Nat.eqb].
      change (map (Spec.expected_result net) targets)
        with (Spec.expected_result net <$> targets).
      rewrite <- list_fmap_compose.
      exact (imap_const (fun t => Some (Spec.expected_result net t)) targets). }
    rewrite Hv, mapM_fmap_Some by reflexivity. reflexivity.
  - intros k Hk. rewrite (Hcount k Hk). lia.
Qed.

End Concurrency.

Section Aggregator.
Import RealProbe.
Local Open Scope Q_scope.

(** C5: whatever the order in which the sockets of the port tests answer,
    once every task has run to its end [Promise.all] holds one entry per
    target, in target order, each the entry of its own target; it is the
    list the array-order reading gives. *)
Theorem results_in_target_order
    (net : Network) (targets : list TargetPort) (schedule : list nat) :
  complete_schedule (length targets) schedule ->
  exists rs,
    testAll_scheduled net targets schedule = Some (Resolved rs)
    /\ testAll net targets = Resolved rs
    /\ rs = map (Spec.expected_result net) targets
    /\ map portInfo rs = targets.
Proof.
  intros Hschedule. exists (map (Spec.expected_result net) targets).
  split; [apply testAll_scheduled_returns, Hschedule|].
  split; [apply testAll_returns|]. split; [reflexivity|].
  rewrite map_map. cbn [portInfo Spec.expected_result]. apply map_id.
Qed.

Lemma results_in_target_order_last_port_first :
  exists rs,
    testAll_scheduled Scenarios.two_replies TEST_PORTS Scenarios.last_port_first
    = Some (Resolved rs)
    /\ testAll Scenarios.two_replies TEST_PORTS = Resolved rs
    /\ rs = map (Spec.expected_result Scenarios.two_replies) TEST_PORTS
    /\ map portInfo rs = TEST_PORTS.
Proof.
  apply (results_in_target_order
           Scenarios.two_replies TEST_PORTS Scenarios.last_port_first).
  split.
  - repeat constructor.
  - intros k Hk. cbn [length TEST_PORTS] in Hk.
    do 4 (destruct k as [|k]; [reflexivity|]). lia.
Defined.

(** The answer of [POST] to a request the rate limiter admits. *)
Lemma POST_admitted (net : Network) (ip : string) (now : Z)
    (m m' : gmap string RateLimit.Entry) :
  RateLimit.checkRateLimit ip now m = (true, m') ->
  POST net ip now m
  = (Ok {| clientIp := ip;
           avgJitter :=
             Math_round
               (avgLatency
                  (Spec.successful_jitters
                     (map (Spec.expected_result net) TEST_PORTS)) * 10) / 10;
           results := map (Spec.expected_result net) TEST_PORTS |},
     m').
Proof.
  intros Hlimit. unfold POST. rewrite Hlimit. cbn [negb].
  rewrite testAll_returns. reflexivity.
Qed.

Lemma POST_refused (net : Network) (ip : string) (now : Z)
    (m m' : gmap string RateLimit.Entry) :
  RateLimit.checkRateLimit ip now m = (false, m') ->
  POST net ip now m = (TooManyRequests, m').
Proof. intros Hlimit. unfold POST. rewrite Hlimit. reflexivity. Qed.

Lemma successful_latencies_unreachable
    (net : Network) (host : string) (port : Z) :
  Spec.unreachable net -> Spec.successful_latencies net host port = [].
Proof.
  intros Hnet. unfold Spec.successful_latencies.
  induction (seq 0 5) as [|i l IH]; [reflexivity|].
  cbn [omap list_omap].
  destruct (net host port i) as [d| |] eqn:E; cbn [Spec.sample];
    [exfalso; exact (Hnet _ _ _ _ E) | exact IH | exact IH].
Qed.

Lemma expected_result_unreachable (net : Network) (t : TargetPort) :
  Spec.unreachable net ->
  Spec.expected_result net t
  = {| portInfo := t; result := summarise 5 no_samples |}.
Proof.
  intros Hnet. unfold Spec.expected_result, Spec.collected.
  rewrite successful_latencies_unreachable by exact Hnet. reflexivity.
Qed.

(** C6: a connection that fails is never an error of the port test or of
    the route: every port test returns, the fan-in returns, and [POST]
    never answers 500; when no port of the host can be reached, an
    admitted request is answered 200 with one entry per port, each with
    [success = false] and no packet received, and [avgJitter = 0]. *)
Theorem connection_failures_never_propagate
    (net : Network) (ip : string) (now : Z)
    (m : gmap string RateLimit.Entry) :
  (forall host port, exists r, performRealPortTest net host port = Resolved r)
  /\ (exists rs, testAll net TEST_PORTS = Resolved rs)
  /\ fst (POST net ip now m) <> InternalError
  /\ (Spec.unreachable net ->
      fst (RateLimit.checkRateLimit ip now m) = true ->
      exists report,
        fst (POST net ip now m) = Ok report
        /\ map portInfo (results report) = TEST_PORTS
        /\ Forall (fun r => success (result r) = false
                            /\ packetsReceived (result r) = 0%Z)
                  (results report)
        /\ avgJitter report == 0).
Proof.
  split; [|split; [|split]].
  - intros host port. eexists. apply performRealPortTest_returns.
  - eexists. apply testAll_returns.
  - destruct (RateLimit.checkRateLimit ip now m) as [[|] m'] eqn:Hlimit.
    + rewrite (POST_admitted _ _ _ _ _ Hlimit). discriminate.
    + rewrite (POST_refused _ _ _ _ _ Hlimit). discriminate.
  - intros Hnet Hlimit.
    destruct (RateLimit.checkRateLimit ip now m) as [allowed m'] eqn:E.
    cbn [fst] in Hlimit. subst allowed.
    rewrite (POST_admitted _ _ _ _ _ E). eexists. split; [reflexivity|].
    cbn [results avgJitter fst].
    rewrite (map_ext _ (fun t => {| portInfo := t;
                                    result := summarise 5 no_samples |}))
      by (intros t; apply expected_result_unreachable, Hnet).
    split; [reflexivity|]. split; [|reflexivity].
    repeat constructor.
Qed.

Lemma connection_failures_never_propagate_silent :
  exists report,
    fst (POST Scenarios.silent "203.0.113.7" 0 ∅) = Ok report
    /\ map portInfo (results report) = TEST_PORTS
    /\ Forall (fun r => success (result r) = false
                        /\ packetsReceived (result r) = 0%Z)
              (results report)
    /\ avgJitter report == 0.
Proof.
  apply (connection_failures_never_propagate Scenarios.silent "203.0.113.7" 0 ∅).
  - intros host port n duration. discriminate.
  - reflexivity.
Defined.

End Aggregator.

(** ** The rate limiter *)

Section RateLimiter.
Import RateLimit.
Implicit Types (m : gmap string Entry) (ip : string) (now : Z).

Lemma checkRateLimit_opens ip now m :
  opens_window ip now m ->
  checkRateLimit ip now m
  = (true, <[ip := {| count := 1; resetTime := now + RATE_WINDOW |}]> m).
Proof.
  unfold checkRateLimit. intros [Hnone | (record & Hsome & Hlate)].
  - rewrite Hnone. reflexivity.
  - rewrite Hsome. rewrite Z.gtb_ltb.
    apply Z.ltb_lt in Hlate. rewrite Hlate. reflexivity.
Qed.

Lemma checkRateLimit_full ip now m record :
  m !! ip = Some record -> now <= resetTime record ->
  RATE_LIMIT <= count record ->
  checkRateLimit ip now m = (false, m).
Proof.
  intros Hsome Hnow Hfull. unfold checkRateLimit. rewrite Hsome.
  rewrite Z.gtb_ltb. apply Z.ltb_ge in Hnow. rewrite Hnow.
  rewrite Z.geb_leb. apply Z.leb_le in Hfull. rewrite Hfull. reflexivity.
Qed.

Lemma checkRateLimit_counts ip now m record :
  m !! ip = Some record -> now <= resetTime record ->
  count record < RATE_LIMIT ->
  checkRateLimit ip now m
  = (true, <[ip := {| count := count record + 1;
                      resetTime := resetTime record |}]> m).
Proof.
  intros Hsome Hnow Hroom. unfold checkRateLimit. rewrite Hsome.
  rewrite Z.gtb_ltb. apply Z.ltb_ge in Hnow. rewrite Hnow.
  rewrite Z.geb_leb. apply Z.leb_gt in Hroom. rewrite Hroom. reflexivity.
Qed.

(** The three cases of a call. *)
Lemma checkRateLimit_cases ip now m :
  (opens_window ip now m
   /\ checkRateLimit ip now m
      = (true, <[ip := {| count := 1; resetTime := now + RATE_WINDOW |}]> m))
  \/ (exists record,
        m !! ip = Some record /\ now <= resetTime record
        /\ RATE_LIMIT <= count record
        /\ checkRateLimit ip now m = (false, m))
  \/ (exists record,
        m !! ip = Some record /\ now <= resetTime record
        /\ count record < RATE_LIMIT
        /\ checkRateLimit ip now m
           = (true, <[ip := {| count := count record + 1;
                               resetTime := resetTime record |}]> m)).
Proof.
  destruct (m !! ip) as [record|] eqn:Hsome.
  - destruct (Z_lt_le_dec (resetTime record) now) as [Hlate|Hnow].
    + left. assert (Ho : opens_window ip now m) by (right; eauto).
      split; [exact Ho | apply checkRateLimit_opens, Ho].
    + destruct (Z_lt_le_dec (count record) RATE_LIMIT) as [Hroom|Hfull].
      * right. right. exists record.
        repeat split; try assumption. apply checkRateLimit_counts; assumption.
      * right. left. exists record.
        repeat split; try assumption.
        apply (checkRateLimit_full ip now m record); assumption.
  - left. assert (Ho : opens_window ip now m) by (left; exact Hsome).
    split; [exact Ho | apply checkRateLimit_opens, Ho].
Qed.

Lemma checkRateLimit_other ip ip' now m :
  ip <> ip' -> snd (checkRateLimit ip' now m) !! ip = m !! ip.
Proof.
  intros Hne.
  destruct (checkRateLimit_cases ip' now m)
    as [[_ E] | [(r & _ & _ & _ & E) | (r & _ & _ & _ & E)]];
    rewrite E; cbn [snd]; try reflexivity;
    apply lookup_insert_ne; intros Heq; apply Hne; symmetry; exact Heq.
Qed.

Lemma bounded_insert ip record m :
  bounded m -> 1 <= count record <= RATE_LIMIT -> bounded (<[ip := record]> m).
Proof.
  intros Hm Hrecord ip' record' Hlookup.
  destruct (decide (ip = ip')) as [<-|Hne].
  - rewrite lookup_insert_eq in Hlookup. injection Hlookup as <-. exact Hrecord.
  - rewrite lookup_insert_ne in Hlookup by exact Hne. exact (Hm _ _ Hlookup).
Qed.

Lemma bounded_step ip now m :
  bounded m -> bounded (snd (checkRateLimit ip now m)).
Proof.
  intros Hm.
  destruct (checkRateLimit_cases ip now m)
    as [[_ E] | [(r & Hr & _ & _ & E) | (r & Hr & _ & Hroom & E)]];
    rewrite E; cbn [snd].
  - apply bounded_insert; [exact Hm | cbn; unfold RATE_LIMIT; lia].
  - exact Hm.
  - apply bounded_insert; [exact Hm|]. cbn [count].
    pose proof (Hm _ _ Hr). lia.
Qed.

Lemma reachable_bounded m : reachable m -> bounded m.
Proof.
  induction 1 as [|ip now m _ IH].
  - intros ip record Hlookup. rewrite lookup_empty in Hlookup. discriminate.
  - apply bounded_step, IH.
Qed.

(** While the window of [ip] lasts, the calls of [ip] that are admitted
    are no more than the room its count leaves. *)
Lemma accepted_within_window ip (requests : list (string * Z)) m record :
  m !! ip = Some record ->
  (forall now, In (ip, now) requests -> now <= resetTime record) ->
  Z.of_nat (accepted (answers_for ip requests (fst (serve requests m))))
  <= Z.max 0 (RATE_LIMIT - count record).
Proof.
  revert m record.
  induction requests as [|[ip' now] rest IH]; intros m record Hsome Hnow.
  - cbn. lia.
  - cbn [serve].
    destruct (checkRateLimit ip' now m) as [ok m1] eqn:E.
    specialize (IH m1).
    destruct (serve rest m1) as [oks m2]. cbn [fst answers_for] in *.
    assert (Hrest : forall now', In (ip, now') rest -> now' <= resetTime record)
      by (intros now' Hin; apply Hnow; right; exact Hin).
    destruct (String.eqb_spec ip' ip) as [->|Hne].
    + assert (Hle : now <= resetTime record) by (apply Hnow; left; reflexivity).
      destruct (Z_lt_le_dec (count record) RATE_LIMIT) as [Hroom|Hfull].
      * rewrite (checkRateLimit_counts ip now m record Hsome Hle Hroom) in E.
        injection E as <- <-.
        specialize (IH _ (lookup_insert_eq _ _ _) Hrest). cbn [count] in IH.
        unfold accepted in *. rewrite count_occ_cons_eq by reflexivity. lia.
      * rewrite (checkRateLimit_full ip now m record Hsome Hle Hfull) in E.
        injection E as <- <-. specialize (IH record Hsome Hrest).
        unfold accepted in *. rewrite count_occ_cons_neq by discriminate. lia.
    + apply (IH record); [|exact Hrest].
      assert (Hm1 : m1 = snd (checkRateLimit ip' now m)) by (rewrite E; reflexivity).
      rewrite Hm1, checkRateLimit_other; [exact Hsome|].
      intros Heq. apply Hne. symmetry. exact Heq.
Qed.

(** C10: the count stored for a client stays between 1 and 10; a call
    made when the count has reached 10 and the window has not expired is
    refused and changes nothing; a call made after [resetTime] is admitted
    and restarts the count at 1; and of the calls a client makes within
    one window of 60 seconds, the one that opens it included, at most 10
    are admitted. *)
Theorem rate_limit_ten_per_window :
  RATE_LIMIT = 10 /\ RATE_WINDOW = 60000
  /\ (forall m, reachable m ->
       forall ip record, m !! ip = Some record -> 1 <= count record <= 10)
  /\ (forall ip now m record,
        m !! ip = Some record -> now <= resetTime record ->
        10 <= count record ->
        checkRateLimit ip now m = (false, m))
  /\ (forall ip now m record,
        m !! ip = Some record -> resetTime record < now ->
        checkRateLimit ip now m
        = (true, <[ip := {| count := 1; resetTime := now + 60000 |}]> m))
  /\ (forall ip now m (requests : list (string * Z)),
        opens_window ip now m ->
        (forall now', In (ip, now') requests -> now' <= now + 60000) ->
        let calls := (ip, now) :: requests in
        (accepted (answers_for ip calls (fst (serve calls m))) <= 10)%nat).
Proof.
  split; [reflexivity|]. split; [reflexivity|].
  split; [|split; [|split]].
  - intros m Hm ip record Hsome. exact (reachable_bounded m Hm ip record Hsome).
  - intros ip now m record Hsome Hnow Hfull.
    exact (checkRateLimit_full ip now m record Hsome Hnow Hfull).
  - intros ip now m record Hsome Hlate.
    apply checkRateLimit_opens. right. eauto.
  - intros ip now m requests Hopen Hwindow. cbn zeta. cbn [serve].
    rewrite (checkRateLimit_opens ip now m Hopen).
    pose proof (accepted_within_window ip requests
                  (<[ip := {| count := 1; resetTime := now + RATE_WINDOW |}]> m)
                  {| count := 1; resetTime := now + RATE_WINDOW |}
                  (lookup_insert_eq _ _ _) Hwindow) as Hrest.
    destruct (serve requests _) as [oks m2]. cbn [fst answers_for count] in *.
    rewrite String.eqb_refl. unfold accepted in *.
    rewrite count_occ_cons_eq by reflexivity. unfold RATE_LIMIT in Hrest. lia.
Qed.

Lemma rate_limit_burst :
  (accepted
     (answers_for "203.0.113.7"
        (("203.0.113.7"%string, 0%Z) :: Scenarios.burst)
        (fst (serve (("203.0.113.7"%string, 0%Z) :: Scenarios.burst) ∅)))
   <= 10)%nat
  /\ checkRateLimit "203.0.113.7" 60001
       (snd (serve (("203.0.113.7"%string, 0) :: Scenarios.burst) ∅))
     = (true,
        <["203.0.113.7"%string := {| count := 1; resetTime := 60001 + 60000 |}]>
          (snd (serve (("203.0.113.7"%string, 0) :: Scenarios.burst) ∅))).
Proof.
  destruct rate_limit_ten_per_window as (_ & _ & _ & _ & Hrestart & Hwindow).
  split.
  - apply (Hwindow "203.0.113.7"%string 0 ∅ Scenarios.burst).
    + left. reflexivity.
    + intros now' Hin. unfold Scenarios.burst in Hin.
      apply in_map_iff in Hin as (k & Hk & Hseq). apply in_seq in Hseq.
      injection Hk as <-. lia.
  - apply (Hrestart "203.0.113.7"%string 60001 _
                    {| count := 10; resetTime := 60000 |}).
    + vm_compute. reflexivity.
    + cbn. lia.
Defined.

(** The bound is reached: of the thirteen calls of the burst, ten are
    admitted and the last three refused. *)
Example burst_answers :
  fst (serve (("203.0.113.7"%string, 0%Z) :: Scenarios.burst) ∅)
  = repeat true 10 ++ repeat false 3.
Proof. vm_compute. reflexivity. Qed.

End RateLimiter.


(** ** More on the rate limiter *)

Section RateLimiterSessions.
Import RateLimit Sessions.
Implicit Types (m : gmap string Entry) (ip : string) (now : Z).

(** What a call answers, and what it stores for its client, depends on the
    map only through the entry of that client. *)
Lemma checkRateLimit_agree ip now m1 m2 :
  m1 !! ip = m2 !! ip ->
  fst (checkRateLimit ip now m1) = fst (checkRateLimit ip now m2)
  /\ snd (checkRateLimit ip now m1) !! ip = snd (checkRateLimit ip now m2) !! ip.
Proof.
  intros Hagree. unfold checkRateLimit. rewrite Hagree.
  destruct (m2 !! ip) as [record|] eqn:Hm2.
  - destruct (now >? resetTime record);
      [cbn [fst snd]; rewrite !lookup_insert_eq; split; reflexivity|].
    destruct (count record >=? RATE_LIMIT); cbn [fst snd].
    + split; [reflexivity | rewrite Hagree, Hm2; reflexivity].
    + rewrite !lookup_insert_eq. split; reflexivity.
  - cbn [fst snd]. rewrite !lookup_insert_eq. split; reflexivity.
Qed.

Lemma answers_agree ip (requests : list (string * Z)) m1 m2 :
  m1 !! ip = m2 !! ip ->
  answers_for ip requests (fst (serve requests m1))
  = fst (serve (requests_of ip requests) m2).
Proof.
  revert m1 m2. induction requests as [|[ip' now] rest IH]; intros m1 m2 Hagree.
  - reflexivity.
  - cbn [serve requests_of List.filter fst].
    destruct (checkRateLimit ip' now m1) as [ok m1'] eqn:E1.
    destruct (serve rest m1') as [oks m1''] eqn:E1'.
    cbn [fst answers_for].
    destruct (String.eqb_spec ip' ip) as [->|Hne].
    + cbn [serve].
      destruct (checkRateLimit_agree ip now m1 m2 Hagree) as [Hok Hnext].
      rewrite E1 in Hok, Hnext. cbn [fst snd] in Hok, Hnext.
      destruct (checkRateLimit ip now m2) as [ok2 m2'] eqn:E2.
      cbn [fst snd] in Hok, Hnext. subst ok2.
      specialize (IH m1' m2' Hnext). rewrite E1' in IH. cbn [fst] in IH.
      fold (requests_of ip rest).
      destruct (serve (requests_of ip rest) m2') as [oks2 m2'']. cbn [fst] in *.
      rewrite IH. reflexivity.
    + fold (requests_of ip rest).
      specialize (IH m1' m2). rewrite E1' in IH. cbn [fst] in IH. apply IH.
      assert (Hm1' : m1' = snd (checkRateLimit ip' now m1)) by (rewrite E1; reflexivity).
      rewrite Hm1', checkRateLimit_other; [exact Hagree|].
      intros Heq. apply Hne. symmetry. exact Heq.
Qed.

(** The answers a client gets are those it would get if no other client
    had made a request. *)
Theorem answers_depend_on_own_requests ip (requests : list (string * Z)) m :
  answers_for ip requests (fst (serve requests m))
  = fst (serve (requests_of ip requests) m).
Proof. apply answers_agree. reflexivity. Qed.

(** Within a window the entry of a client keeps its [resetTime], and its
    count is the calls made, capped at the limit. *)
Lemma entry_within_window ip (requests : list (string * Z)) m record :
  m !! ip = Some record ->
  count record <= RATE_LIMIT ->
  (forall now, In (ip, now) requests -> now <= resetTime record) ->
  snd (serve requests m) !! ip
  = Some {| count :=
              Z.min RATE_LIMIT
                (count record + Z.of_nat (length (requests_of ip requests)));
            resetTime := resetTime record |}.
Proof.
  revert m record.
  induction requests as [|[ip' now] rest IH]; intros m record Hsome Hbound Hnow.
  - cbn. rewrite Hsome. destruct record as [c t]. cbn in *.
    f_equal. f_equal. lia.
  - cbn [serve requests_of List.filter fst].
    destruct (checkRateLimit ip' now m) as [ok m1] eqn:E.
    specialize (IH m1).
    destruct (serve rest m1) as [oks m2]. cbn [snd] in *.
    assert (Hrest : forall now', In (ip, now') rest -> now' <= resetTime record)
      by (intros now' Hin; apply Hnow; right; exact Hin).
    fold (requests_of ip rest).
    destruct (String.eqb_spec ip' ip) as [->|Hne].
    + assert (Hle : now <= resetTime record) by (apply Hnow; left; reflexivity).
      cbn [length].
      destruct (Z_lt_le_dec (count record) RATE_LIMIT) as [Hroom|Hfull].
      * rewrite (checkRateLimit_counts ip now m record Hsome Hle Hroom) in E.
        injection E as <- <-.
        rewrite (IH _ (lookup_insert_eq _ _ _)); cbn [count resetTime];
          [| lia | exact Hrest].
        f_equal. f_equal. lia.
      * rewrite (checkRateLimit_full ip now m record Hsome Hle Hfull) in E.
        injection E as <- <-. rewrite (IH record Hsome Hbound Hrest).
        f_equal. f_equal. lia.
    + apply (IH record); [|exact Hbound|exact Hrest].
      assert (Hm1 : m1 = snd (checkRateLimit ip' now m)) by (rewrite E; reflexivity).
      rewrite Hm1, checkRateLimit_other; [exact Hsome|].
      intros Heq. apply Hne. symmetry. exact Heq.
Qed.

(** Calls within a window never move its end: whatever a client was
    refused, its first call after [resetTime] is admitted, and until then
    its count is the number of its calls, capped at 10. *)
Theorem window_does_not_slide ip (requests : list (string * Z)) m record :
  m !! ip = Some record ->
  count record <= 10 ->
  (forall now, In (ip, now) requests -> now <= resetTime record) ->
  exists record',
    snd (serve requests m) !! ip = Some record'
    /\ resetTime record' = resetTime record
    /\ count record'
       = Z.min 10 (count record + Z.of_nat (length (requests_of ip requests)))
    /\ forall later,
         resetTime record < later ->
         fst (checkRateLimit ip later (snd (serve requests m))) = true.
Proof.
  intros Hsome Hbound Hnow.
  pose proof (entry_within_window ip requests m record Hsome Hbound Hnow) as Hentry.
  eexists. split; [exact Hentry|]. split; [reflexivity|]. split; [reflexivity|].
  intros later Hlater. rewrite checkRateLimit_opens; [reflexivity|].
  right. eexists. split; [exact Hentry | exact Hlater].
Qed.

Lemma window_does_not_slide_burst :
  exists record',
    snd (serve Scenarios.burst (snd (checkRateLimit "203.0.113.7" 0 ∅)))
      !! "203.0.113.7"%string
    = Some record'
    /\ resetTime record' = 60000
    /\ count record' = 10
    /\ fst (checkRateLimit "203.0.113.7" 60001
              (snd (serve Scenarios.burst (snd (checkRateLimit "203.0.113.7" 0 ∅)))))
       = true.
Proof.
  destruct (window_does_not_slide "203.0.113.7"%string Scenarios.burst
              (snd (checkRateLimit "203.0.113.7" 0 ∅))
              {| count := 1; resetTime := 60000 |})
    as (record' & Hentry & Hreset & Hcount & Hlater).
  - vm_compute. reflexivity.
  - cbn. lia.
  - intros now Hin. unfold Scenarios.burst in Hin.
    apply in_map_iff in Hin as (k & Hk & Hseq). apply in_seq in Hseq.
    injection Hk as <-. cbn [resetTime]. lia.
  - exists record'. split; [exact Hentry|]. split; [exact Hreset|].
    split; [exact Hcount|]. apply Hlater. cbn. lia.
Defined.

Lemma checkRateLimit_keeps ip now m ip' :
  is_Some (m !! ip') -> is_Some (snd (checkRateLimit ip now m) !! ip').
Proof.
  intros Hsome.
  destruct (decide (ip = ip')) as [<-|Hne].
  - destruct (checkRateLimit_cases ip now m)
      as [[_ E] | [(r & _ & _ & _ & E) | (r & _ & _ & _ & E)]];
      rewrite E; cbn [snd]; rewrite ?lookup_insert_eq; eauto.
  - rewrite checkRateLimit_other by (intros Heq; apply Hne; symmetry; exact Heq).
    exact Hsome.
Qed.

Lemma checkRateLimit_stores ip now m :
  is_Some (snd (checkRateLimit ip now m) !! ip).
Proof.
  destruct (checkRateLimit_cases ip now m)
    as [[_ E] | [(r & Hr & _ & _ & E) | (r & _ & _ & _ & E)]];
    rewrite E; cbn [snd]; rewrite ?lookup_insert_eq; eauto.
Qed.

(** The map never forgets a client: no call removes an entry, and every
    client that has called has one. *)
Theorem entries_are_never_removed (requests : list (string * Z)) m :
  (forall ip, is_Some (m !! ip) -> is_Some (snd (serve requests m) !! ip))
  /\ (forall ip now, In (ip, now) requests ->
                     is_Some (snd (serve requests m) !! ip)).
Proof.
  revert m. induction requests as [|[ip' now'] rest IH]; intros m.
  - split; [intros ip H; exact H | intros ip now []].
  - cbn [serve].
    pose proof (checkRateLimit_keeps ip' now' m) as Hkeeps.
    pose proof (checkRateLimit_stores ip' now' m) as Hstores.
    destruct (checkRateLimit ip' now' m) as [ok m1].
    destruct (IH m1) as [IH1 IH2].
    destruct (serve rest m1) as [oks m2]. cbn [snd] in *.
    split.
    + intros ip Hip. apply IH1, Hkeeps, Hip.
    + intros ip now [Heq|Hin].
      * injection Heq as <- <-. apply IH1, Hstores.
      * exact (IH2 ip now Hin).
Qed.

(** [POST] and the limiter. *)
Lemma POST_limiter (net : RealProbe.Network) ip now m :
  answered_200 (fst (RealProbe.POST net ip now m)) = fst (checkRateLimit ip now m)
  /\ snd (RealProbe.POST net ip now m) = snd (checkRateLimit ip now m).
Proof.
  destruct (checkRateLimit ip now m) as [[|] m'] eqn:E.
  - rewrite (POST_admitted net ip now m m' E). split; reflexivity.
  - rewrite (POST_refused net ip now m m' E). split; reflexivity.
Qed.

Lemma serve_POST_serve (net : RealProbe.Network) (requests : list (string * Z)) m :
  map answered_200 (fst (serve_POST net requests m)) = fst (serve requests m)
  /\ snd (serve_POST net requests m) = snd (serve requests m).
Proof.
  revert m. induction requests as [|[ip now] rest IH]; intros m.
  - split; reflexivity.
  - cbn [serve_POST serve].
    destruct (POST_limiter net ip now m) as [H1 H2].
    destruct (RealProbe.POST net ip now m) as [response m1].
    destruct (checkRateLimit ip now m) as [ok m1'].
    cbn [fst snd] in H1, H2. subst m1' ok.
    destruct (IH m1) as [IH1 IH2].
    destruct (serve_POST net rest m1) as [responses m2].
    destruct (serve rest m1) as [oks m2'].
    cbn [fst snd map] in *. subst. split; reflexivity.
Qed.

(** Of the [POST] requests a client makes within one window, the one that
    opens it included, at most 10 are answered 200; a request is answered
    200 exactly when the limiter admits it, whatever the network does. *)
Theorem at_most_ten_tests_per_window
    (net : RealProbe.Network) ip now m (requests : list (string * Z)) :
  opens_window ip now m ->
  (forall now', In (ip, now') requests -> now' <= now + 60000) ->
  let calls := (ip, now) :: requests in
  map answered_200 (fst (serve_POST net calls m)) = fst (serve calls m)
  /\ (accepted (answers_for ip calls
                  (map answered_200 (fst (serve_POST net calls m))))
      <= 10)%nat.
Proof.
  intros Hopen Hwindow calls.
  destruct (serve_POST_serve net calls m) as [Hanswers _].
  split; [exact Hanswers|]. rewrite Hanswers. subst calls. cbn [serve].
  rewrite (checkRateLimit_opens ip now m Hopen).
  pose proof (accepted_within_window ip requests
                (<[ip := {| count := 1; resetTime := now + RATE_WINDOW |}]> m)
                {| count := 1; resetTime := now + RATE_WINDOW |}
                (lookup_insert_eq _ _ _) Hwindow) as Hrest.
  destruct (serve requests _) as [oks m2]. cbn [fst answers_for count] in *.
  rewrite String.eqb_refl. unfold accepted in *.
  rewrite count_occ_cons_eq by reflexivity. unfold RATE_LIMIT in Hrest. lia.
Qed.

Lemma at_most_ten_tests_burst :
  map answered_200
      (fst (serve_POST Scenarios.silent
              (("203.0.113.7"%string, 0%Z) :: Scenarios.burst) ∅))
  = repeat true 10 ++ repeat false 3
  /\ (accepted
        (answers_for "203.0.113.7"
           (("203.0.113.7"%string, 0%Z) :: Scenarios.burst)
           (map answered_200
                (fst (serve_POST Scenarios.silent
                        (("203.0.113.7"%string, 0%Z) :: Scenarios.burst) ∅))))
      <= 10)%nat.
Proof.
  destruct (at_most_ten_tests_per_window Scenarios.silent
              "203.0.113.7"%string 0 ∅ Scenarios.burst) as [Hanswers Hten].
  - left. reflexivity.
  - intros now' Hin. unfold Scenarios.burst in Hin.
    apply in_map_iff in Hin as (k & Hk & Hseq). apply in_seq in Hseq.
    injection Hk as <-. lia.
  - split; [|exact Hten]. rewrite Hanswers. vm_compute. reflexivity.
Defined.

End RateLimiterSessions.

(** ** Bounds on what a port test returns *)

Section Bounds.
Import RealProbe.
Local Open Scope Q_scope.

Lemma Math_round_monotone (x y : Q) : x <= y -> Math_round x <= Math_round y.
Proof.
  intros Hxy. unfold Math_round. rewrite <- Zle_Qle.
  apply Qfloor_resp_le. lra.
Qed.






(** Between 0 and 5 packets are received and lost, and the lost ones are
    the attempts that did not connect. *)
Theorem packets_between_zero_and_five
    (net : Network) (host : string) (port : Z) :
  exists r,
    performRealPortTest net host port = Resolved r
    /\ (0 <= packetsReceived r <= 5)%Z
    /\ (0 <= packetsLost r <= 5)%Z
    /\ packetsLost r
       = Z.of_nat
           (length
              (List.filter
                 (fun i => match Spec.sample (net host port i) with
                           | Some _ => false
                           | None => true
                           end)
                 (seq 0 5))).
Proof.
  eexists. split; [apply performRealPortTest_returns|].
  cbn [packetsReceived packetsLost summarise Spec.collected successCount].
  unfold Spec.successful_latencies. cbn [seq omap list_omap List.filter].
  destruct (Spec.sample (net host port 0%nat)),
    (Spec.sample (net host port 1%nat)), (Spec.sample (net host port 2%nat)),
    (Spec.sample (net host port 3%nat)), (Spec.sample (net host port 4%nat));
    cbn; lia.
Qed.

End Bounds.

(** ** More on the simulated route *)

Section SimulatedRoute.
Import SimulatedProbe.
Local Open Scope Q_scope.
Variable rand : Random.

(** The jitter loop of the simulated route is the sum of the real one. *)
Lemma jitterStep_fold (xs : list Q) (indices : list nat) (s : Q) (c : Z) :
  fold_left (RealProbe.jitterStep xs) indices (s, c)
  = (fold_left
       (fun jitterSum i =>
          jitterSum + Math_abs (at_index xs i - at_index xs (i - 1)))
       indices s,
     (c + Z.of_nat (length indices))%Z).
Proof.
  revert s c. induction indices as [|i indices IH]; intros s c.
  - cbn. rewrite Z.add_0_r. reflexivity.
  - cbn [fold_left length]. unfold RealProbe.jitterStep at 2.
    rewrite IH. f_equal. lia.
Qed.

Lemma simulated_jitterValue_real (xs : list Q) :
  jitterValue xs == RealProbe.jitterValue xs.
Proof.
  unfold jitterValue, RealProbe.jitterValue, RealProbe.jitterLoop.
  destruct (1 <? length xs)%nat eqn:E; [|reflexivity].
  apply Nat.ltb_lt in E. rewrite jitterStep_fold, length_seq.
  assert (Hc : (0 + Z.of_nat (length xs - 1) >? 0)%Z = true)
    by (rewrite Z.gtb_ltb; apply Z.ltb_lt; lia).
  rewrite Hc.
  assert (Hn : inject_Z (0 + Z.of_nat (length xs - 1)) == length_num xs - 1).
  { unfold length_num. rewrite Z.add_0_l, Nat2Z.inj_sub by lia.
    unfold Z.sub. rewrite inject_Z_plus, inject_Z_opp. reflexivity. }
  rewrite Hn. reflexivity.
Qed.

Lemma simulated_avgLatency_real (xs : list Q) :
  xs <> [] -> avgLatency xs == RealProbe.avgLatency xs.
Proof.
  intros Hne. destruct xs as [|x xs]; [contradiction Hne; reflexivity|].
  reflexivity.
Qed.

(** On the same latencies, none excepted for the jitter and at least one
    for the average, both routes compute the same average latency and the
    same jitter. *)
Theorem both_routes_compute_the_same_statistics (xs : list Q) :
  xs <> [] ->
  avgLatency xs == RealProbe.avgLatency xs
  /\ jitterValue xs == RealProbe.jitterValue xs
  /\ avgLatency xs == Spec.mean xs
  /\ jitterValue xs == Spec.mean_consecutive_difference xs.
Proof.
  intros Hne. split; [apply simulated_avgLatency_real, Hne|].
  split; [apply simulated_jitterValue_real|]. split.
  - rewrite (simulated_avgLatency_real xs Hne). apply avgLatency_spec.
  - rewrite simulated_jitterValue_real. apply jitterValue_spec.
Qed.

Lemma both_routes_compute_the_same_statistics_witness :
  avgLatency [10; 12; 11; 13; 10] == RealProbe.avgLatency [10; 12; 11; 13; 10]
  /\ jitterValue [10; 12; 11; 13; 10] == RealProbe.jitterValue [10; 12; 11; 13; 10]
  /\ avgLatency [10; 12; 11; 13; 10] == Spec.mean [10; 12; 11; 13; 10]
  /\ jitterValue [10; 12; 11; 13; 10]
     == Spec.mean_consecutive_difference [10; 12; 11; 13; 10].
Proof.
  apply (both_routes_compute_the_same_statistics [10; 12; 11; 13; 10]).
  discriminate.
Defined.

(** A common port (80 or 443) is always reported with 4 of 5 packets
    received, whatever is drawn. *)
Theorem common_ports_lose_one_packet (port : Z) (calls : nat) :
  port = 80%Z \/ port = 443%Z ->
  let r := fst (simulatePortTest rand port calls) in
  success r = true /\ packetsReceived r = 4%Z /\ packetsLost r = 1%Z.
Proof.
  intros Hport. cbn zeta. rewrite simulatePortTest_result.
  assert (Hcommon : isCommonPort port = true)
    by (destruct Hport as [-> | ->]; reflexivity).
  rewrite Hcommon. repeat split.
Qed.




End SimulatedRoute.


Lemma common_ports_lose_one_packet_https :
  let r := fst (SimulatedProbe.simulatePortTest Scenarios.halves 443 7) in
  success r = true /\ packetsReceived r = 4 /\ packetsLost r = 1.
Proof.
  apply (common_ports_lose_one_packet Scenarios.halves 443 7).
  right. reflexivity.
Defined.


Section SimulatedAnswer.
Import SimulatedProbe RateLimit.
Variable rand : Random.

Lemma drawLatencies_calls (n a : nat) (ls : list Q) (calls : nat) :
  snd (fold_left
         (fun '(latencies, calls) (_ : nat) =>
            let '(r, calls) := Math_random rand calls in
            let baseLatency := (10 + r * 40)%Q in
            let '(r, calls) := Math_random rand calls in
            let variation := (r * 15 - 7.5)%Q in
            (latencies ++ [Math_max 1 (baseLatency + variation)], calls))
         (seq a n) (ls, calls))
  = (calls + 2 * n)%nat.
Proof.
  revert a ls calls. induction n as [|n IH]; intros a ls calls.
  - cbn. lia.
  - cbn [seq fold_left].
    etransitivity;
      [exact (IH (S a)
                 (ls ++ [Math_max 1 (10 + rand calls * 40
                                     + (rand (S calls) * 15 - 7.5))%Q])
                 (S (S calls)))|].
    lia.
Qed.

Lemma drawLatencies_snd (n calls : nat) :
  snd (drawLatencies rand n calls) = (calls + 2 * n)%nat.
Proof. unfold drawLatencies. apply drawLatencies_calls. Qed.

(** The draws a port test makes: one for the success rate of a port that is
    not common, two per packet, one for the closing delay. *)
Lemma simulatePortTest_calls (port : Z) (calls : nat) :
  snd (simulatePortTest rand port calls)
  = (calls + if isCommonPort port then 11 else 12)%nat.
Proof.
  unfold simulatePortTest, drawSuccessRate, Math_random.
  change (Z.to_nat 5) with 5%nat.
  pose proof (drawLatencies_snd 5) as Hcalls.
  destruct (isCommonPort port).
  - specialize (Hcalls calls).
    destruct (drawLatencies rand 5 calls) as [ls calls1].
    cbn [snd] in *. lia.
  - specialize (Hcalls (S calls)).
    destruct (drawLatencies rand 5 (S calls)) as [ls calls1].
    cbn [snd] in *. lia.
Qed.

Lemma simulated_testAll_shape (targets : list TargetPort) (calls : nat) :
  map portInfo (fst (testAll rand targets calls)) = targets
  /\ snd (testAll rand targets calls)
     = (calls
        + list_sum (map (fun t => if isCommonPort (port t) then 11 else 12)
                        targets))%nat.
Proof.
  revert calls. induction targets as [|t targets IH]; intros calls.
  - cbn. split; [reflexivity | lia].
  - cbn [testAll].
    pose proof (simulatePortTest_calls (port t) calls) as Hcalls.
    destruct (simulatePortTest rand (port t) calls) as [r calls1].
    destruct (IH calls1) as [IH1 IH2].
    destruct (testAll rand targets calls1) as [others calls2].
    cbn [fst snd map portInfo] in *. rewrite IH1, IH2, Hcalls.
    split; [reflexivity|].
    match goal with
    | |- context [list_sum (?a :: ?l)] =>
        change (list_sum (a :: l)) with (a + list_sum l)%nat
    end.
    lia.
Qed.

(** The simulated route never answers 500.  An admitted request is
    answered 200 with one entry per port of [TEST_PORTS], in that order,
    after 106 random draws; a refused one is answered 429 with no draw made
    and the limiter's map unchanged. *)
Theorem simulated_POST_answer
    (calls : nat) (ip : string) (now : Z) (m : gmap string Entry) :
  (fst (checkRateLimit ip now m) = true /\
   exists report,
     POST rand calls ip now m
     = (Ok report, snd (checkRateLimit ip now m), (calls + 106)%nat)
     /\ clientIp report = ip
     /\ map portInfo (results report) = TEST_PORTS)
  \/ (fst (checkRateLimit ip now m) = false /\
      POST rand calls ip now m = (TooManyRequests, m, calls)).
Proof.
  unfold POST.
  destruct (checkRateLimit_cases ip now m)
    as [[_ E] | [(r & _ & _ & _ & E) | (r & _ & _ & _ & E)]]; rewrite E;
    cbn [negb fst snd].
  2: { right. split; reflexivity. }
  all: left; split; [reflexivity|];
    destruct (simulated_testAll_shape TEST_PORTS calls) as [Hports Hcalls];
    destruct (testAll rand TEST_PORTS calls) as [rs calls1];
    cbn [fst snd] in Hports, Hcalls; eexists;
    (split; [rewrite Hcalls; reflexivity|]); split; [reflexivity | exact Hports].
Qed.

End SimulatedAnswer.

(** ** Regular expressions: the matcher and the language *)

Section RegexTheory.
Import Strings.Ascii Regex.
Local Open Scope string_scope.
Local Open Scope nat_scope.
#[local] Arguments String.append !s1 s2 : simpl nomatch.

Lemma append_nil_r (s : string) : s ++ "" = s.
Proof. induction s as [|c s IH]; cbn; [reflexivity | rewrite IH; reflexivity]. Qed.

Lemma append_assoc (x y z : string) : (x ++ y) ++ z = x ++ (y ++ z).
Proof. induction x as [|c x IH]; cbn; [reflexivity | rewrite IH; reflexivity]. Qed.

Lemma length_append (x y : string) :
  String.length (x ++ y) = String.length x + String.length y.
Proof. induction x as [|c x IH]; cbn; [reflexivity | rewrite IH; reflexivity]. Qed.

Lemma append_eq_nil (x y : string) : x ++ y = "" -> x = "" /\ y = "".
Proof. destruct x; cbn; intros H; [split; [reflexivity | exact H] | discriminate]. Qed.

Lemma append_eq_cons (x y s : string) (c : ascii) :
  x ++ y = String c s ->
  (x = "" /\ y = String c s) \/ (exists x', x = String c x' /\ s = x' ++ y).
Proof.
  destruct x as [|a x]; cbn; intros H.
  - left. split; [reflexivity | exact H].
  - right. injection H as -> <-. exists x. split; reflexivity.
Qed.

Lemma Matches_seq (r s : t) (x : string) :
  Matches (seq r s) x <-> Matches (Seq r s) x.
Proof.
  split.
  - destruct r, s; cbn; intros H; try exact H; inversion H.
  - intros H. inversion H as [| |r' s' x1 x2 H1 H2| | | |]; subst.
    destruct r, s; cbn; try (constructor; assumption);
      try (inversion H1; fail); inversion H2.
Qed.

Lemma Matches_alt (r s : t) (x : string) :
  Matches (alt r s) x <-> Matches (Alt r s) x.
Proof.
  split.
  - destruct r, s; cbn; intros H; try exact H;
      try (apply MAltR; exact H); try (apply MAltL; exact H).
  - intros H.
    inversion H as [| | |r' s' x' H1|r' s' x' H1| |]; subst;
      destruct r, s; cbn; try (inversion H1; fail); try exact H1;
      try (apply MAltL; exact H1); apply MAltR; exact H1.
Qed.

Lemma nullable_spec (r : t) : nullable r = true <-> Matches r "".
Proof.
  split.
  - induction r as [| |p|r1 IH1 r2 IH2|r1 IH1 r2 IH2|r IH]; cbn; intros H;
      try discriminate.
    + constructor.
    + apply andb_prop in H as [H1 H2].
      change "" with ("" ++ ""). constructor; auto.
    + apply orb_prop in H as [H|H]; [apply MAltL | apply MAltR]; auto.
    + constructor.
  - intros H. remember "" as x eqn:Hx.
    induction H as [|p c Hp|r s x y _ IH1 _ IH2|r s x _ IH|r s x _ IH|r
                    |r x y _ _ _ _]; cbn; try reflexivity.
    + discriminate.
    + apply append_eq_nil in Hx as [-> ->]. rewrite IH1, IH2; reflexivity.
    + rewrite IH by exact Hx. reflexivity.
    + rewrite IH by exact Hx. apply orb_true_r.
Qed.

Lemma deriv_sound (c : ascii) (r : t) (x : string) :
  Matches (deriv c r) x -> Matches r (String c x).
Proof.
  revert x.
  induction r as [| |p|r1 IH1 r2 IH2|r1 IH1 r2 IH2|r IH]; cbn; intros x H.
  - inversion H.
  - inversion H.
  - destruct (p c) eqn:Hp; inversion H; subst. constructor. exact Hp.
  - destruct (nullable r1) eqn:Hnull.
    + apply Matches_alt in H.
      inversion H as [| | |r' s' x' H1|r' s' x' H1| |]; subst.
      * apply Matches_seq in H1.
        inversion H1 as [| |r' s' x1 x2 Hd H2| | | |]; subst.
        change (String c (x1 ++ x2)) with (String c x1 ++ x2).
        constructor; [apply IH1, Hd | exact H2].
      * change (String c x) with ("" ++ String c x).
        constructor; [apply nullable_spec, Hnull | apply IH2, H1].
    + apply Matches_seq in H.
      inversion H as [| |r' s' x1 x2 Hd H2| | | |]; subst.
      change (String c (x1 ++ x2)) with (String c x1 ++ x2).
      constructor; [apply IH1, Hd | exact H2].
  - apply Matches_alt in H.
    inversion H; subst; [apply MAltL, IH1 | apply MAltR, IH2]; assumption.
  - apply Matches_seq in H.
    inversion H as [| |r' s' x1 x2 Hd H2| | | |]; subst.
    change (String c (x1 ++ x2)) with (String c x1 ++ x2).
    constructor; [apply IH, Hd | exact H2].
Qed.

Lemma deriv_complete (c : ascii) (r : t) (x : string) :
  Matches r (String c x) -> Matches (deriv c r) x.
Proof.
  intros H. remember (String c x) as y eqn:Hy. revert x Hy.
  induction H as [|p a Hp|r s x1 x2 H1 IH1 H2 IH2|r s x1 H1 IH1|r s x1 H1 IH1|r
                  |r x1 x2 H1 IH1 H2 IH2]; intros x Hy; cbn.
  - discriminate.
  - injection Hy as -> <-. rewrite Hp. constructor.
  - apply append_eq_cons in Hy as [[-> ->] | (x' & -> & ->)].
    + apply nullable_spec in H1. rewrite H1.
      apply Matches_alt, MAltR, IH2. reflexivity.
    + assert (Hseq : Matches (seq (deriv c r) s) (x' ++ x2)).
      { apply Matches_seq. constructor; [apply IH1; reflexivity | exact H2]. }
      destruct (nullable r); [apply Matches_alt, MAltL|]; exact Hseq.
  - apply Matches_alt, MAltL, IH1, Hy.
  - apply Matches_alt, MAltR, IH1, Hy.
  - discriminate.
  - apply append_eq_cons in Hy as [[-> ->] | (x' & -> & ->)].
    + apply IH2. reflexivity.
    + apply Matches_seq. constructor; [apply IH1; reflexivity | exact H2].
Qed.

(** The matcher decides the language. *)
Lemma test_spec (r : t) (x : string) : test r x = true <-> Matches r x.
Proof.
  revert r. induction x as [|c x IH]; intros r; cbn.
  - apply nullable_spec.
  - rewrite IH. split; [apply deriv_sound | apply deriv_complete].
Qed.

Lemma Matches_Chars (p : ascii -> bool) (x : string) :
  Matches (Chars p) x <-> exists c, x = String c "" /\ p c = true.
Proof.
  split.
  - intros H. inversion H; subst. eauto.
  - intros (c & -> & Hp). constructor. exact Hp.
Qed.

Lemma Matches_upto_chars (p : ascii -> bool) (n : nat) (x : string) :
  Matches (upto n (Chars p)) x
  <-> String.length x <= n /\ Text.all_chars p x = true.
Proof.
  revert x. induction n as [|n IH]; intros x; cbn [upto].
  - split.
    + intros H. inversion H; subst. split; [apply Nat.le_refl | reflexivity].
    + intros [Hlen _]. destruct x; [constructor | cbn in Hlen; lia].
  - split.
    + intros H. inversion H as [| | |r s x' H1|r s x' H1| |]; subst.
      * inversion H1; subst. cbn. split; [lia | reflexivity].
      * inversion H1 as [| |r s x1 x2 Hc Hrest| | | |]; subst.
        apply Matches_Chars in Hc as (c & -> & Hp).
        apply IH in Hrest as [Hlen Hall]. cbn. rewrite Hp, Hall.
        split; [lia | reflexivity].
    + intros [Hlen Hall]. destruct x as [|c x].
      * apply MAltL. constructor.
      * cbn in Hlen, Hall. apply andb_prop in Hall as [Hp Hall].
        apply MAltR. change (String c x) with (String c "" ++ x).
        constructor; [constructor; exact Hp | apply IH; split; [lia | exact Hall]].
Qed.

Lemma Matches_between_chars (p : ascii -> bool) (m n : nat) (x : string) :
  m <= n ->
  Matches (between m n (Chars p)) x
  <-> (m <= String.length x <= n /\ Text.all_chars p x = true).
Proof.
  revert n x. induction m as [|m IH]; intros n x Hmn; cbn [between].
  - rewrite Matches_upto_chars. split; intros [H1 H2]; (split; [lia | exact H2]).
  - destruct n as [|n]; [lia|]. cbn [Nat.pred]. split.
    + intros H. inversion H as [| |r s x1 x2 Hc Hrest| | | |]; subst.
      apply Matches_Chars in Hc as (c & -> & Hp).
      apply IH in Hrest as [Hlen Hall]; [|lia]. cbn. rewrite Hp, Hall.
      split; [lia | reflexivity].
    + intros [Hlen Hall]. destruct x as [|c x]; [cbn in Hlen; lia|].
      cbn in Hlen, Hall. apply andb_prop in Hall as [Hp Hall].
      change (String c x) with (String c "" ++ x).
      constructor; [constructor; exact Hp|].
      apply IH; [lia|]. split; [lia | exact Hall].
Qed.

(** The concatenation of strings. *)
Lemma Matches_upto (r : t) (n : nat) (x : string) :
  Matches (upto n r) x
  <-> exists parts, length parts <= n /\ Forall (Matches r) parts
                    /\ x = fold_right append "" parts.
Proof.
  revert x. induction n as [|n IH]; intros x; cbn [upto].
  - split.
    + intros H. inversion H; subst. exists []. repeat split; constructor.
    + intros (parts & Hlen & _ & ->). destruct parts; [constructor | cbn in Hlen; lia].
  - split.
    + intros H. inversion H as [| | |r1 s1 x' H1|r1 s1 x' H1| |]; subst.
      * inversion H1; subst. exists []. repeat split; [cbn; lia | constructor].
      * inversion H1 as [| |r1 s1 x1 x2 Hr Hrest| | | |]; subst.
        apply IH in Hrest as (parts & Hlen & Hall & ->).
        exists (x1 :: parts). repeat split; [cbn; lia | constructor; assumption].
    + intros (parts & Hlen & Hall & ->). destruct parts as [|part parts].
      * apply MAltL. constructor.
      * apply Forall_cons_1 in Hall as [Hpart Hall]. apply MAltR. cbn [fold_right].
        constructor; [exact Hpart|]. apply IH. exists parts.
        repeat split; [cbn in Hlen; lia | exact Hall].
Qed.

Lemma Matches_between (r : t) (m n : nat) (x : string) :
  m <= n ->
  Matches (between m n r) x
  <-> exists parts, m <= length parts <= n /\ Forall (Matches r) parts
                    /\ x = fold_right append "" parts.
Proof.
  revert n x. induction m as [|m IH]; intros n x Hmn; cbn [between].
  - rewrite Matches_upto. split; intros (parts & H1 & H2 & H3);
      exists parts; (repeat split; [lia.. | exact H2 | exact H3]).
  - destruct n as [|n]; [lia|]. cbn [Nat.pred]. split.
    + intros H. inversion H as [| |r1 s1 x1 x2 Hr Hrest| | | |]; subst.
      apply IH in Hrest as (parts & Hlen & Hall & ->); [|lia].
      exists (x1 :: parts). repeat split; [cbn; lia.. | constructor; assumption].
    + intros (parts & Hlen & Hall & ->). destruct parts as [|part parts];
        [cbn in Hlen; lia|].
      apply Forall_cons_1 in Hall as [Hpart Hall]. cbn [fold_right].
      constructor; [exact Hpart|]. apply IH; [lia|]. exists parts.
      repeat split; [cbn in Hlen; lia.. | exact Hall].
Qed.

(** A search for one character class finds a character of the class. *)
Lemma Matches_any_star (x : string) : Matches (Star (Chars (fun _ => true))) x.
Proof.
  induction x as [|c x IH]; [constructor|].
  change (String c x) with (String c "" ++ x).
  constructor; [constructor; reflexivity | exact IH].
Qed.

Lemma search_chars (p : ascii -> bool) (x : string) :
  search (Chars p) x = negb (Text.all_chars (fun c => negb (p c)) x).
Proof.
  apply eq_true_iff_eq. unfold search. rewrite test_spec, negb_true_iff. split.
  - intros H. inversion H as [| |r s x1 x2 _ H2| | | |]; subst.
    inversion H2 as [| |r s y1 y2 Hc _| | | |]; subst.
    apply Matches_Chars in Hc as (c & -> & Hp).
    clear H H2. change (String c "" ++ y2) with (String c y2).
    induction x1 as [|a x1 IH]; cbn.
    + rewrite Hp. reflexivity.
    + rewrite IH. apply andb_false_r.
  - intros Hsome. induction x as [|c x IH]; [discriminate|].
    cbn in Hsome. destruct (p c) eqn:Hp.
    + change (String c x) with ("" ++ (String c "" ++ x)).
      constructor; [constructor|].
      constructor; [constructor; exact Hp | apply Matches_any_star].
    + cbn in Hsome. specialize (IH Hsome).
      inversion IH as [| |r s x1 x2 H1 H2| | | |]; subst.
      change (String c (x1 ++ x2)) with ((String c "" ++ x1) ++ x2).
      constructor; [|exact H2].
      constructor; [constructor; reflexivity | exact H1].
Qed.

End RegexTheory.

(** ** Splitting and joining *)

Section SplitJoin.
Import Strings.Ascii Text.
Local Open Scope string_scope.
Local Open Scope nat_scope.
#[local] Arguments String.append !s1 s2 : simpl nomatch.
Variable sep : ascii.
#[local] Abbreviation free_of := (AddressSpec.free_of sep).

Lemma split_nonempty (s : string) : split sep s <> [].
Proof.
  destruct s as [|c s]; cbn; [discriminate|].
  destruct (Strings.Ascii.eqb c sep); [discriminate|].
  destruct (split sep s); discriminate.
Qed.

Lemma join_cons (part : string) (parts : list string) :
  parts <> [] -> join sep (part :: parts) = part ++ String sep (join sep parts).
Proof. destruct parts; [intros H; contradiction H; reflexivity | reflexivity]. Qed.

(** Joining what a split gave returns the string. *)
Lemma join_split (s : string) : join sep (split sep s) = s.
Proof.
  induction s as [|c s IH]; [reflexivity|]. cbn [split].
  pose proof (split_nonempty s) as Hne.
  destruct (Strings.Ascii.eqb_spec c sep) as [->|Hc].
  - rewrite join_cons by exact Hne. rewrite IH. reflexivity.
  - destruct (split sep s) as [|part parts]; [contradiction Hne; reflexivity|].
    destruct parts as [|part' parts].
    + cbn in IH |- *. rewrite IH. reflexivity.
    + rewrite join_cons in IH |- * by discriminate.
      change (String c (part ++ String sep (join sep (part' :: parts)))
              = String c s).
      rewrite IH. reflexivity.
Qed.

Lemma split_free (s : string) : Forall free_of (split sep s).
Proof.
  induction s as [|c s IH]; cbn [split].
  - constructor; [reflexivity | constructor].
  - destruct (Strings.Ascii.eqb c sep) eqn:Hc.
    + constructor; [reflexivity | exact IH].
    + destruct (split sep s) as [|part parts].
      * constructor; [|constructor]. unfold AddressSpec.free_of. cbn. rewrite Hc. reflexivity.
      * apply Forall_cons_1 in IH as [Hpart Hparts]. constructor; [|exact Hparts].
        unfold AddressSpec.free_of in *. cbn. rewrite Hc, Hpart. reflexivity.
Qed.

Lemma split_free_id (x : string) : free_of x -> split sep x = [x].
Proof.
  unfold AddressSpec.free_of. induction x as [|c x IH]; cbn; intros H; [reflexivity|].
  apply andb_prop in H as [Hc Hx]. apply negb_true_iff in Hc. rewrite Hc.
  rewrite (IH Hx). reflexivity.
Qed.

Lemma split_app_sep (x y : string) :
  free_of x -> split sep (x ++ String sep y) = x :: split sep y.
Proof.
  unfold AddressSpec.free_of. induction x as [|c x IH]; cbn; intros H.
  - rewrite Strings.Ascii.eqb_refl. reflexivity.
  - apply andb_prop in H as [Hc Hx]. apply negb_true_iff in Hc. rewrite Hc.
    rewrite (IH Hx). reflexivity.
Qed.

(** Splitting what a join gave returns the parts, when none holds the
    separator. *)
Lemma split_join (parts : list string) :
  parts <> [] -> Forall free_of parts -> split sep (join sep parts) = parts.
Proof.
  induction parts as [|part parts IH]; intros Hne Hfree;
    [contradiction Hne; reflexivity|].
  apply Forall_cons_1 in Hfree as [Hpart Hparts].
  destruct parts as [|part' parts].
  - apply split_free_id, Hpart.
  - rewrite join_cons by discriminate. rewrite split_app_sep by exact Hpart.
    rewrite IH; [reflexivity | discriminate | exact Hparts].
Qed.

Lemma all_chars_app (p : ascii -> bool) (x y : string) :
  all_chars p (x ++ y) = all_chars p x && all_chars p y.
Proof.
  induction x as [|c x IH]; cbn; [reflexivity|].
  rewrite IH. apply andb_assoc.
Qed.

Lemma all_chars_impl (p q : ascii -> bool) (x : string) :
  (forall c, p c = true -> q c = true) ->
  all_chars p x = true -> all_chars q x = true.
Proof.
  intros Hpq. induction x as [|c x IH]; cbn; [reflexivity|].
  intros H. apply andb_prop in H as [Hc Hx]. rewrite (Hpq c Hc), (IH Hx).
  reflexivity.
Qed.

Lemma all_chars_join (p : ascii -> bool) (parts : list string) :
  p sep = true -> Forall (fun x => all_chars p x = true) parts ->
  all_chars p (join sep parts) = true.
Proof.
  intros Hsep. induction 1 as [|part parts Hpart Hparts IH]; [reflexivity|].
  destruct parts as [|part' parts]; [exact Hpart|].
  rewrite join_cons by discriminate. rewrite all_chars_app. cbn [all_chars].
  rewrite Hpart, Hsep, IH. reflexivity.
Qed.

(** The parts but the last, each followed by the separator, then the last. *)
Lemma join_snoc (groups : list string) (last : string) :
  join sep (groups ++ [last])
  = fold_right append "" (map (fun g => g ++ String sep "") groups) ++ last.
Proof.
  induction groups as [|g groups IH]; [reflexivity|].
  cbn [app map fold_right]. rewrite join_cons by (destruct groups; discriminate).
  rewrite IH, !append_assoc. reflexivity.
Qed.

End SplitJoin.

(** ** The two expressions of [isValidIp] *)

Section Groups.
Import Strings.Ascii Text Regex AddressSpec.
Local Open Scope string_scope.
Local Open Scope nat_scope.
#[local] Arguments String.append !s1 s2 : simpl nomatch.

Variable p : ascii -> bool.
Variable sep : ascii.
Variables lo hi m n : nat.
Hypothesis class_excludes_sep : p sep = false.
Hypothesis lo_le_hi : lo <= hi.
Hypothesis m_le_n : m <= n.

#[local] Abbreviation grouped := (AddressSpec.grouped p sep lo hi m n).

Lemma group_ok_spec (g : string) :
  group_ok p lo hi g = true <-> Matches (between lo hi (Chars p)) g.
Proof.
  rewrite Matches_between_chars by exact lo_le_hi. unfold group_ok.
  rewrite !andb_true_iff, !Nat.leb_le. tauto.
Qed.

Lemma group_free (g : string) : group_ok p lo hi g = true -> free_of sep g.
Proof.
  unfold group_ok, free_of. rewrite !andb_true_iff. intros [_ Hall].
  revert Hall. apply all_chars_impl. intros c Hc.
  destruct (Strings.Ascii.eqb_spec c sep) as [->|_]; [|reflexivity].
  rewrite class_excludes_sep in Hc. discriminate.
Qed.

Lemma Matches_group_sep (x : string) :
  Matches (Seq (between lo hi (Chars p)) (Chr sep)) x
  <-> exists g, group_ok p lo hi g = true /\ x = g ++ String sep "".
Proof.
  split.
  - intros H. inversion H as [| |r s g y Hg Hsep| | | |]; subst.
    apply Matches_Chars in Hsep as (c & -> & Hc).
    apply Strings.Ascii.eqb_eq in Hc. subst c.
    exists g. split; [apply group_ok_spec, Hg | reflexivity].
  - intros (g & Hg & ->). constructor; [apply group_ok_spec, Hg|].
    constructor. apply Strings.Ascii.eqb_refl.
Qed.

Lemma Matches_groups (parts : list string) :
  Forall (Matches (Seq (between lo hi (Chars p)) (Chr sep))) parts
  <-> exists groups,
        Forall (fun g => group_ok p lo hi g = true) groups
        /\ parts = map (fun g => g ++ String sep "") groups.
Proof.
  split.
  - induction 1 as [|part parts Hpart _ (groups & Hgroups & ->)].
    + exists []. split; constructor.
    + apply Matches_group_sep in Hpart as (g & Hg & ->).
      exists (g :: groups). split; [constructor; assumption | reflexivity].
  - intros (groups & Hgroups & ->).
    induction Hgroups as [|g groups Hg _ IH]; cbn [map]; constructor;
      [apply Matches_group_sep; eauto | exact IH].
Qed.

(** The expression matches exactly the strings that split into [m+1] to
    [n+1] groups. *)
Lemma test_grouped (s : string) :
  test grouped s = groups_ok p lo hi (S m) (S n) sep s.
Proof.
  apply eq_true_iff_eq. rewrite test_spec. unfold AddressSpec.grouped, groups_ok. split.
  - intros H. inversion H as [| |r1 r2 x last Hx Hlast| | | |]; subst.
    apply Matches_between in Hx as (parts & Hlen & Hparts & ->); [|exact m_le_n].
    apply Matches_groups in Hparts as (groups & Hgroups & ->).
    apply group_ok_spec in Hlast.
    rewrite <- join_snoc.
    assert (Hall : Forall (fun g => group_ok p lo hi g = true) (groups ++ [last]))
      by (apply Forall_app; split; [exact Hgroups | constructor; [exact Hlast | constructor]]).
    rewrite split_join;
      [| destruct groups; discriminate
       | eapply Forall_impl; [exact Hall | intros g Hg; apply group_free, Hg]].
    rewrite length_map in Hlen. rewrite length_app. cbn [length].
    rewrite !andb_true_iff, !Nat.leb_le. split; [lia|].
    apply forallb_forall. intros g Hg.
    rewrite Forall_forall in Hall. apply Hall, list_elem_of_In, Hg.
  - rewrite !andb_true_iff, !Nat.leb_le. intros [[Hm Hn] Hall].
    rewrite <- (join_split sep s).
    destruct (exists_last (split_nonempty sep s)) as (groups & last & Hsplit).
    rewrite Hsplit in *. rewrite length_app in Hm, Hn. cbn [length] in Hm, Hn.
    rewrite join_snoc. rewrite forallb_app in Hall.
    apply andb_prop in Hall as [Hgroups Hlast]. cbn in Hlast.
    rewrite andb_true_r in Hlast.
    constructor; [|apply group_ok_spec, Hlast].
    apply Matches_between; [exact m_le_n|].
    exists (map (fun g => g ++ String sep "") groups).
    rewrite length_map. split; [lia|]. split; [|reflexivity].
    apply Matches_groups. exists groups. split; [|reflexivity].
    apply Forall_forall. intros g Hg. rewrite forallb_forall in Hgroups.
    apply Hgroups, list_elem_of_In, Hg.
Qed.

End Groups.

(** ** The addresses [isValidIp] accepts *)

Section ValidAddress.
Import Strings.Ascii Text Regex Address AddressSpec.
Local Open Scope string_scope.
Local Open Scope Z_scope.
#[local] Arguments String.append !s1 s2 : simpl nomatch.

Lemma test_ipv4Regex (ip : string) :
  test ipv4Regex ip = groups_ok is_digit 1 3 4 4 "." ip.
Proof.
  apply (test_grouped is_digit "." 1 3 3 3); [reflexivity | lia | lia].
Qed.

Lemma test_ipv6Regex (ip : string) : test ipv6Regex ip = colon_groups ip.
Proof.
  apply (test_grouped is_hex ":" 0 4 2 7); [reflexivity | lia | lia].
Qed.

(** A digit is no letter, no dot, no sign and no white space. *)
Lemma digit_class (c : ascii) :
  is_digit c = true ->
  is_letter c = false /\ is_space c = false
  /\ Strings.Ascii.eqb c "." = false
  /\ Strings.Ascii.eqb c "-" = false /\ Strings.Ascii.eqb c "+" = false.
Proof.
  destruct c as [[] [] [] [] [] [] [] []]; vm_compute; intros H;
    try discriminate H; repeat split.
Qed.

Lemma leading_digits_nonneg (x : string) (acc : Z) :
  0 <= acc -> 0 <= leading_digits acc x.
Proof.
  revert acc. induction x as [|c x IH]; intros acc Hacc; cbn; [exact Hacc|].
  destruct (is_digit c); [apply IH; lia | exact Hacc].
Qed.

(** On a string that starts with a digit [parseInt] reads the leading
    digits. *)
Lemma parseInt_digit (c : ascii) (x : string) :
  is_digit c = true ->
  parseInt (String c x) = Some (leading_digits 0 (String c x)).
Proof.
  intros Hc. destruct (digit_class c Hc) as (_ & Hspace & _ & Hminus & Hplus).
  unfold parseInt. cbn [trimStart]. rewrite Hspace.
  assert (Hsign : (let '(sign, s) :=
                     match String c x with
                     | String "-" rest => (-1, rest)
                     | String "+" rest => (1, rest)
                     | _ => (1, String c x)
                     end in
                   match s with
                   | String c0 _ =>
                       if is_digit c0 then Some (sign * leading_digits 0 s) else None
                   | "" => None
                   end)
                  = (if is_digit c then Some (1 * leading_digits 0 (String c x))
                     else None)).
  { destruct c as [[] [] [] [] [] [] [] []]; try reflexivity;
      try discriminate Hminus; discriminate Hplus. }
  rewrite Hsign, Hc, Z.mul_1_l. reflexivity.
Qed.

Lemma octet_check (x : string) :
  group_ok is_digit 1 3 x = true ->
  match parseInt x with
  | Some num => (num >=? 0) && (num <=? 255)
  | None => false
  end
  = (leading_digits 0 x <=? 255).
Proof.
  unfold group_ok. rewrite !andb_true_iff, !Nat.leb_le. intros [[Hlo _] Hall].
  destruct x as [|c x]; [cbn in Hlo; lia|].
  cbn in Hall. apply andb_prop in Hall as [Hc _].
  rewrite (parseInt_digit c x Hc).
  pose proof (leading_digits_nonneg (String c x) 0 (Z.le_refl 0)) as Hpos.
  assert (Hge : (leading_digits 0 (String c x) >=? 0) = true)
    by (rewrite Z.geb_leb; apply Z.leb_le; exact Hpos).
  rewrite Hge. reflexivity.
Qed.

Lemma octets_check (octets : list string) :
  forallb (group_ok is_digit 1 3) octets = true ->
  forallb
    (fun octet =>
       match parseInt octet with
       | Some num => (num >=? 0) && (num <=? 255)
       | None => false
       end)
    octets
  = forallb (fun octet => leading_digits 0 octet <=? 255) octets.
Proof.
  induction octets as [|x octets IH]; cbn [forallb]; [reflexivity|].
  intros H. apply andb_prop in H as [Hx Hrest].
  rewrite (octet_check x Hx), (IH Hrest). reflexivity.
Qed.

(** A string of colon groups holds hexadecimal digits and colons only. *)
Lemma colon_groups_chars (ip : string) :
  colon_groups ip = true ->
  all_chars (fun c => is_hex c || Strings.Ascii.eqb c ":") ip = true.
Proof.
  unfold colon_groups, groups_ok. rewrite !andb_true_iff. intros [_ Hall].
  rewrite <- (join_split ":" ip). apply all_chars_join; [reflexivity|].
  apply Forall_forall. intros g Hg. rewrite forallb_forall in Hall.
  apply list_elem_of_In, Hall in Hg. unfold group_ok in Hg.
  apply andb_prop in Hg as [_ Hg]. revert Hg. apply all_chars_impl.
  intros c Hc. rewrite Hc. reflexivity.
Qed.

Lemma dotted_not_colon (ip : string) :
  groups_ok is_digit 1 3 4 4 "." ip = true -> colon_groups ip = false.
Proof.
  intros Hdots. destruct (colon_groups ip) eqn:Hcolons; [|reflexivity].
  apply colon_groups_chars in Hcolons.
  assert (Hfree : free_of "." ip).
  { revert Hcolons. apply all_chars_impl. intros c Hc.
    destruct (Strings.Ascii.eqb_spec c ".") as [->|_]; [discriminate Hc | reflexivity]. }
  unfold groups_ok in Hdots. rewrite (split_free_id "." ip Hfree) in Hdots.
  discriminate Hdots.
Qed.

Lemma isValidIp_shapes (ip : string) :
  isValidIp ip = loopback ip || dotted_quad ip || colon_groups ip.
Proof.
  unfold isValidIp.
  destruct (String.eqb_spec ip "") as [->|_]; [reflexivity|].
  destruct (String.eqb_spec ip "unknown") as [->|_]; [reflexivity|].
  destruct (String.eqb_spec ip "undefined") as [->|_]; [reflexivity|].
  cbn [orb]. fold (loopback ip).
  destruct (loopback ip); [reflexivity|]. cbn [orb].
  rewrite test_ipv4Regex, test_ipv6Regex. unfold dotted_quad.
  destruct (groups_ok is_digit 1 3 4 4 "." ip) eqn:Hdots; [|reflexivity].
  rewrite (dotted_not_colon ip Hdots), orb_false_r. cbn [andb].
  apply octets_check. unfold groups_ok in Hdots.
  apply andb_prop in Hdots as [_ Hall]. exact Hall.
Qed.

(** The strings [isValidIp] accepts are the three loopback names, the
    dotted quads of octets up to 255, and the strings of three to eight
    colon-separated groups of at most four hexadecimal digits. *)
Theorem isValidIp_accepts (ip : string) :
  isValidIp ip = loopback ip || dotted_quad ip || colon_groups ip.
Proof. exact (isValidIp_shapes ip). Qed.

(** Printing an octet and reading it back. *)
Lemma decimal_octet (n : nat) :
  (n < 256)%nat ->
  group_ok is_digit 1 3 (decimal n) = true
  /\ parseInt (decimal n) = Some (Z.of_nat n)
  /\ leading_digits 0 (decimal n) = Z.of_nat n.
Proof.
  intros Hn.
  assert (Hall : forallb
                   (fun k =>
                      group_ok is_digit 1 3 (decimal k)
                      && match parseInt (decimal k) with
                         | Some z => z =? Z.of_nat k
                         | None => false
                         end
                      && (leading_digits 0 (decimal k) =? Z.of_nat k))
                   (List.seq 0 256) = true) by (vm_compute; reflexivity).
  rewrite forallb_forall in Hall.
  specialize (Hall n). rewrite in_seq in Hall.
  specialize (Hall ltac:(lia)). rewrite !andb_true_iff in Hall.
  destruct Hall as [[Hgroup Hparse] Hlead]. split; [exact Hgroup|].
  split; [|apply Z.eqb_eq, Hlead].
  destruct (parseInt (decimal n)) as [z|]; [|discriminate].
  apply Z.eqb_eq in Hparse. rewrite Hparse. reflexivity.
Qed.

(** Every dotted quad of numbers below 256, printed in decimal, is a valid
    address, and its octets read back as the numbers. *)
Theorem every_dotted_quad_is_valid (a b c d : nat) :
  (a < 256)%nat -> (b < 256)%nat -> (c < 256)%nat -> (d < 256)%nat ->
  let ip := join "." [decimal a; decimal b; decimal c; decimal d] in
  isValidIp ip = true
  /\ map parseInt (split "." ip)
     = [Some (Z.of_nat a); Some (Z.of_nat b); Some (Z.of_nat c); Some (Z.of_nat d)].
Proof.
  intros Ha Hb Hc Hd ip.
  destruct (decimal_octet a Ha) as (Ga & Pa & La).
  destruct (decimal_octet b Hb) as (Gb & Pb & Lb).
  destruct (decimal_octet c Hc) as (Gc & Pc & Lc).
  destruct (decimal_octet d Hd) as (Gd & Pd & Ld).
  assert (Hsplit : split "." ip = [decimal a; decimal b; decimal c; decimal d]).
  { apply split_join; [discriminate|].
    repeat (constructor;
            [eapply (group_free is_digit "." 1 3); [reflexivity | eassumption]|]).
    constructor. }
  split.
  - rewrite isValidIp_shapes. unfold dotted_quad, groups_ok. rewrite Hsplit.
    cbn [length forallb Nat.leb andb]. rewrite Ga, Gb, Gc, Gd, La, Lb, Lc, Ld.
    cbn [andb].
    assert (H255 : forall k, (k < 256)%nat -> (Z.of_nat k <=? 255) = true)
      by (intros k Hk; apply Z.leb_le; lia).
    rewrite !H255 by assumption. cbn [andb]. rewrite orb_true_r. reflexivity.
  - rewrite Hsplit. cbn [map]. rewrite Pa, Pb, Pc, Pd. reflexivity.
Qed.

Lemma every_dotted_quad_is_valid_witness :
  isValidIp "45.146.81.208" = true
  /\ map parseInt (split "." "45.146.81.208")
     = [Some 45; Some 146; Some 81; Some 208].
Proof.
  apply (every_dotted_quad_is_valid 45 146 81 208); lia.
Defined.

End ValidAddress.

(** ** The client address *)

Section ClientAddress.
Import Strings.Ascii Text Regex Address AddressSpec.
Local Open Scope string_scope.
#[local] Arguments String.append !s1 s2 : simpl nomatch.

Lemma scan_cons (headers : Headers) (header : string) (rest : list string) :
  scan headers (header :: rest)
  = match candidate headers header with
    | Some ip => Some ip
    | None => scan headers rest
    end.
Proof.
  cbn [scan]. unfold candidate. destruct (headers header) as [value|]; [|reflexivity].
  destruct (String.eqb value ""); [reflexivity|].
  destruct (isValidIp (first_entry value)); reflexivity.
Qed.

Lemma candidate_valid (headers : Headers) (header ip : string) :
  candidate headers header = Some ip -> isValidIp ip = true.
Proof.
  unfold candidate. destruct (headers header) as [value|]; [|discriminate].
  destruct (String.eqb value ""); [discriminate|].
  destruct (isValidIp (first_entry value)) eqn:Hvalid; [|discriminate].
  intros H. injection H as <-. exact Hvalid.
Qed.

Lemma scan_valid (headers : Headers) (names : list string) (ip : string) :
  scan headers names = Some ip -> isValidIp ip = true.
Proof.
  induction names as [|header rest IH]; [discriminate|].
  rewrite scan_cons. destruct (candidate headers header) as [ip'|] eqn:E.
  - intros H. injection H as <-. exact (candidate_valid _ _ _ E).
  - exact IH.
Qed.

Lemma scan_app (headers : Headers) (before rest : list string) :
  Forall (fun header => candidate headers header = None) before ->
  scan headers (before ++ rest)%list = scan headers rest.
Proof.
  induction 1 as [|header before Hnone _ IH]; [reflexivity|].
  cbn [app]. rewrite scan_cons, Hnone. exact IH.
Qed.

(** What [getClientIp] returns is a valid address, or the string that says
    that none was detected, which is not one. *)
Theorem getClientIp_valid_or_not_detected (headers : Headers) :
  isValidIp NOT_DETECTED = false
  /\ (isValidIp (getClientIp headers) = true
      \/ getClientIp headers = NOT_DETECTED).
Proof.
  split; [vm_compute; reflexivity|]. unfold getClientIp.
  destruct (scan headers ipHeaders) as [ip|] eqn:Hscan.
  - left. exact (scan_valid _ _ _ Hscan).
  - destruct (headers "forwarded") as [forwarded|]; [|right; reflexivity].
    destruct (match_for forwarded) as [capture|]; [|right; reflexivity].
    destruct (isValidIp (drop_close_bracket (drop_open_bracket capture))) eqn:Hvalid;
      [left; exact Hvalid | right; reflexivity].
Qed.

(** The headers are trusted in the order of the list: the first one whose
    first entry is a valid address gives the answer, whatever the headers
    after it hold. *)
Theorem first_valid_header_wins
    (headers : Headers) (before after : list string) (header ip : string) :
  ipHeaders = (before ++ header :: after)%list ->
  Forall (fun earlier => candidate headers earlier = None) before ->
  candidate headers header = Some ip ->
  getClientIp headers = ip.
Proof.
  intros Hlist Hbefore Hheader. unfold getClientIp.
  rewrite Hlist, (scan_app headers before _ Hbefore), scan_cons, Hheader.
  reflexivity.
Qed.

Lemma first_valid_header_wins_cloudflare :
  getClientIp HeaderScenarios.behind_cloudflare = "198.51.100.7".
Proof.
  apply (first_valid_header_wins HeaderScenarios.behind_cloudflare []
           (tl ipHeaders) "cf-connecting-ip").
  - reflexivity.
  - constructor.
  - vm_compute. reflexivity.
Defined.

(** Without any of the headers of the list no address is detected. *)
Theorem no_header_no_address (headers : Headers) :
  no_address_header headers -> getClientIp headers = NOT_DETECTED.
Proof.
  intros Hnone. unfold getClientIp.
  assert (Hscan : forall names,
             (forall header, In header names -> In header ipHeaders) ->
             scan headers names = None).
  { induction names as [|header rest IH]; intros Hin; [reflexivity|].
    rewrite scan_cons. unfold candidate.
    rewrite (Hnone header) by (apply Hin; left; reflexivity).
    apply IH. intros h Hh. apply Hin. right. exact Hh. }
  rewrite (Hscan ipHeaders) by (intros h Hh; exact Hh).
  rewrite (Hnone "forwarded"); [reflexivity|].
  unfold ipHeaders. repeat (try (left; reflexivity); right).
Qed.

Lemma no_header_no_address_bare : getClientIp HeaderScenarios.bare = NOT_DETECTED.
Proof.
  apply (no_header_no_address HeaderScenarios.bare). intros header _. reflexivity.
Defined.

End ClientAddress.

(** ** Entries of a forwarding list, and the server mask *)

Section Entries.
Import Strings.Ascii Text Regex Address AddressSpec.
Local Open Scope string_scope.
#[local] Arguments String.append !s1 s2 : simpl nomatch.

Lemma address_char_class (c : ascii) :
  address_char c = true ->
  is_space c = false /\ Strings.Ascii.eqb c "," = false.
Proof.
  destruct c as [[] [] [] [] [] [] [] []]; vm_compute; intros H;
    try discriminate H; split; reflexivity.
Qed.

Lemma space_class (c : ascii) :
  is_space c = true -> Strings.Ascii.eqb c "," = false.
Proof.
  destruct c as [[] [] [] [] [] [] [] []]; vm_compute; intros H;
    try discriminate H; reflexivity.
Qed.

(** A valid address is not empty and is made of hexadecimal digits,
    letters, dots and colons. *)
Lemma valid_address_chars (ip : string) :
  isValidIp ip = true -> ip <> "" /\ all_chars address_char ip = true.
Proof.
  intros Hvalid. split; [intros ->; discriminate Hvalid|].
  rewrite isValidIp_shapes in Hvalid.
  apply orb_prop in Hvalid as [Hvalid|Hcolon].
  - apply orb_prop in Hvalid as [Hloop|Hdots].
    + unfold loopback in Hloop.
      repeat (apply orb_prop in Hloop as [Hloop|Hloop]);
        apply String.eqb_eq in Hloop; subst ip; reflexivity.
    + unfold dotted_quad, groups_ok in Hdots.
      rewrite !andb_true_iff in Hdots. destruct Hdots as [[_ Hall] _].
      rewrite <- (join_split "." ip). apply all_chars_join; [reflexivity|].
      apply Forall_forall. intros g Hg. rewrite forallb_forall in Hall.
      apply list_elem_of_In, Hall in Hg. unfold group_ok in Hg.
      apply andb_prop in Hg as [_ Hg]. revert Hg. apply all_chars_impl.
      intros c Hc. unfold address_char, is_hex. rewrite Hc. reflexivity.
  - apply colon_groups_chars in Hcolon. revert Hcolon. apply all_chars_impl.
    intros c Hc. unfold address_char.
    apply orb_prop in Hc as [Hc|Hc]; rewrite Hc; cbn;
      rewrite ?orb_true_r; reflexivity.
Qed.

Lemma trimStart_spaces (pad y : string) :
  all_chars is_space pad = true -> trimStart (pad ++ y) = trimStart y.
Proof.
  induction pad as [|c pad IH]; cbn; intros H; [reflexivity|].
  apply andb_prop in H as [Hc Hpad]. rewrite Hc. exact (IH Hpad).
Qed.

Lemma trimEnd_spaces (pad : string) :
  all_chars is_space pad = true -> trimEnd pad = "".
Proof.
  induction pad as [|c pad IH]; cbn; intros H; [reflexivity|].
  apply andb_prop in H as [Hc Hpad]. rewrite (IH Hpad), Hc. reflexivity.
Qed.

Lemma trimEnd_app_spaces (x pad : string) :
  all_chars is_space pad = true -> trimEnd (x ++ pad) = trimEnd x.
Proof.
  intros Hpad. induction x as [|c x IH]; cbn.
  - apply trimEnd_spaces, Hpad.
  - rewrite IH. reflexivity.
Qed.

Lemma trimEnd_id (x : string) :
  all_chars (fun c => negb (is_space c)) x = true -> trimEnd x = x.
Proof.
  induction x as [|c x IH]; cbn; intros H; [reflexivity|].
  apply andb_prop in H as [Hc Hx]. apply negb_true_iff in Hc.
  rewrite (IH Hx), Hc. destruct x; reflexivity.
Qed.

(** Trimming removes the white space around a string that holds none. *)
Lemma trim_padded (pad1 pad2 x : string) :
  all_chars is_space pad1 = true -> all_chars is_space pad2 = true ->
  all_chars (fun c => negb (is_space c)) x = true ->
  trim (pad1 ++ x ++ pad2) = x.
Proof.
  intros H1 H2 Hx. unfold trim. rewrite (trimStart_spaces pad1 _ H1).
  destruct x as [|c x].
  - cbn. rewrite <- (append_nil_r pad2), (trimStart_spaces pad2 "" H2).
    reflexivity.
  - pose proof Hx as Hx'. cbn in Hx'. apply andb_prop in Hx' as [Hc _].
    apply negb_true_iff in Hc. cbn [append trimStart]. rewrite Hc.
    change (String c (x ++ pad2)) with (String c x ++ pad2).
    rewrite (trimEnd_app_spaces _ pad2 H2). apply trimEnd_id, Hx.
Qed.

Lemma first_entry_padded (pad1 pad2 ip tail : string) :
  isValidIp ip = true ->
  all_chars is_space pad1 = true -> all_chars is_space pad2 = true ->
  tail = "" \/ (exists rest, tail = String "," rest) ->
  first_entry (pad1 ++ ip ++ pad2 ++ tail) = ip.
Proof.
  intros Hvalid H1 H2 Htail.
  destruct (valid_address_chars ip Hvalid) as [_ Hchars].
  assert (Hnospace : all_chars (fun c => negb (is_space c)) ip = true).
  { revert Hchars. apply all_chars_impl. intros c Hc.
    destruct (address_char_class c Hc) as [Hs _]. rewrite Hs. reflexivity. }
  assert (Hfree : free_of "," (pad1 ++ ip ++ pad2)).
  { unfold free_of. rewrite !all_chars_app.
    rewrite (all_chars_impl is_space _ pad1), (all_chars_impl is_space _ pad2),
      (all_chars_impl address_char _ ip); try assumption; try reflexivity;
      intros c Hc; rewrite ?(space_class c Hc); try reflexivity;
      destruct (address_char_class c Hc) as [_ Hcomma]; rewrite Hcomma;
      reflexivity. }
  unfold first_entry.
  replace (pad1 ++ ip ++ pad2 ++ tail) with ((pad1 ++ ip ++ pad2) ++ tail)
    by (rewrite !append_assoc; reflexivity).
  destruct Htail as [-> | (rest & ->)].
  - rewrite append_nil_r, (split_free_id "," _ Hfree). cbn [hd].
    apply trim_padded; assumption.
  - rewrite (split_app_sep "," _ rest Hfree). cbn [hd].
    apply trim_padded; assumption.
Qed.

(** Of a forwarding list the first entry is the client: when the first
    header that is present holds a valid address, alone or followed by a
    comma and further entries, with white space around it or not, that
    address is returned. *)
Theorem first_entry_of_list_is_returned
    (headers : Headers) (before after : list string)
    (header pad1 pad2 ip tail : string) :
  ipHeaders = (before ++ header :: after)%list ->
  Forall (fun earlier => candidate headers earlier = None) before ->
  headers header = Some (pad1 ++ ip ++ pad2 ++ tail) ->
  isValidIp ip = true ->
  all_chars is_space pad1 = true -> all_chars is_space pad2 = true ->
  tail = "" \/ (exists rest, tail = String "," rest) ->
  getClientIp headers = ip.
Proof.
  intros Hlist Hbefore Hheader Hvalid H1 H2 Htail. unfold getClientIp.
  rewrite Hlist, (scan_app headers before _ Hbefore), scan_cons.
  unfold candidate. rewrite Hheader.
  rewrite (first_entry_padded pad1 pad2 ip tail Hvalid H1 H2 Htail), Hvalid.
  destruct (String.eqb_spec (pad1 ++ ip ++ pad2 ++ tail) "") as [Hempty|_];
    [|reflexivity].
  destruct (valid_address_chars ip Hvalid) as [Hne _].
  apply append_eq_nil in Hempty as [_ Hempty].
  apply append_eq_nil in Hempty as [Hempty _]. contradiction.
Qed.

Lemma first_entry_of_list_is_returned_proxied :
  getClientIp HeaderScenarios.proxied = "203.0.113.9".
Proof.
  apply (first_entry_of_list_is_returned HeaderScenarios.proxied
           ["cf-connecting-ip"] (tl (tl ipHeaders)) "x-forwarded-for"
           " " " " "203.0.113.9" ", 10.0.0.1").
  - reflexivity.
  - repeat constructor.
  - reflexivity.
  - vm_compute. reflexivity.
  - reflexivity.
  - reflexivity.
  - right. eexists. reflexivity.
Defined.

(** The mask of a dotted quad shows its third part and nothing else: it is
    the same for all the addresses that share that part. *)
Theorem mask_shows_third_octet_only (a b c d a' b' d' : string) :
  Forall (fun part => all_chars is_digit part = true) [a; b; c; d; a'; b'; d'] ->
  maskServerIp (join "." [a; b; c; d]) = "*.*." ++ c ++ ".*"
  /\ maskServerIp (join "." [a'; b'; c; d']) = maskServerIp (join "." [a; b; c; d]).
Proof.
  intros Hdigits.
  assert (Hmask : forall w x y z,
             Forall (fun part => all_chars is_digit part = true) [w; x; y; z] ->
             maskServerIp (join "." [w; x; y; z]) = "*.*." ++ y ++ ".*").
  { intros w x y z Hall. unfold maskServerIp. rewrite search_chars.
    assert (Hletters : all_chars (fun ch => negb (is_letter ch))
                                 (join "." [w; x; y; z]) = true).
    { apply all_chars_join; [reflexivity|].
      eapply Forall_impl; [exact Hall|]. intros part Hpart. cbn beta in Hpart.
      revert Hpart. apply all_chars_impl. intros ch Hch.
      destruct (digit_class ch Hch) as [Hl _]. rewrite Hl. reflexivity. }
    rewrite Hletters. cbn [negb].
    rewrite split_join; [reflexivity | discriminate |].
    eapply Forall_impl; [exact Hall|]. intros part Hpart. cbn beta in Hpart.
    revert Hpart. apply all_chars_impl. intros ch Hch.
    destruct (digit_class ch Hch) as (_ & _ & Hdot & _). rewrite Hdot. reflexivity. }
  rewrite Forall_forall in Hdigits.
  assert (Hin : forall part, In part [a; b; c; d; a'; b'; d'] ->
                             all_chars is_digit part = true)
    by (intros part Hpart; apply Hdigits, list_elem_of_In, Hpart).
  rewrite !Hmask; [split; reflexivity | |];
    repeat (constructor; [apply Hin; cbn; tauto|]); constructor.
Qed.

Lemma mask_shows_third_octet_only_server :
  maskServerIp RealProbe.SERVER_IP = maskServerIp_simulated
  /\ maskServerIp "10.0.81.1" = maskServerIp RealProbe.SERVER_IP.
Proof.
  exact (mask_shows_third_octet_only "45" "146" "81" "208" "10" "0" "1"
           ltac:(repeat constructor)).
Defined.

(** A string that holds a letter is returned as it is: a host name, but
    also an IPv6 address with a hexadecimal letter, is not masked. *)
Theorem names_are_not_masked (ip : string) :
  all_chars (fun c => negb (is_letter c)) ip = false -> maskServerIp ip = ip.
Proof.
  intros Hletter. unfold maskServerIp. rewrite search_chars, Hletter. reflexivity.
Qed.

Lemma names_are_not_masked_ipv6 :
  isValidIp "2001:db8::1" = true /\ maskServerIp "2001:db8::1" = "2001:db8::1".
Proof.
  split; [vm_compute; reflexivity|].
  apply (names_are_not_masked "2001:db8::1"). reflexivity.
Defined.

End Entries.

(** ** What the page shows *)

Section PageFacts.
Import RealProbe.
Local Open Scope Q_scope.

Lemma less_spec (x y : Q) : Page.less x y = true <-> x < y.
Proof.
  unfold Page.less. destruct (Qle_bool y x) eqn:E; cbn [negb].
  - apply Qle_bool_iff in E. split; [discriminate | lra].
  - split; [intros _ | reflexivity].
    apply Qnot_le_lt. intros Hle. apply Qle_bool_iff in Hle. congruence.
Qed.

Lemma less_false (x y : Q) : Page.less x y = false <-> y <= x.
Proof.
  unfold Page.less. destruct (Qle_bool y x) eqn:E; cbn [negb].
  - apply Qle_bool_iff in E. split; [intros _; exact E | reflexivity].
  - split; [discriminate|]. intros Hle. apply Qle_bool_iff in Hle. congruence.
Qed.

Lemma at_least_spec (x y : Q) : Page.at_least x y = true <-> y <= x.
Proof. apply Qle_bool_iff. Qed.

Lemma at_least_false (x y : Q) : Page.at_least x y = false <-> x < y.
Proof.
  unfold Page.at_least. destruct (Qle_bool y x) eqn:E.
  - apply Qle_bool_iff in E. split; [discriminate | lra].
  - split; [intros _ | reflexivity].
    apply Qnot_le_lt. intros Hle. apply Qle_bool_iff in Hle. congruence.
Qed.

Lemma Math_round_comp (x y : Q) : x == y -> Math_round x = Math_round y.
Proof.
  intros E. unfold Math_round. f_equal. apply Qfloor_comp. rewrite E. reflexivity.
Qed.

Lemma Math_round_integer (n : Z) : Math_round (inject_Z n) = inject_Z n.
Proof.
  unfold Math_round. f_equal. apply Z.le_antisymm.
  - pose proof (Qfloor_le (inject_Z n + (1 # 2))) as H.
    apply Z.lt_succ_r. rewrite Zlt_Qlt. unfold Z.succ. rewrite inject_Z_plus.
    change (inject_Z 1) with 1. lra.
  - rewrite <- (Qfloor_Z n) at 1. apply Qfloor_resp_le. lra.
Qed.

(** The panel and the card class a jitter alike: the same thresholds and
    the same colours; only the name of the worst class differs. *)
Theorem panel_and_card_class_jitter_alike (jitter : Q) :
  Page.color (Page.getJitterStatus jitter)
  = Page.color (Page.getJitterQuality jitter)
  /\ (Page.label (Page.getJitterStatus jitter)
      = Page.label (Page.getJitterQuality jitter)
      <-> jitter < 30).
Proof.
  unfold Page.getJitterStatus, Page.getJitterQuality.
  destruct (Page.less jitter 5) eqn:E5.
  { apply less_spec in E5. split; [reflexivity|].
    split; [intros _; lra | reflexivity]. }
  destruct (Page.less jitter 15) eqn:E15.
  { apply less_spec in E15. split; [reflexivity|].
    split; [intros _; lra | reflexivity]. }
  destruct (Page.less jitter 30) eqn:E30.
  { apply less_spec in E30. split; [reflexivity|].
    split; [intros _; exact E30 | reflexivity]. }
  apply less_false in E30. split; [reflexivity|].
  split; [intros H; vm_compute in H; discriminate | intros H; lra].
Qed.

(** *** The card of a port *)

Lemma successRate_five (r : PortTestResult) :
  packetsSent r = 5%Z ->
  Page.successRate r = inject_Z (20 * packetsReceived r).
Proof.
  intros Hsent. unfold Page.successRate. rewrite Hsent.
  change (5 >? 0)%Z with true. cbv iota.
  rewrite <- (Math_round_integer (20 * packetsReceived r)).
  apply Math_round_comp. rewrite inject_Z_mult. change (inject_Z 5) with 5.
  change (inject_Z 20) with 20. field.
Qed.

Lemma rateClass_five (r : PortTestResult) :
  packetsSent r = 5%Z ->
  Page.rateClass r
  = if (4 <=? packetsReceived r)%Z then "bg-success/20 text-success"%string
    else if (3 <=? packetsReceived r)%Z
         then "bg-yellow-500/20 text-yellow-500"%string
         else "bg-destructive/20 text-destructive"%string.
Proof.
  intros Hsent. unfold Page.rateClass. rewrite (successRate_five r Hsent).
  assert (Hcmp : forall k : Z,
             Page.at_least (inject_Z (20 * packetsReceived r)) (inject_Z (20 * k))
             = (k <=? packetsReceived r)%Z).
  { intros k. destruct (Z.leb_spec k (packetsReceived r)) as [H|H].
    - apply at_least_spec. rewrite <- Zle_Qle. lia.
    - apply at_least_false. rewrite <- Zlt_Qlt. lia. }
  change 80 with (inject_Z (20 * 4)). change 50 with (inject_Z 50).
  rewrite (Hcmp 4%Z).
  destruct (4 <=? packetsReceived r)%Z eqn:E4; [reflexivity|].
  destruct (Z.leb_spec 3 (packetsReceived r)) as [H|H].
  - assert (Hy : Page.at_least (inject_Z (20 * packetsReceived r)) (inject_Z 50)
                 = true)
      by (apply at_least_spec; rewrite <- Zle_Qle; lia).
    rewrite Hy. reflexivity.
  - assert (Hy : Page.at_least (inject_Z (20 * packetsReceived r)) (inject_Z 50)
                 = false)
      by (apply at_least_false; rewrite <- Zlt_Qlt; lia).
    rewrite Hy. reflexivity.
Qed.

(** The card of a port the route has tested shows 20 % for each packet
    received, between 0 and 100; it is green from four packets, yellow at
    three and red below. *)
Theorem card_rate_of_port_test (net : Network) (host : string) (port : Z) :
  exists r,
    performRealPortTest net host port = Resolved r
    /\ Page.successRate r == 20 * inject_Z (packetsReceived r)
    /\ 0 <= Page.successRate r <= 100
    /\ Page.rateClass r
       = if (4 <=? packetsReceived r)%Z then "bg-success/20 text-success"%string
         else if (3 <=? packetsReceived r)%Z
              then "bg-yellow-500/20 text-yellow-500"%string
              else "bg-destructive/20 text-destructive"%string.
Proof.
  eexists. split; [apply performRealPortTest_returns|].
  set (r := summarise 5 (Spec.collected net host port)).
  assert (Hsent : packetsSent r = 5%Z) by reflexivity.
  assert (Hreceived : (0 <= packetsReceived r <= 5)%Z).
  { subst r. cbn [packetsReceived summarise Spec.collected successCount].
    unfold Spec.successful_latencies. cbn [seq omap list_omap].
    destruct (Spec.sample (net host port 0%nat)),
      (Spec.sample (net host port 1%nat)), (Spec.sample (net host port 2%nat)),
      (Spec.sample (net host port 3%nat)), (Spec.sample (net host port 4%nat));
      cbn; lia. }
  rewrite (successRate_five r Hsent), (rateClass_five r Hsent).
  split; [rewrite inject_Z_mult; reflexivity|].
  split; [|reflexivity].
  change 0 with (inject_Z 0). change 100 with (inject_Z 100).
  rewrite <- !Zle_Qle. lia.
Qed.



(** *** The totals of the panel *)

Lemma successCount_le (rs : list TestResult) :
  (Page.successCount rs <= Page.totalTests rs)%nat.
Proof.
  unfold Page.successCount, Page.totalTests.
  induction rs as [|r rs IH]; [reflexivity|].
  cbn [List.filter]. destruct (success (result r)); cbn [length]; lia.
Qed.

Lemma successCount_all (rs : list TestResult) :
  Forall (fun r => success (result r) = true) rs ->
  Page.successCount rs = Page.totalTests rs.
Proof.
  unfold Page.successCount, Page.totalTests.
  induction 1 as [|r rs Hr _ IH]; [reflexivity|].
  cbn [List.filter]. rewrite Hr. cbn [length]. rewrite IH. reflexivity.
Qed.

Lemma successCount_none (rs : list TestResult) :
  Forall (fun r => success (result r) = false) rs ->
  Page.successCount rs = 0%nat.
Proof.
  unfold Page.successCount.
  induction 1 as [|r rs Hr _ IH]; [reflexivity|].
  cbn [List.filter]. rewrite Hr. exact IH.
Qed.

Lemma share_between (k n : Z) :
  (0 <= k <= n)%Z -> (0 < n)%Z ->
  0 <= inject_Z k / inject_Z n * 100 <= 100.
Proof.
  intros Hk Hn.
  assert (Hn' : 0 < inject_Z n)
    by (change 0 with (inject_Z 0); rewrite <- Zlt_Qlt; exact Hn).
  assert (Hk0 : 0 <= inject_Z k)
    by (change 0 with (inject_Z 0); rewrite <- Zle_Qle; lia).
  assert (Hkn : inject_Z k <= inject_Z n) by (rewrite <- Zle_Qle; lia).
  assert (Hlo : 0 <= inject_Z k / inject_Z n)
    by (apply Qle_shift_div_l; [exact Hn' | lra]).
  assert (Hhi : inject_Z k / inject_Z n <= 1)
    by (apply Qle_shift_div_r; [exact Hn' | lra]).
  lra.
Qed.

(** With at least one entry, the success percentage of the panel is
    between 0 and 100: 100 when every port succeeded, 0 when none did, and
    0 before the first test. *)
Theorem panel_success_between_0_and_100
    (hasRun : bool) (rs : list TestResult) :
  rs <> [] ->
  0 <= Page.overallSuccess hasRun rs <= 100
  /\ (Forall (fun r => success (result r) = true) rs ->
      Page.overallSuccess true rs == 100)
  /\ (Forall (fun r => success (result r) = false) rs ->
      Page.overallSuccess true rs == 0)
  /\ Page.overallSuccess false rs == 0.
Proof.
  intros Hne.
  assert (Hn : (0 < Z.of_nat (Page.totalTests rs))%Z)
    by (unfold Page.totalTests; destruct rs; [congruence | cbn [length]; lia]).
  pose proof (successCount_le rs) as Hk.
  split; [|split; [|split; [|reflexivity]]].
  - destruct hasRun; [|cbn; split; lra]. cbn [Page.overallSuccess].
    pose proof (share_between (Z.of_nat (Page.successCount rs))
                  (Z.of_nat (Page.totalTests rs)) ltac:(lia) Hn) as [Hlo Hhi].
    apply Math_round_monotone in Hlo. apply Math_round_monotone in Hhi.
    change (Math_round 0) with 0 in Hlo. change (Math_round 100) with 100 in Hhi.
    split; assumption.
  - intros Hall. cbn [Page.overallSuccess].
    rewrite (successCount_all rs Hall).
    rewrite (Math_round_comp
               (inject_Z (Z.of_nat (Page.totalTests rs))
                / inject_Z (Z.of_nat (Page.totalTests rs)) * 100) 100);
      [reflexivity|].
    field. intros H0. unfold Qeq in H0. cbn in H0. lia.
  - intros Hnone. cbn [Page.overallSuccess].
    rewrite (successCount_none rs Hnone).
    rewrite (Math_round_comp
               (inject_Z (Z.of_nat 0)
                / inject_Z (Z.of_nat (Page.totalTests rs)) * 100) 0);
      [reflexivity|].
    change (inject_Z (Z.of_nat 0)) with 0. unfold Qdiv. lra.
Qed.

Lemma panel_success_between_0_and_100_silent :
  let rs := map (Spec.expected_result Scenarios.silent) TEST_PORTS in
  0 <= Page.overallSuccess true rs <= 100
  /\ (Forall (fun r => success (result r) = true) rs ->
      Page.overallSuccess true rs == 100)
  /\ (Forall (fun r => success (result r) = false) rs ->
      Page.overallSuccess true rs == 0)
  /\ Page.overallSuccess false rs == 0.
Proof.
  apply (panel_success_between_0_and_100 true
           (map (Spec.expected_result Scenarios.silent) TEST_PORTS)).
  discriminate.
Defined.

Lemma POST_results (net : Network) (ip : string) (now : Z)
    (m : gmap string RateLimit.Entry) (report : ProbeReport) :
  fst (POST net ip now m) = Ok report ->
  results report = map (Spec.expected_result net) TEST_PORTS.
Proof.
  destruct (RateLimit.checkRateLimit ip now m) as [[|] m'] eqn:E.
  - rewrite (POST_admitted net ip now m m' E). cbn [fst].
    intros H. injection H as <-. reflexivity.
  - rewrite (POST_refused net ip now m m' E). discriminate.
Qed.

(** After a test of the real route the panel counts four ports, and its
    success percentage is 25 for each port that answered. *)
Theorem panel_success_of_real_test
    (net : Network) (ip : string) (now : Z)
    (m : gmap string RateLimit.Entry) (report : ProbeReport) :
  fst (POST net ip now m) = Ok report ->
  Page.totalTests (results report) = 4%nat
  /\ (Page.successCount (results report) <= 4)%nat
  /\ Page.overallSuccess true (results report)
     == 25 * inject_Z (Z.of_nat (Page.successCount (results report))).
Proof.
  intros Hreport. pose proof (POST_results _ _ _ _ _ Hreport) as Hrs.
  assert (Hn : Page.totalTests (results report) = 4%nat)
    by (rewrite Hrs; reflexivity).
  pose proof (successCount_le (results report)) as Hk. rewrite Hn in Hk.
  split; [exact Hn|]. split; [exact Hk|].
  cbn [Page.overallSuccess]. rewrite Hn.
  set (k := Z.of_nat (Page.successCount (results report))).
  change 25 with (inject_Z 25). rewrite <- inject_Z_mult.
  rewrite <- (Math_round_integer (25 * k)).
  rewrite (Math_round_comp (inject_Z k / inject_Z (Z.of_nat 4) * 100)
             (inject_Z (25 * k))); [reflexivity|].
  rewrite inject_Z_mult. change (inject_Z (Z.of_nat 4)) with 4.
  change (inject_Z 25) with 25. field.
Qed.

Lemma panel_success_of_real_test_silent :
  Page.totalTests
    (map (Spec.expected_result Scenarios.silent) TEST_PORTS) = 4%nat
  /\ (Page.successCount
        (map (Spec.expected_result Scenarios.silent) TEST_PORTS) <= 4)%nat
  /\ Page.overallSuccess true
       (map (Spec.expected_result Scenarios.silent) TEST_PORTS)
     == 25 * inject_Z
               (Z.of_nat
                  (Page.successCount
                     (map (Spec.expected_result Scenarios.silent) TEST_PORTS))).
Proof.
  refine (panel_success_of_real_test Scenarios.silent "203.0.113.7" 0 ∅
            {| clientIp := _;
               avgJitter := _;
               results := map (Spec.expected_result Scenarios.silent) TEST_PORTS |}
            _).
  reflexivity.
Defined.

(** *** The average latency of the panel *)

End PageFacts.

(** ** The address the panel shows *)

Section PanelAddress.
Import Text Address.
Local Open Scope string_scope.

Lemma valid_address_usable (ip : string) :
  isValidIp ip = true -> Page.usable ip = true.
Proof.
  intros Hvalid. unfold Page.usable.
  destruct (String.eqb_spec ip "") as [->|Hne];
    [vm_compute in Hvalid; discriminate|].
  destruct (String.eqb_spec ip NOT_DETECTED) as [->|_];
    [vm_compute in Hvalid; discriminate|].
  destruct ip as [|c ip]; [congruence | reflexivity].
Qed.

Lemma getClientIp_outcome (headers : Headers) :
  isValidIp (getClientIp headers) = true \/ getClientIp headers = NOT_DETECTED.
Proof.
  unfold getClientIp.
  destruct (scan headers ipHeaders) as [ip|] eqn:Hscan.
  - left. exact (scan_valid _ _ _ Hscan).
  - destruct (headers "forwarded") as [forwarded|]; [|right; reflexivity].
    destruct (match_for forwarded) as [capture|]; [|right; reflexivity].
    destruct (isValidIp (drop_close_bracket (drop_open_bracket capture))) eqn:Hvalid;
      [left; exact Hvalid | right; reflexivity].
Qed.

(** The panel asks the route first: it shows the address the route
    detected exactly when the route found a valid one, and turns to the
    other services otherwise. *)
Theorem panel_shows_address_the_route_detected
    (headers : Headers) (others : list (option string)) :
  Page.fetchClientIp (Some (getClientIp headers) :: others)
  = if isValidIp (getClientIp headers)
    then getClientIp headers
    else Page.fetchClientIp others.
Proof.
  cbn [Page.fetchClientIp].
  destruct (getClientIp_outcome headers) as [Hvalid | Hnone].
  - rewrite Hvalid, (valid_address_usable _ Hvalid). reflexivity.
  - rewrite Hnone. reflexivity.
Qed.

(** What the panel shows as the address is never empty and never the
    string by which the route says it detected none; it is one of the
    addresses the services gave, or the string that says that none could
    be detected. *)
Theorem panel_address_is_an_answer (answers : list (option string)) :
  Page.fetchClientIp answers <> ""
  /\ Page.fetchClientIp answers <> NOT_DETECTED
  /\ (Page.fetchClientIp answers = Page.NO_ADDRESS
      \/ In (Some (Page.fetchClientIp answers)) answers).
Proof.
  induction answers as [|[ip|] rest (IH1 & IH2 & IH3)]; cbn [Page.fetchClientIp].
  - repeat split; [discriminate | discriminate | left; reflexivity].
  - destruct (Page.usable ip) eqn:Husable.
    + unfold Page.usable in Husable.
      apply andb_prop in Husable as [Husable _].
      apply andb_prop in Husable as [H1 H2].
      apply negb_true_iff in H1, H2.
      apply String.eqb_neq in H1, H2.
      repeat split; [exact H1 | exact H2 | right; left; reflexivity].
    + repeat split; [exact IH1 | exact IH2 |].
      destruct IH3 as [H|H]; [left; exact H | right; right; exact H].
  - repeat split; [exact IH1 | exact IH2 |].
    destruct IH3 as [H|H]; [left; exact H | right; right; exact H].
Qed.

End PanelAddress.

(** ** The address in the [Forwarded] header *)

Section ForwardedElement.
Import Strings.Ascii Text Address AddressSpec.
Local Open Scope string_scope.
#[local] Arguments String.append !s1 s2 : simpl nomatch.

(** What follows the capture: nothing, or a character the capture cannot
    hold. *)
#[local] Abbreviation ends_capture rest :=
  (rest = "" \/ exists c rest', rest = String c rest' /\ is_token c = false).

Lemma address_char_token (c : ascii) :
  address_char c = true ->
  is_token c = true /\ Strings.Ascii.eqb c "[" = false
  /\ Strings.Ascii.eqb c "]" = false.
Proof.
  destruct c as [[] [] [] [] [] [] [] []]; vm_compute; intros H;
    try discriminate H; repeat split.
Qed.

Lemma token_not_quote (c : ascii) : is_token c = true -> is_quote c = false.
Proof.
  unfold is_token. destruct (is_quote c); [discriminate | reflexivity].
Qed.

Lemma take_while_tokens (x rest : string) :
  all_chars is_token x = true -> ends_capture rest ->
  take_while is_token (x ++ rest) = x.
Proof.
  intros Hx Hrest. induction x as [|c x IH].
  - cbn. destruct Hrest as [-> | (c & rest' & -> & Hc)]; [reflexivity|].
    cbn [take_while]. rewrite Hc. reflexivity.
  - cbn in Hx. apply andb_prop in Hx as [Hc Hx].
    cbn [String.append take_while]. rewrite Hc, (IH Hx). reflexivity.
Qed.

Lemma drop_close_bracket_closed (x : string) :
  drop_close_bracket (x ++ "]") = x.
Proof.
  induction x as [|c x IH]; [reflexivity|].
  cbn [String.append].
  destruct (x ++ "]") as [|d y] eqn:E; [destruct x; discriminate E|].
  change (drop_close_bracket (String c (String d y)))
    with (String c (drop_close_bracket (String d y))).
  rewrite IH. reflexivity.
Qed.

Lemma drop_close_bracket_open (x : string) :
  all_chars (fun c => negb (Strings.Ascii.eqb c "]")) x = true ->
  drop_close_bracket x = x.
Proof.
  induction x as [|c x IH]; [reflexivity|].
  cbn [all_chars]. intros H. apply andb_prop in H as [Hc Hx].
  apply negb_true_iff in Hc.
  destruct x as [|d y]; [cbn [drop_close_bracket]; rewrite Hc; reflexivity|].
  change (drop_close_bracket (String c (String d y)))
    with (String c (drop_close_bracket (String d y))).
  rewrite (IH Hx). reflexivity.
Qed.

Lemma match_for_here (s capture : string) :
  for_here s = Some capture -> match_for s = Some capture.
Proof. intros H. destruct s; cbn [match_for]; rewrite H; reflexivity. Qed.

(** The capture of a header that starts with the element. *)
Lemma for_here_capture (quote capture rest : string) :
  quote = "" \/ (exists q, quote = String q "" /\ is_quote q = true) ->
  capture <> "" -> all_chars is_token capture = true -> ends_capture rest ->
  for_here ("for=" ++ quote ++ capture ++ rest) = Some capture.
Proof.
  intros Hquote Hne Htokens Hrest.
  pose proof (take_while_tokens capture rest Htokens Hrest) as Htake.
  assert (Hcapture : String.eqb capture "" = false)
    by (apply String.eqb_neq; exact Hne).
  destruct Hquote as [-> | (q & -> & Hq)].
  - change (for_here ("for=" ++ "" ++ capture ++ rest))
      with (let rest0 := capture ++ rest in
            let unquoted := take_while is_token rest0 in
            let quoted :=
              match rest0 with
              | String c after => if is_quote c then take_while is_token after
                                  else EmptyString
              | EmptyString => EmptyString
              end in
            if negb (String.eqb quoted "") then Some quoted
            else if negb (String.eqb unquoted "") then Some unquoted
            else None).
    cbv zeta. rewrite Htake, Hcapture.
    destruct capture as [|c capture]; [congruence|].
    cbn [String.append]. cbn in Htokens. apply andb_prop in Htokens as [Hc _].
    rewrite (token_not_quote c Hc). reflexivity.
  - change (for_here ("for=" ++ String q "" ++ capture ++ rest))
      with (let quoted := if is_quote q then take_while is_token (capture ++ rest)
                          else EmptyString in
            let unquoted := take_while is_token (String q (capture ++ rest)) in
            if negb (String.eqb quoted "") then Some quoted
            else if negb (String.eqb unquoted "") then Some unquoted
            else None).
    cbv zeta. rewrite Hq, Htake, Hcapture. reflexivity.
Qed.

(** When no header of the list gives a valid address, the [for=] element
    at the start of the [Forwarded] header gives it: the address may be
    quoted and may stand in brackets, and what follows it is ignored. *)
Theorem forwarded_element_gives_address
    (headers : Headers) (quote opening ip closing rest : string) :
  Forall (fun header => candidate headers header = None) ipHeaders ->
  headers "forwarded"
  = Some ("for=" ++ quote ++ (opening ++ ip ++ closing) ++ rest) ->
  quote = "" \/ (exists q, quote = String q "" /\ is_quote q = true) ->
  (opening = "" /\ closing = "") \/ (opening = "[" /\ closing = "]") ->
  rest = "" \/ (exists c rest', rest = String c rest' /\ is_token c = false) ->
  isValidIp ip = true ->
  getClientIp headers = ip.
Proof.
  intros Hnone Hforwarded Hquote Hbrackets Hrest Hvalid.
  destruct (valid_address_chars ip Hvalid) as [Hne Hchars].
  assert (Htokens : all_chars is_token ip = true).
  { apply (all_chars_impl address_char); [|exact Hchars].
    intros c Hc. apply (address_char_token c Hc). }
  assert (Hclosed : all_chars (fun c => negb (Strings.Ascii.eqb c "]")) ip = true).
  { apply (all_chars_impl address_char); [|exact Hchars].
    intros c Hc. destruct (address_char_token c Hc) as (_ & _ & ->). reflexivity. }
  assert (Hscan : scan headers ipHeaders = None).
  { rewrite <- (app_nil_r ipHeaders). rewrite (scan_app headers ipHeaders [] Hnone).
    reflexivity. }
  assert (Hcapture : opening ++ ip ++ closing <> ""
                     /\ all_chars is_token (opening ++ ip ++ closing) = true
                     /\ drop_close_bracket
                          (drop_open_bracket (opening ++ ip ++ closing)) = ip).
  { destruct Hbrackets as [[-> ->] | [-> ->]].
    - cbn [String.append]. rewrite append_nil_r. repeat split; try assumption.
      destruct ip as [|c ip]; [congruence|].
      cbn in Hchars. apply andb_prop in Hchars as [Hc _].
      destruct (address_char_token c Hc) as (_ & Hopen & _).
      assert (Hdrop : drop_open_bracket (String c ip) = String c ip).
      { unfold drop_open_bracket.
        destruct c as [[] [] [] [] [] [] [] []]; try reflexivity.
        discriminate Hopen. }
      rewrite Hdrop. apply drop_close_bracket_open. exact Hclosed.
    - repeat split.
      + discriminate.
      + cbn [String.append all_chars]. rewrite all_chars_app, Htokens. reflexivity.
      + cbn [String.append drop_open_bracket]. apply drop_close_bracket_closed. }
  destruct Hcapture as (Hcne & Hctokens & Hdrop).
  unfold getClientIp. rewrite Hscan, Hforwarded.
  rewrite (match_for_here _ _
             (for_here_capture quote _ rest Hquote Hcne Hctokens Hrest)).
  cbv zeta. rewrite Hdrop, Hvalid. reflexivity.
Qed.

Lemma forwarded_element_gives_address_quoted :
  getClientIp HeaderScenarios.forwarded_only = "2001:db8::1".
Proof.
  apply (forwarded_element_gives_address
           HeaderScenarios.forwarded_only "'" "[" "2001:db8::1" "]" "';proto=https").
  - repeat (constructor; [vm_compute; reflexivity|]). constructor.
  - reflexivity.
  - right. exists "'"%char. split; reflexivity.
  - right. split; reflexivity.
  - right. exists "'"%char, ";proto=https". split; reflexivity.
  - vm_compute. reflexivity.
Defined.

End ForwardedElement.

(** * Properties of the measurements in binary64 *)

(** ** Rounding keeps the sign *)

Section Rounding.
Import PrimFloat SpecFloat FloatOps FloatAxioms Spec64.

Lemma shr_1_nonneg (mrs : shr_record) : 0 <= shr_m mrs -> 0 <= shr_m (shr_1 mrs).
Proof.
  destruct mrs as [m r s]. cbn [shr_m]. intros Hm.
  destruct m as [|[p|p|]|p]; cbn; lia.
Qed.

Lemma iter_pos_shr_1_nonneg (p : positive) (mrs : shr_record) :
  0 <= shr_m mrs -> 0 <= shr_m (iter_pos shr_1 p mrs).
Proof.
  revert mrs. induction p as [p IH|p IH|]; intros mrs Hm; cbn [iter_pos].
  - apply IH, IH, shr_1_nonneg, Hm.
  - apply IH, IH, Hm.
  - apply shr_1_nonneg, Hm.
Qed.

Lemma shr_fexp_nonneg (m e : Z) (l : location) :
  0 <= m -> 0 <= shr_m (fst (shr_fexp prec emax m e l)).
Proof.
  intros Hm. unfold shr_fexp, shr.
  assert (H0 : 0 <= shr_m (shr_record_of_loc m l))
    by (destruct l as [|[]]; exact Hm).
  destruct (fexp prec emax (Zdigits2 m + e) - e) as [|p|p]; cbn [fst];
    [exact H0 | apply iter_pos_shr_1_nonneg, H0 | exact H0].
Qed.

Lemma round_nearest_even_nonneg (m : Z) (l : location) :
  0 <= m -> 0 <= round_nearest_even m l.
Proof.
  intros Hm. destruct l as [|[]]; cbn [round_nearest_even]; try lia.
  destruct (Z.even m); lia.
Qed.

Lemma binary_round_aux_signed (sx : bool) (mx ex : Z) (lx : location) :
  0 <= mx -> SF_signed sx (binary_round_aux prec emax sx mx ex lx).
Proof.
  intros Hm. unfold binary_round_aux.
  pose proof (shr_fexp_nonneg mx ex lx Hm) as H1.
  destruct (shr_fexp prec emax mx ex lx) as [mrs' e']. cbn [fst] in H1.
  pose proof (shr_fexp_nonneg
                (round_nearest_even (shr_m mrs') (loc_of_shr_record mrs'))
                e' loc_Exact (round_nearest_even_nonneg _ _ H1)) as H2.
  destruct (shr_fexp prec emax _ e' loc_Exact) as [mrs'' e'']. cbn [fst] in H2.
  destruct (shr_m mrs'') as [|p|p]; [reflexivity| |lia].
  destruct (e'' <=? emax - prec); reflexivity.
Qed.

Lemma binary_round_signed (sx : bool) (mx : positive) (ex : Z) :
  SF_signed sx (binary_round prec emax sx mx ex).
Proof.
  unfold binary_round. destruct (shl_align mx ex _) as [mz ez].
  apply binary_round_aux_signed. lia.
Qed.

Lemma signed_plus (x : spec_float) : SF_signed false x -> SF_plus x.
Proof. destruct x as [s|s| |s m e]; cbn; intros H; subst; auto. Qed.

Lemma plus_not_negative (x : spec_float) : SF_plus x -> SF_not_negative x.
Proof. destruct x as [[]|[]| |[] m e]; cbn; auto. Qed.

Lemma not_negative_spec (x : float) :
  not_negative x <-> SF_not_negative (Prim2SF x).
Proof.
  unfold not_negative. rewrite leb_spec.
  change (Prim2SF 0) with (S754_zero false).
  destruct (Prim2SF x) as [s|[]| |[] m e]; cbn; split; intros H;
    try discriminate; try reflexivity; try exact I; try contradiction.
Qed.

Lemma SFadd_plus (x y : spec_float) :
  SF_plus x -> SF_not_negative y -> SF_plus (SF64add x y).
Proof.
  destruct x as [[]|[]| |[] mx ex]; cbn [SF_plus]; try contradiction; intros _;
    destruct y as [[]|[]| |[] my ey]; cbn [SF_not_negative]; try contradiction;
    intros _; try exact I.
  unfold SF64add, SFadd. cbn [cond_Zopp].
  destruct (shl_align mx ex (Z.min ex ey)) as [mx' ex'].
  destruct (shl_align my ey (Z.min ex ey)) as [my' ey']. cbn [fst Z.add].
  unfold binary_normalize. apply signed_plus, binary_round_signed.
Qed.

Lemma SFmul_plus (x : spec_float) (m : positive) (e : Z) :
  SF_plus x -> SF_plus (SF64mul x (S754_finite false m e)).
Proof.
  destruct x as [[]|[]| |[] mx ex]; cbn [SF_plus]; try contradiction; intros _;
    try exact I.
  unfold SF64mul, SFmul. cbn [xorb].
  apply signed_plus, binary_round_aux_signed. lia.
Qed.

Lemma SFmul_not_negative (x : spec_float) (m : positive) (e : Z) :
  SF_not_negative x -> SF_not_negative (SF64mul x (S754_finite false m e)).
Proof.
  destruct x as [[]|[]| |[] mx ex]; cbn [SF_not_negative]; try contradiction;
    intros _; try exact I.
  unfold SF64mul, SFmul. cbn [xorb].
  apply plus_not_negative, signed_plus, binary_round_aux_signed. lia.
Qed.

Lemma SFdiv_plus (x : spec_float) (m : positive) (e : Z) :
  SF_plus x -> SF_plus (SF64div x (S754_finite false m e)).
Proof.
  destruct x as [[]|[]| |[] mx ex]; cbn [SF_plus]; try contradiction; intros _;
    try exact I.
  unfold SF64div, SFdiv, SFdiv_core_binary. cbn [xorb].
  set (s := (ex - e - _)%Z).
  set (m' := match s with Zpos _ => Z.shiftl (Zpos mx) s | Z0 => Zpos mx | Zneg _ => 0 end).
  assert (Hm' : 0 <= m').
  { subst m'. destruct s; [lia | apply Z.shiftl_nonneg; lia | lia]. }
  pose proof (Z_div_mod m' (Zpos m) ltac:(lia)) as Hdiv.
  destruct (Z.div_eucl m' (Zpos m)) as [q r].
  apply signed_plus, binary_round_aux_signed.
  destruct Hdiv as [Heq Hr]. nia.
Qed.

Lemma SFabs_plus (x : spec_float) : x <> S754_nan -> SF_plus (SFabs x).
Proof. destruct x as [s|s| |s m e]; cbn; intros H; auto. Qed.

Lemma SFsub_finite (sx sy : bool) (mx my : positive) (ex ey : Z) :
  SF64sub (S754_finite sx mx ex) (S754_finite sy my ey) <> S754_nan.
Proof.
  unfold SF64sub, SFsub.
  destruct (shl_align mx ex (Z.min ex ey)) as [mx' ex'].
  destruct (shl_align my ey (Z.min ex ey)) as [my' ey']. cbn [fst].
  unfold binary_normalize.
  destruct (cond_Zopp sx (Zpos mx') - cond_Zopp sy (Zpos my')) as [|p|p];
    [discriminate| |].
  - pose proof (binary_round_signed false p (Z.min ex ey)) as H.
    intros E. rewrite E in H. exact H.
  - pose proof (binary_round_signed true p (Z.min ex ey)) as H.
    intros E. rewrite E in H. exact H.
Qed.
End Rounding.

Section Numbers.
Import PrimFloat SpecFloat FloatOps FloatAxioms Binary64 Spec64.
Local Open Scope float_scope.

Lemma plus_is_not_negative (x : float) : plus x -> not_negative x.
Proof. intros H. apply not_negative_spec, plus_not_negative, H. Qed.

Lemma add_plus (x y : float) : plus x -> not_negative y -> plus (x + y).
Proof.
  unfold plus. intros Hx Hy. rewrite add_spec.
  apply SFadd_plus; [exact Hx | apply not_negative_spec, Hy].
Qed.

(** A constant that is a positive finite number. *)
#[local] Abbreviation positive_finite c :=
  (exists m e, Prim2SF c = S754_finite false m e).

Lemma mul_plus (x c : float) : positive_finite c -> plus x -> plus (x * c).
Proof.
  unfold plus. intros (m & e & Hc) Hx. rewrite mul_spec, Hc.
  apply SFmul_plus, Hx.
Qed.

Lemma mul_not_negative (x c : float) :
  positive_finite c -> not_negative x -> not_negative (x * c).
Proof.
  intros (m & e & Hc) Hx. apply not_negative_spec. rewrite mul_spec, Hc.
  apply SFmul_not_negative, not_negative_spec, Hx.
Qed.

Lemma div_plus (x c : float) : positive_finite c -> plus x -> plus (x / c).
Proof.
  unfold plus. intros (m & e & Hc) Hx. rewrite div_spec, Hc.
  apply SFdiv_plus, Hx.
Qed.

Lemma ten_positive_finite : positive_finite 10.
Proof. vm_compute. eauto. Qed.

Lemma number_of_positive_finite (k : Z) :
  (1 <= k <= 9)%Z -> positive_finite (number_of k).
Proof.
  intros Hk.
  assert (H : (k = 1 \/ k = 2 \/ k = 3 \/ k = 4 \/ k = 5 \/ k = 6 \/ k = 7
               \/ k = 8 \/ k = 9)%Z) by lia.
  repeat destruct H as [->|H]; try subst k; vm_compute; eauto.
Qed.

Lemma number_of_plus (n : Z) : plus (number_of n).
Proof.
  unfold plus, number_of. rewrite of_uint63_spec.
  pose proof (Uint63.to_Z_bounded (Uint63Axioms.of_Z n)) as [Hlo _].
  destruct (Uint63Axioms.to_Z (Uint63Axioms.of_Z n)) as [|p|p]; [exact I| |lia].
  apply signed_plus, binary_round_signed.
Qed.

Lemma of_integer_plus (n : Z) : (0 <= n)%Z -> plus (of_integer false n).
Proof.
  intros Hn. destruct n as [|p|p]; [exact I | apply number_of_plus | lia].
Qed.

Lemma Math_round_plus (x : float) : plus x -> plus (Math_round x).
Proof.
  unfold plus, Math_round. intros Hx.
  destruct (Prim2SF x) as [s|s| |s m e] eqn:E; try (rewrite E; exact Hx).
  destruct s; [contradiction|].
  destruct (0 <=? e)%Z eqn:He; [rewrite E; exact I|].
  apply of_integer_plus. cbn [cond_Zopp].
  apply Z.div_pos; [|apply Z.pow_pos_nonneg; lia].
  assert (0 <= 2 ^ (- e))%Z by (apply Z.pow_nonneg; lia). lia.
Qed.

(** On a number that is not negative [Math.round] rounds half away from
    zero. *)
Lemma Math_round_half_away64 (x : float) :
  not_negative x -> Math_round x = round_half_away_from_zero x.
Proof.
  intros Hx. apply not_negative_spec in Hx.
  unfold Math_round, round_half_away_from_zero.
  destruct (Prim2SF x) as [s|s| |[] m e]; try reflexivity; contradiction.
Qed.

Lemma one_decimal_half_away (x : float) :
  not_negative x -> Math_round (x * 10) / 10 = round_to_one_decimal x.
Proof.
  intros Hx. unfold round_to_one_decimal.
  rewrite (Math_round_half_away64 (x * 10)); [reflexivity|].
  apply mul_not_negative; [exact ten_positive_finite | exact Hx].
Qed.

Lemma one_decimal_plus (x : float) : plus x -> plus (Math_round (x * 10) / 10).
Proof.
  intros Hx. apply div_plus; [exact ten_positive_finite|].
  apply Math_round_plus, mul_plus; [exact ten_positive_finite | exact Hx].
Qed.

Lemma finite_spec (x : float) : finite x <-> SF_finite (Prim2SF x).
Proof.
  unfold finite, is_finite, is_nan, is_infinity.
  rewrite !eqb_spec, abs_spec.
  change (Prim2SF infinity) with (S754_infinity false).
  destruct (Prim2SF x) as [s|s| |s m e]; cbn.
  - tauto.
  - destruct s; cbn; split; [discriminate | contradiction
                            | discriminate | contradiction].
  - split; [discriminate | contradiction].
  - pose proof (Pos.compare_cont_refl m Eq) as Hm.
    change (Pos.compare_cont Eq m m) with (PosDef.Pos.compare_cont Eq m m) in Hm.
    rewrite Z.compare_refl, Hm. destruct s; cbn; tauto.
Qed.

Lemma abs_sub_plus (x y : float) : finite x -> finite y -> plus (abs (x - y)).
Proof.
  intros Hx Hy. apply finite_spec in Hx, Hy. unfold plus.
  rewrite abs_spec, sub_spec. apply SFabs_plus.
  destruct (Prim2SF x) as [sx|sx| |sx mx ex]; try contradiction;
    destruct (Prim2SF y) as [sy|sy| |sy my ey]; try contradiction.
  - destruct sx, sy; discriminate.
  - discriminate.
  - discriminate.
  - apply SFsub_finite.
Qed.

(** A finite number minus itself is the positive zero. *)
Lemma sub_diag (x : float) : finite x -> x - x = 0.
Proof.
  intros Hx. apply finite_spec in Hx. apply Prim2SF_inj. rewrite sub_spec.
  change (Prim2SF 0) with (S754_zero false).
  destruct (Prim2SF x) as [s|s| |s m e]; try contradiction.
  - destruct s; reflexivity.
  - unfold SF64sub, SFsub. rewrite Z.min_id.
    unfold shl_align. rewrite Z.sub_diag. cbn [fst]. reflexivity.
Qed.


End Numbers.

(** ** The port test in binary64 *)

Section PortTest64.
Import PrimFloat SpecFloat FloatOps Binary64 Spec64.
Local Open Scope float_scope.
Variable net : Network.
Variable host : string.
Variable port : Z.

Lemma attempt_resolves64 (st : Samples) (i : nat) :
  attempt net host port st i
  = Resolved
      match sample (net host port i) with
      | Some d => {| latencies := latencies st ++ [d];
                     successCount := successCount st + 1 |}
      | None => st
      end.
Proof.
  unfold attempt, measureTcpLatency.
  destruct (net host port i); reflexivity.
Qed.

Lemma sampling_loop64 (n a : nat) (st : Samples) :
  let new := omap (fun i => sample (net host port i)) (seq a n) in
  for_each (attempt net host port) (seq a n) st
  = Resolved {| latencies := latencies st ++ new;
                successCount := successCount st + Z.of_nat (length new) |}.
Proof.
  revert a st. induction n as [|n IH]; intros a st; cbn zeta.
  - destruct st as [l c]. cbn. rewrite app_nil_r, Z.add_0_r. reflexivity.
  - cbn [seq for_each omap list_omap]. rewrite attempt_resolves64. cbn [await].
    rewrite IH. cbn zeta.
    destruct (sample (net host port a)) as [d|]; [|reflexivity].
    cbn [latencies successCount length]. f_equal. f_equal.
    + rewrite <- app_assoc. reflexivity.
    + lia.
Qed.

Lemma performRealPortTest_returns64 :
  performRealPortTest net host port
  = Resolved (summarise 5 (collected net host port)).
Proof.
  unfold performRealPortTest.
  change (Z.to_nat 5) with 5%nat.
  rewrite (sampling_loop64 5 0 no_samples). reflexivity.
Qed.

Lemma length_successful_latencies :
  (length (successful_latencies net host port) <= 5)%nat.
Proof.
  unfold successful_latencies. cbn [seq omap list_omap].
  destruct (sample (net host port 0%nat)), (sample (net host port 1%nat)),
    (sample (net host port 2%nat)), (sample (net host port 3%nat)),
    (sample (net host port 4%nat)); cbn; lia.
Qed.

End PortTest64.

Section Jitter64.
Import PrimFloat SpecFloat FloatOps Binary64 Spec64.
Local Open Scope float_scope.

(** The index loop from position [length prefix + 1] on adds the
    consecutive differences of the rest of the array, in order, to what it
    holds. *)
Lemma jitter_fold64 (rest prefix : list float) (x s : float) (c : Z) :
  fold_left (jitterStep (prefix ++ x :: rest))
            (seq (S (length prefix)) (length rest)) (s, c)
  = (fold_left add (consecutive_differences (x :: rest)) s,
     (c + Z.of_nat (length rest))%Z).
Proof.
  revert prefix x s c.
  induction rest as [|y rest IH]; intros prefix x s c.
  - cbn. rewrite Z.add_0_r. reflexivity.
  - cbn [length seq fold_left].
    assert (Hy : at_index (prefix ++ x :: y :: rest) (S (length prefix)) = y).
    { unfold at_index. rewrite app_nth2 by lia.
      replace (S (length prefix) - length prefix)%nat with 1%nat by lia.
      reflexivity. }
    assert (Hx : at_index (prefix ++ x :: y :: rest) (S (length prefix) - 1) = x).
    { unfold at_index. rewrite app_nth2 by lia.
      replace (S (length prefix) - 1 - length prefix)%nat with 0%nat by lia.
      reflexivity. }
    assert (Hstep : jitterStep (prefix ++ x :: y :: rest) (s, c) (S (length prefix))
                    = (s + abs (y - x), (c + 1)%Z)).
    { unfold jitterStep, Math_abs. rewrite Hy, Hx. reflexivity. }
    rewrite Hstep.
    specialize (IH (prefix ++ [x]) y (s + abs (y - x)) (c + 1)%Z).
    rewrite <- app_assoc in IH. cbn [app] in IH.
    rewrite length_app in IH. cbn [length] in IH.
    replace (S (length prefix + 1)) with (S (S (length prefix))) in IH by lia.
    rewrite IH. cbn [consecutive_differences fold_left]. f_equal. lia.
Qed.

Lemma length_consecutive_differences64 (xs : list float) :
  length (consecutive_differences xs) = (length xs - 1)%nat.
Proof.
  induction xs as [|x [|y rest] IH]; [reflexivity | reflexivity|].
  cbn [consecutive_differences length] in *. rewrite IH. lia.
Qed.

(** The jitter the code computes is the mean absolute difference of
    consecutive samples, the differences added up in order. *)
Lemma jitterValue_spec64 (xs : list float) :
  jitterValue xs = mean_consecutive_difference xs.
Proof.
  destruct xs as [|x [|y rest]]; try reflexivity.
  unfold jitterValue, jitterLoop, mean_consecutive_difference.
  cbn [length Nat.ltb Nat.leb Nat.sub].
  pose proof (jitter_fold64 (y :: rest) [] x 0 0%Z) as Hfold.
  cbn [app length] in Hfold. rewrite Hfold, Z.add_0_l.
  assert (Hc : (Z.of_nat (S (length rest)) >? 0)%Z = true)
    by (rewrite Z.gtb_ltb; apply Z.ltb_lt; lia).
  rewrite Hc. unfold mean, sum.
  pose proof (length_consecutive_differences64 (x :: y :: rest)) as Hlen.
  cbn [length Nat.sub] in Hlen.
  destruct (consecutive_differences (x :: y :: rest)) as [|d ds] eqn:E;
    [discriminate Hlen|].
  rewrite Hlen. reflexivity.
Qed.

Lemma avgLatency_spec64 (xs : list float) : avgLatency xs = mean xs.
Proof. destruct xs; reflexivity. Qed.

Lemma consecutive_differences_plus (xs : list float) :
  Forall finite xs -> Forall plus (consecutive_differences xs).
Proof.
  induction xs as [|x [|y rest] IH]; intros Hxs; [constructor | constructor|].
  inversion Hxs as [|? ? Hx Hrest]; subst.
  inversion Hrest as [|? ? Hy _]; subst.
  cbn [consecutive_differences]. constructor.
  - apply abs_sub_plus; assumption.
  - apply IH, Hrest.
Qed.

Lemma sum_from_plus (xs : list float) (acc : float) :
  plus acc -> Forall not_negative xs -> plus (fold_left add xs acc).
Proof.
  intros Hacc Hxs. revert acc Hacc.
  induction Hxs as [|x xs Hx _ IH]; intros acc Hacc; [exact Hacc|].
  cbn [fold_left]. apply IH, add_plus; assumption.
Qed.

(** The mean of at most nine numbers that are not negative has a clear
    sign bit. *)
Lemma mean_plus (xs : list float) :
  (length xs <= 9)%nat -> Forall not_negative xs -> plus (mean xs).
Proof.
  intros Hlen Hxs. destruct xs as [|x xs]; [exact I|].
  unfold mean, sum. apply div_plus.
  - apply number_of_positive_finite. cbn [length] in *. lia.
  - apply sum_from_plus; [exact I | exact Hxs].
Qed.

Lemma jitterValue_plus (xs : list float) :
  (length xs <= 9)%nat -> Forall finite xs -> plus (jitterValue xs).
Proof.
  intros Hlen Hxs. rewrite jitterValue_spec64. apply mean_plus.
  - rewrite length_consecutive_differences64. lia.
  - eapply Forall_impl; [apply consecutive_differences_plus, Hxs|].
    intros d Hd. apply plus_is_not_negative, Hd.
Qed.

End Jitter64.

(** ** What a port test returns, in binary64 *)

Section Results64.
Import PrimFloat SpecFloat FloatOps Binary64 Spec64.
Local Open Scope float_scope.

(** C1 (as amended): the jitter a port test returns is [Math.round] of ten
    times the mean of |latency(i) - latency(i-1)| over the consecutive
    pairs of successful attempts, in attempt order, divided by 10, every
    operation being that of binary64 and the differences added up in order;
    it is 0 when fewer than two attempts succeeded, and it is not negative
    when the latencies are finite. *)
Theorem jitter_rounded_mean_consecutive_difference
    (net : Network) (host : string) (port : Z) :
  exists r,
    performRealPortTest net host port = Resolved r
    /\ jitter r
       = Math_round
           (mean_consecutive_difference (successful_latencies net host port)
            * 10) / 10
    /\ ((length (successful_latencies net host port) < 2)%nat ->
        jitter r = 0)
    /\ (Forall finite (successful_latencies net host port) ->
        not_negative (jitter r)).
Proof.
  eexists. split; [apply performRealPortTest_returns64|].
  cbn [jitter summarise collected latencies].
  split; [|split].
  - rewrite jitterValue_spec64. reflexivity.
  - intros Hfew.
    destruct (successful_latencies net host port) as [|x [|y rest]];
      [reflexivity | reflexivity | cbn [length] in Hfew; lia].
  - intros Hfinite. apply plus_is_not_negative, one_decimal_plus.
    apply jitterValue_plus; [|exact Hfinite].
    pose proof (length_successful_latencies net host port). lia.
Qed.

Lemma jitter_rounded_mean_alternating :
  exists r,
    performRealPortTest Scenarios64.alternating RealProbe.SERVER_IP 80
    = Resolved r
    /\ jitter r
       = Math_round
           (mean_consecutive_difference
              (successful_latencies Scenarios64.alternating RealProbe.SERVER_IP 80)
            * 10) / 10
    /\ jitter r = 0.3
    /\ not_negative (jitter r).
Proof.
  destruct (jitter_rounded_mean_consecutive_difference
              Scenarios64.alternating RealProbe.SERVER_IP 80)
    as (r & Hr & Hj & _ & Hnn).
  exists r. split; [exact Hr|]. split; [exact Hj|]. split.
  - rewrite Hj. vm_compute. reflexivity.
  - apply Hnn. repeat (constructor; [vm_compute; reflexivity|]). constructor.
Defined.

(** The samples 10, 10.25, 10, 10.25, 10 have mean difference 0.25, and
    the jitter returned is 0.3. *)
Lemma jitter_not_exact_mean :
  exists r,
    performRealPortTest Scenarios64.alternating RealProbe.SERVER_IP 80
    = Resolved r
    /\ mean_consecutive_difference
         (successful_latencies Scenarios64.alternating RealProbe.SERVER_IP 80)
       = 0.25
    /\ jitter r = 0.3
    /\ jitter r
       <> mean_consecutive_difference
            (successful_latencies Scenarios64.alternating RealProbe.SERVER_IP 80).
Proof.
  eexists. split; [apply performRealPortTest_returns64|].
  split; [vm_compute; reflexivity|]. split; [vm_compute; reflexivity|].
  intros H. apply (f_equal (fun x => Leibniz.eqb x 0.3)) in H.
  vm_compute in H. discriminate H.
Qed.

(** The latency a port test returns is [Math.round] of ten times the mean
    of the successful latencies (their sum from the left, divided by their
    number; 0 for none), divided by 10, in binary64; the packets received
    are the attempts that connected. *)
Theorem latency_rounded_mean_of_samples
    (net : Network) (host : string) (port : Z) :
  exists r,
    performRealPortTest net host port = Resolved r
    /\ packetsReceived r
       = number_of (Z.of_nat (length (successful_latencies net host port)))
    /\ latency r
       = Math_round (mean (successful_latencies net host port) * 10) / 10.
Proof.
  eexists. split; [apply performRealPortTest_returns64|].
  cbn [packetsReceived latency summarise collected latencies successCount].
  split; [reflexivity|]. rewrite avgLatency_spec64. reflexivity.
Qed.

(** When every successful latency is a finite number that is not
    negative, the latency and the jitter returned are not negative; in
    particular neither is NaN. *)
Theorem latency_and_jitter_not_negative
    (net : Network) (host : string) (port : Z) :
  Forall (fun x => finite x /\ not_negative x)
         (successful_latencies net host port) ->
  exists r,
    performRealPortTest net host port = Resolved r
    /\ not_negative (latency r)
    /\ not_negative (jitter r).
Proof.
  intros Hsamples. eexists. split; [apply performRealPortTest_returns64|].
  cbn [latency jitter summarise collected latencies].
  pose proof (length_successful_latencies net host port) as Hfive.
  split; apply plus_is_not_negative, one_decimal_plus.
  - rewrite avgLatency_spec64. apply mean_plus; [lia|].
    eapply Forall_impl; [exact Hsamples|]. intros x [_ Hx]. exact Hx.
  - apply jitterValue_plus; [lia|].
    eapply Forall_impl; [exact Hsamples|]. intros x [Hx _]. exact Hx.
Qed.

Lemma latency_and_jitter_not_negative_steady :
  exists r,
    performRealPortTest Scenarios64.steady RealProbe.SERVER_IP 80 = Resolved r
    /\ not_negative (latency r)
    /\ not_negative (jitter r).
Proof.
  apply (latency_and_jitter_not_negative
           Scenarios64.steady RealProbe.SERVER_IP 80).
  repeat (constructor; [split; vm_compute; reflexivity|]). constructor.
Defined.

Lemma simulatePortTest_result64 (rand : Random) (port : Z) (calls : nat) :
  fst (simulatePortTest rand port calls)
  = let successRate :=
      fst (drawSuccessRate rand (SimulatedProbe.isCommonPort port) calls) in
    let latencies := simulated_latencies rand port calls in
    let packetsReceived := Math_floor (5 * successRate) in
    {| success := 0 <? packetsReceived;
       latency := Math_round (simulated_avgLatency latencies * 10) / 10;
       jitter := Math_round (simulated_jitterValue latencies * 10) / 10;
       packetsSent := 5;
       packetsReceived := packetsReceived;
       packetsLost := 5 - packetsReceived |}.
Proof.
  unfold simulatePortTest, simulated_latencies.
  destruct (drawSuccessRate _ _ _) as [successRate calls1]. cbn [fst snd].
  destruct (drawLatencies _ _ _) as [latencies calls2]. reflexivity.
Qed.

(** C8 (as amended): whenever the mean latency, or the jitter, a port test
    has computed is not negative, the value returned is that number scaled
    by 10, rounded half away from zero and divided by 10, the product and
    the quotient being those of binary64; so for the real route and for
    the simulated one. *)
Theorem latency_and_jitter_rounded_to_one_decimal :
  (forall (net : Network) (host : string) (port : Z),
      exists r,
        performRealPortTest net host port = Resolved r
        /\ (not_negative (avgLatency (successful_latencies net host port)) ->
            latency r
            = round_to_one_decimal
                (avgLatency (successful_latencies net host port)))
        /\ (not_negative (jitterValue (successful_latencies net host port)) ->
            jitter r
            = round_to_one_decimal
                (jitterValue (successful_latencies net host port))))
  /\ (forall (rand : Random) (port : Z) (calls : nat),
        let r := fst (simulatePortTest rand port calls) in
        let latencies := simulated_latencies rand port calls in
        (not_negative (simulated_avgLatency latencies) ->
         latency r = round_to_one_decimal (simulated_avgLatency latencies))
        /\ (not_negative (simulated_jitterValue latencies) ->
            jitter r = round_to_one_decimal (simulated_jitterValue latencies))).
Proof.
  split.
  - intros net host port. eexists.
    split; [apply performRealPortTest_returns64|].
    cbn [latency jitter summarise collected latencies].
    split; intros H; apply one_decimal_half_away, H.
  - intros rand port calls. cbn zeta. rewrite simulatePortTest_result64.
    cbn [latency jitter]. split; intros H; apply one_decimal_half_away, H.
Qed.

Lemma latency_and_jitter_rounded_steady :
  (exists r,
      performRealPortTest Scenarios64.steady RealProbe.SERVER_IP 80 = Resolved r
      /\ latency r
         = round_to_one_decimal
             (avgLatency
                (successful_latencies Scenarios64.steady RealProbe.SERVER_IP 80))
      /\ jitter r
         = round_to_one_decimal
             (jitterValue
                (successful_latencies Scenarios64.steady RealProbe.SERVER_IP 80))
      /\ latency r = 11.2 /\ jitter r = 2)
  /\ latency (fst (simulatePortTest Scenarios64.halves 3306 0))
     = round_to_one_decimal
         (simulated_avgLatency (simulated_latencies Scenarios64.halves 3306 0)).
Proof.
  destruct latency_and_jitter_rounded_to_one_decimal as [Hreal Hsimulated].
  split.
  - destruct (Hreal Scenarios64.steady RealProbe.SERVER_IP 80%Z)
      as (r & Hr & Hlatency & Hjitter).
    specialize (Hlatency ltac:(vm_compute; reflexivity)).
    specialize (Hjitter ltac:(vm_compute; reflexivity)).
    exists r. split; [exact Hr|]. split; [exact Hlatency|].
    split; [exact Hjitter|]. split.
    + rewrite Hlatency. vm_compute. reflexivity.
    + rewrite Hjitter. vm_compute. reflexivity.
  - apply (Hsimulated Scenarios64.halves 3306%Z 0%nat).
    vm_compute. reflexivity.
Defined.

(** One connection of 0.15 ms, as binary64 holds it: the number is below
    0.15, so its nearest tenth is 0.1; ten times it is 1.5 in binary64,
    and the latency returned is 0.2. *)
Lemma one_decimal_not_nearest_tenth :
  exists r,
    performRealPortTest Scenarios64.near_tie RealProbe.SERVER_IP 80 = Resolved r
    /\ avgLatency
         (successful_latencies Scenarios64.near_tie RealProbe.SERVER_IP 80)
       = 0.15
    /\ (exact 0.15 < 0.15)%Q
    /\ (Spec.round_to_one_decimal (exact 0.15) == 0.1)%Q
    /\ latency r = 0.2
    /\ latency r <> 0.1.
Proof.
  eexists. split; [apply performRealPortTest_returns64|].
  split; [vm_compute; reflexivity|]. split; [vm_compute; reflexivity|].
  split; [vm_compute; reflexivity|]. split; [vm_compute; reflexivity|].
  intros H. apply (f_equal (fun x => Leibniz.eqb x 0.2)) in H.
  vm_compute in H. discriminate H.
Qed.

Lemma zero_div (c : float) :
  (exists m e, Prim2SF c = S754_finite false m e) -> 0 / c = 0.
Proof.
  intros (m & e & Hc). apply FloatAxioms.Prim2SF_inj.
  rewrite FloatAxioms.div_spec, Hc. reflexivity.
Qed.

Lemma steady_differences (v : float) (xs : list float) :
  finite v -> Forall (fun x => x = v) xs ->
  Forall (fun d => d = 0) (consecutive_differences xs).
Proof.
  intros Hv. induction xs as [|x [|y rest] IH]; intros Hxs;
    [constructor | constructor|].
  inversion Hxs as [|? ? Hx Hrest]; subst.
  inversion Hrest as [|? ? Hy _]; subst.
  cbn [consecutive_differences]. constructor.
  - rewrite (sub_diag v Hv). reflexivity.
  - apply IH, Hrest.
Qed.

Lemma sum_of_zeros (ds : list float) :
  Forall (fun d => d = 0) ds -> fold_left add ds 0 = 0.
Proof.
  induction 1 as [|d ds Hd _ IH]; [reflexivity|].
  cbn [fold_left]. subst d. exact IH.
Qed.

(** On a link whose successful latencies are all the same finite number
    the jitter returned is 0, whatever that number and however many
    attempts connected. *)
Theorem steady_link_has_no_jitter
    (net : Network) (host : string) (port : Z) (v : float) :
  finite v ->
  Forall (fun x => x = v) (successful_latencies net host port) ->
  exists r,
    performRealPortTest net host port = Resolved r /\ jitter r = 0.
Proof.
  intros Hv Hsame. eexists. split; [apply performRealPortTest_returns64|].
  cbn [jitter summarise collected latencies].
  rewrite jitterValue_spec64. unfold mean_consecutive_difference, mean.
  pose proof (steady_differences v _ Hv Hsame) as Hzero.
  pose proof (length_consecutive_differences64
                (successful_latencies net host port)) as Hlen.
  pose proof (length_successful_latencies net host port) as Hfive.
  destruct (consecutive_differences (successful_latencies net host port))
    as [|d ds] eqn:E; [reflexivity|].
  unfold sum. rewrite (sum_of_zeros _ Hzero), zero_div; [reflexivity|].
  apply number_of_positive_finite. cbn [length] in *. lia.
Qed.

Lemma steady_link_has_no_jitter_witness :
  exists r,
    performRealPortTest (fun _ _ _ => connect 0.35) RealProbe.SERVER_IP 80
    = Resolved r
    /\ jitter r = 0.
Proof.
  apply (steady_link_has_no_jitter
           (fun _ _ _ => connect 0.35) RealProbe.SERVER_IP 80 0.35).
  - vm_compute. reflexivity.
  - repeat (constructor; [reflexivity|]). constructor.
Defined.

End Results64.

(** ** The answer of the routes, in binary64 *)

Section Aggregator64.
Import PrimFloat SpecFloat FloatOps Binary64 Spec64.
Local Open Scope float_scope.










(** *** The average latency of the panel *)





End Aggregator64.
